(** * The Anthropic-to-Azure translation proxy (proxy.ts), embedded in Rocq

    The proxy accepts Messages-style requests, rewrites them into the
    Chat Completions or the Responses shape, calls Azure through an ordered
    list of endpoint candidates and turns the reply (streamed or not) back
    into the Messages wire format.  The definitions below follow the
    functions of proxy.ts one by one and keep their names.

    Conventions for JavaScript values:
    - an optional string field is an [option string]; the empty string and
      an absent field are both falsy, which [truthy_str] and [or_str] spell
      out for the [x || d] idiom;
    - a string stands for the bytes of its UTF-8 form.  Concatenation,
      equality, [startsWith], [includes], [split] at line feeds and
      [slice(6)] behind the ASCII prefix [data: ] read the same on the
      bytes as on the characters.  What rests on the Unicode tables, on the
      URL standard or on the decoding of bytes ([toLowerCase], [trim],
      [new URL], [Buffer.toString]) is the runtime's and is taken from
      the class [Builtins];
    - JSON data is the tree type [json]; numbers that the code computes
      with (token limits, indices, status codes) are [Z] or [nat];
    - an object literal used as a lookup table is a finite map over its own
      keys, looked up through the properties it inherits from
      [Object.prototype] ([Js.inherited]). *)

From stdpp Require Import base option list strings gmap.
From Stdlib Require Import ZArith Ascii String Bool Lia.
From Stdlib Require Import DecimalString DecimalZ DecimalPos.

Set Warnings "-register-all,-clear-no-such-hyp".
Local Open Scope string_scope.

(** ** JavaScript string helpers *)

Module Js.

(** [s] as a condition: a string is truthy when it is not empty. *)
Definition truthy (s : string) : bool := negb (String.eqb s "").

(** [o] as a condition, for an optional string property. *)
Definition truthy_str (o : option string) : bool :=
  match o with
  | Some s => truthy s
  | None => false
  end.

(** [o || d] for an optional string property. *)
Definition or_str (o : option string) (d : string) : string :=
  match o with
  | Some s => if truthy s then s else d
  | None => d
  end.

(** [s || d] for a string. *)
Definition or_default (s d : string) : string :=
  if truthy s then s else d.

(** [String.prototype.startsWith]. *)
Definition startsWith (s p : string) : bool := String.prefix p s.

(** [String.prototype.includes]: [needle] occurs somewhere in [s]. *)
Fixpoint includes (s needle : string) : bool :=
  String.prefix needle s ||
  match s with
  | EmptyString => false
  | String _ rest => includes rest needle
  end.

(** ASCII text: every byte is below 128. *)
Fixpoint isAscii (s : string) : bool :=
  match s with
  | EmptyString => true
  | String c rest => (N_of_ascii c <? 128)%N && isAscii rest
  end.

(** What [String.prototype.toLowerCase] does to ASCII text: the letters A
    to Z become a to z, every other character stays. *)
Definition lower_ascii (c : ascii) : ascii :=
  let n := N_of_ascii c in
  if ((65 <=? n) && (n <=? 90))%N then ascii_of_N (n + 32) else c.

Fixpoint lowerAscii (s : string) : string :=
  match s with
  | EmptyString => EmptyString
  | String c rest => String (lower_ascii c) (lowerAscii rest)
  end.

(** [Array.prototype.join] on strings. *)
Fixpoint join (sep : string) (l : list string) : string :=
  match l with
  | [] => ""
  | [x] => x
  | x :: rest => x ++ sep ++ join sep rest
  end.

(** What [String.prototype.trim] does to ASCII text: the space and the
    characters 9 to 13 are dropped at both ends. *)
Definition is_space (c : ascii) : bool :=
  let n := N_of_ascii c in
  ((n =? 32) || ((9 <=? n) && (n <=? 13)))%N.

Fixpoint trimStart (s : string) : string :=
  match s with
  | EmptyString => EmptyString
  | String c rest => if is_space c then trimStart rest else s
  end.

(** Drops trailing white space: a suffix made of spaces only vanishes. *)
Fixpoint trimEnd (s : string) : string :=
  match s with
  | EmptyString => EmptyString
  | String c rest =>
      match trimEnd rest with
      | EmptyString => if is_space c then EmptyString else String c EmptyString
      | kept => String c kept
      end
  end.

Definition trimAscii (s : string) : string := trimEnd (trimStart s).

(** The properties an object literal inherits from [Object.prototype]:
    eleven methods, and the accessor [__proto__], which answers
    [Object.prototype] itself.  A lookup [table[key]] that finds no own
    property of that name answers the inherited one: a function or an
    object, truthy, and not a string. *)
Definition inherited (key : string) : bool :=
  existsb (String.eqb key)
    ["constructor"; "__defineGetter__"; "__defineSetter__"; "hasOwnProperty";
     "__lookupGetter__"; "__lookupSetter__"; "isPrototypeOf";
     "propertyIsEnumerable"; "toString"; "valueOf"; "__proto__";
     "toLocaleString"].

Definition newline : string := String (ascii_of_nat 10) EmptyString.

(** [a || b] and [a ?? b] on optional numbers: [||] also skips zero. *)
Definition or_nat (o : option nat) (d : nat) : nat :=
  match o with
  | Some 0 => d
  | Some n => n
  | None => d
  end.

Definition nullish_nat (o : option nat) (d : nat) : nat :=
  match o with
  | Some n => n
  | None => d
  end.

End Js.

(** ** Built-ins taken from the runtime *)

(** The parts of a [URL] object that the proxy reads. *)
Record URL := {
  url_hostname : string;
  url_pathname : string;
  url_search : string;
}.

(** A computation that returns a value or throws an error with a message. *)
Inductive Try (A : Type) :=
| Threw (message : string)
| Gave (value : A).

Arguments Threw {A} message.
Arguments Gave {A} value.

#[global] Instance Try_bind : MBind Try :=
  fun A B k t =>
    match t with
    | Threw message => Threw message
    | Gave value => k value
    end.

#[global] Instance Try_ret : MRet Try := @Gave.

(** The built-ins of the runtime that the proxy calls and the model does
    not compute: [chunk.toString()] on a [Buffer] (UTF-8 decoding, one
    chunk at a time), [String.prototype.toLowerCase] and
    [String.prototype.trim] (both by the Unicode tables), and
    [new URL(input, base)], which parses and normalises, and throws a
    [TypeError] when [base] is no absolute URL.  Two facts about
    [toLowerCase] are taken with it: it keeps a non-empty string non-empty,
    and on ASCII text it is [Js.lowerAscii]. *)
Class Builtins := {
  Buffer : Type;
  toString : Buffer -> string;
  toLowerCase : string -> string;
  trim : string -> string;
  newURL : string -> string -> Try URL;
  toLowerCase_truthy : forall s, Js.truthy (toLowerCase s) = Js.truthy s;
  toLowerCase_ascii :
    forall s, Js.isAscii s = true -> toLowerCase s = Js.lowerAscii s;
}.

(** ** Backend configuration (config.ts, [AzureConfig]) *)

Record Deployments := {
  opus : option string;
  sonnet : option string;
  haiku : option string;
}.

Record AzureConfig := {
  endpoint : string;
  apiKey : string;
  apiVersion : string;
  deployments : Deployments;
  router : option string;
  reasoningEffort : option string;
  reasoningModel : option string;
}.

(** ** Endpoint resolver *)

Definition isResponsesApiVersion (v : string) : bool :=
  Js.startsWith v "2025-04-01" || Js.startsWith v "2024-08-01".

Definition shouldUseResponsesAPI (config : AzureConfig) : bool :=
  Js.truthy_str (router config) || isResponsesApiVersion (apiVersion config).

(** Deployment name for the URL.  [tiered] is the part of the body after
    the router test. *)
Definition getDeployment {rt : Builtins} (model : string) (config : AzureConfig)
    : string :=
  let tiered :=
    let lower := toLowerCase model in
    if Js.includes lower "opus" then Js.or_str (opus (deployments config)) "gpt-4o"
    else if Js.includes lower "haiku" then Js.or_str (haiku (deployments config)) "gpt-4o-mini"
    else Js.or_str (sonnet (deployments config)) "gpt-4o" in
  match router config with
  | Some r => if Js.truthy r then r else tiered
  | None => tiered
  end.

(** Model name for the request body. *)
Definition getModelName {rt : Builtins} (model : string) (config : AzureConfig)
    : string :=
  match router config with
  | Some r => if Js.truthy r then r else getDeployment model config
  | None => getDeployment model config
  end.

(** ** JSON values

    Tool inputs and tool-result payloads are opaque JSON trees for the
    proxy; it only tests them for truthiness and hands them to
    [JSON.stringify] and [JSON.parse]. *)

Inductive json :=
| JNull
| JBool (b : bool)
| JNum (n : Z)
| JStr (s : string)
| JArr (items : list json)
| JObj (fields : list (string * json)).

Module Json.

(** A JSON value as a condition: null, false, 0 and the empty string are
    falsy, every array and object is truthy. *)
Definition truthy (v : json) : bool :=
  match v with
  | JNull => false
  | JBool b => b
  | JNum n => negb (n =? 0)%Z
  | JStr s => Js.truthy s
  | JArr _ => true
  | JObj _ => true
  end.

(** [v || {}]. *)
Definition or_empty_object (v : json) : json :=
  if truthy v then v else JObj [].

End Json.

(** ** A reference JSON codec

    [JSON.stringify] and [JSON.parse] are the runtime's.  The translator
    below takes them as parameters; this module is an instance of them for
    the integer fragment of JSON (no white space, numbers without fraction
    or exponent), used to run the translator on concrete requests. *)

Module JsonText.

Definition hexDigit (n : N) : ascii :=
  if (n <? 10)%N then ascii_of_N (48 + n) else ascii_of_N (87 + n).

Definition hexValue (c : ascii) : option N :=
  let n := N_of_ascii c in
  if ((48 <=? n) && (n <=? 57))%N then Some (n - 48)%N
  else if ((97 <=? n) && (n <=? 102))%N then Some (n - 87)%N
  else if ((65 <=? n) && (n <=? 70))%N then Some (n - 55)%N
  else None.

Definition backslash : ascii := ascii_of_nat 92.

Definition dquote : ascii := ascii_of_nat 34.

(** The escape of one character inside a string literal. *)
Definition escapeChar (c : ascii) : string :=
  let n := N_of_ascii c in
  if (n =? 34)%N then String backslash (String c EmptyString)
  else if (n =? 92)%N then String backslash (String backslash EmptyString)
  else if (n =? 10)%N then String backslash "n"
  else if (n =? 13)%N then String backslash "r"
  else if (n =? 9)%N then String backslash "t"
  else if (n <? 32)%N
  then String backslash
         ("u00" ++ String (hexDigit (n / 16))
                     (String (hexDigit (n mod 16)) EmptyString))
  else String c EmptyString.

Fixpoint escape (s : string) : string :=
  match s with
  | EmptyString => EmptyString
  | String c rest => escapeChar c ++ escape rest
  end.

Definition quote (s : string) : string :=
  String dquote (escape s ++ String dquote EmptyString).

Definition printZ (n : Z) : string := NilZero.string_of_int (Z.to_int n).

Fixpoint stringify (v : json) : string :=
  match v with
  | JNull => "null"
  | JBool true => "true"
  | JBool false => "false"
  | JNum n => printZ n
  | JStr s => quote s
  | JArr items =>
      "[" ++ (fix elems (l : list json) : string :=
                match l with
                | [] => ""
                | [x] => stringify x
                | x :: rest => stringify x ++ "," ++ elems rest
                end) items ++ "]"
  | JObj fields =>
      "{" ++ (fix members (l : list (string * json)) : string :=
                match l with
                | [] => ""
                | [(k, x)] => quote k ++ ":" ++ stringify x
                | (k, x) :: rest => quote k ++ ":" ++ stringify x ++ "," ++ members rest
                end) fields ++ "}"
  end.

(** Reads a string literal after its opening quote. *)
Fixpoint readString (s : string) : option (string * string) :=
  match s with
  | EmptyString => None
  | String c rest =>
      let n := N_of_ascii c in
      if (n =? 34)%N then Some ("", rest)
      else if (n =? 92)%N
      then
        match rest with
        | String e rest' =>
            let m := N_of_ascii e in
            let plain (d : ascii) :=
              match readString rest' with
              | Some (text, after) => Some (String d text, after)
              | None => None
              end in
            if (m =? 110)%N then plain (ascii_of_nat 10)
            else if (m =? 114)%N then plain (ascii_of_nat 13)
            else if (m =? 116)%N then plain (ascii_of_nat 9)
            else if (m =? 117)%N
            then
              match rest' with
              | String a (String b (String h (String l rest''))) =>
                  match hexValue h, hexValue l with
                  | Some hi, Some lo =>
                      if (N_of_ascii a =? 48)%N && (N_of_ascii b =? 48)%N
                      then
                        match readString rest'' with
                        | Some (text, after) =>
                            Some (String (ascii_of_N (16 * hi + lo)) text, after)
                        | None => None
                        end
                      else None
                  | _, _ => None
                  end
              | _ => None
              end
            else if (m =? 34)%N || (m =? 92)%N || (m =? 47)%N then plain e
            else None
        | EmptyString => None
        end
      else
        match readString rest with
        | Some (text, after) => Some (String c text, after)
        | None => None
        end
  end.

Definition isNumberChar (c : ascii) : bool :=
  let n := N_of_ascii c in
  (n =? 45)%N || ((48 <=? n) && (n <=? 57))%N.

(** Splits off the longest prefix of sign and digit characters. *)
Fixpoint spanNumber (s : string) : string * string :=
  match s with
  | EmptyString => ("", "")
  | String c rest =>
      if isNumberChar c
      then let '(digits, after) := spanNumber rest in (String c digits, after)
      else ("", s)
  end.

Definition dropPrefix (p s : string) : option string :=
  if String.prefix p s
  then Some (String.substring (String.length p) (String.length s - String.length p) s)
  else None.

Fixpoint parseElems (parseV : string -> option (json * string)) (n : nat)
    (s : string) : option (list json * string) :=
  match n with
  | 0 => None
  | S n' =>
      match parseV s with
      | Some (v, String c rest) =>
          if (N_of_ascii c =? 44)%N
          then match parseElems parseV n' rest with
               | Some (vs, after) => Some (v :: vs, after)
               | None => None
               end
          else if (N_of_ascii c =? 93)%N then Some ([v], rest)
          else None
      | _ => None
      end
  end.

Fixpoint parseMembers (parseV : string -> option (json * string)) (n : nat)
    (s : string) : option (list (string * json) * string) :=
  match n with
  | 0 => None
  | S n' =>
      match s with
      | String q rest =>
          if (N_of_ascii q =? 34)%N
          then
            match readString rest with
            | Some (key, String colon rest1) =>
                if (N_of_ascii colon =? 58)%N
                then
                  match parseV rest1 with
                  | Some (v, String c rest2) =>
                      if (N_of_ascii c =? 44)%N
                      then match parseMembers parseV n' rest2 with
                           | Some (ms, after) => Some ((key, v) :: ms, after)
                           | None => None
                           end
                      else if (N_of_ascii c =? 125)%N then Some ([(key, v)], rest2)
                      else None
                  | _ => None
                  end
                else None
            | _ => None
            end
          else None
      | EmptyString => None
      end
  end.

Fixpoint parseValue (fuel : nat) (s : string) : option (json * string) :=
  match fuel with
  | 0 => None
  | S fuel' =>
      match s with
      | EmptyString => None
      | String c rest =>
          let n := N_of_ascii c in
          if (n =? 34)%N
          then match readString rest with
               | Some (text, after) => Some (JStr text, after)
               | None => None
               end
          else if (n =? 91)%N
          then match rest with
               | String c' rest' =>
                   if (N_of_ascii c' =? 93)%N then Some (JArr [], rest')
                   else match parseElems (parseValue fuel') (String.length rest) rest with
                        | Some (vs, after) => Some (JArr vs, after)
                        | None => None
                        end
               | EmptyString => None
               end
          else if (n =? 123)%N
          then match rest with
               | String c' rest' =>
                   if (N_of_ascii c' =? 125)%N then Some (JObj [], rest')
                   else match parseMembers (parseValue fuel') (String.length rest) rest with
                        | Some (ms, after) => Some (JObj ms, after)
                        | None => None
                        end
               | EmptyString => None
               end
          else if isNumberChar c
          then let '(digits, after) := spanNumber s in
               match NilZero.int_of_string digits with
               | Some d => Some (JNum (Z.of_int d), after)
               | None => None
               end
          else match dropPrefix "null" s with
               | Some after => Some (JNull, after)
               | None =>
                   match dropPrefix "true" s with
                   | Some after => Some (JBool true, after)
                   | None =>
                       match dropPrefix "false" s with
                       | Some after => Some (JBool false, after)
                       | None => None
                       end
                   end
               end
      end
  end.

(** A whole text: one value and nothing after it. *)
Definition parse (s : string) : option json :=
  match parseValue (S (String.length s)) s with
  | Some (v, EmptyString) => Some v
  | _ => None
  end.

(** The nesting depth of a value, which bounds the fuel its text needs. *)
Fixpoint depth (v : json) : nat :=
  match v with
  | JArr items => S (fold_right (fun x acc => Nat.max (depth x) acc) 0 items)
  | JObj fields => S (fold_right (fun kx acc => Nat.max (depth (snd kx)) acc) 0 fields)
  | _ => 1
  end.

(** What may follow a value: the end of the text, or a character that
    does not continue a number. *)
Definition ends (rest : string) : Prop :=
  rest = EmptyString \/ exists c r, rest = String c r /\ isNumberChar c = false.

(** The text between the brackets of an array and the braces of an object. *)
Fixpoint elemsText (l : list json) : string :=
  match l with
  | [] => ""
  | [x] => stringify x
  | x :: rest => stringify x ++ "," ++ elemsText rest
  end.

Fixpoint membersText (l : list (string * json)) : string :=
  match l with
  | [] => ""
  | [(k, x)] => quote k ++ ":" ++ stringify x
  | (k, x) :: rest => quote k ++ ":" ++ stringify x ++ "," ++ membersText rest
  end.

(** With [fuel], the parser reads [v] back from its text, whatever ends
    the value. *)
Definition Reads (fuel : nat) (v : json) : Prop :=
  forall rest, ends rest -> parseValue fuel (stringify v ++ rest) = Some (v, rest).

End JsonText.

(** ** Client (Messages) wire format *)

Record ImageSource := {
  src_type : option string;
  src_media_type : option string;
  src_data : option string;
}.

(** An element of an array-valued [tool_result.content]. *)
Inductive ResultItem :=
| ItemString (s : string)
| ItemObject (text : option string).

(** [tool_result.content]: a string, an array, or any other JSON value. *)
Inductive ResultContent :=
| RcString (s : string)
| RcItems (items : list ResultItem)
| RcValue (v : json).

(** A [tool_use] block: identifier, tool name and the input structure. *)
Record ToolUse := {
  tu_id : string;
  tu_name : string;
  tu_input : json;
}.

Record ToolResult := {
  tr_tool_use_id : option string;
  tr_content : option ResultContent;
  tr_is_error : bool;
}.

(** Content blocks by their [type]; [BOther] is a block of any other (or
    no) type, which every loop of the proxy skips. *)
Inductive Block :=
| BText (text : option string)
| BImage (source : option ImageSource)
| BToolUse (tu : ToolUse)
| BToolResult (tr : ToolResult)
| BOther.

(** [msg.content]: a string, an array of blocks, or neither. *)
Inductive Content :=
| CString (s : string)
| CBlocks (blocks : list Block)
| CNeither.

Record Message := {
  msg_role : option string;
  msg_content : Content;
}.

Inductive SystemPrompt :=
| SysString (s : string)
| SysBlocks (blocks : list Block).

(** A tool declaration as the client sends it, or already in OpenAI form. *)
Record ToolFunction := {
  tf_name : option string;
  tf_description : option string;
  tf_parameters : option json;
}.

Record ClaudeTool := {
  tool_type : option string;
  tool_name : option string;
  tool_description : option string;
  tool_input_schema : option json;
  tool_function : option ToolFunction;
}.

Record ClaudeRequest := {
  req_model : option string;
  req_messages : option (list Message);
  req_system : option SystemPrompt;
  req_max_tokens : option Z;
  req_temperature : option string;
  req_tools : option (list ClaudeTool);
  req_stream : option bool;
}.

(** ** Backend (OpenAI / Azure) wire format *)

Record FunctionCall := {
  fn_name : option string;
  fn_arguments : option string;
}.

(** An entry of [tool_calls]; its [type] is always ['function']. *)
Record ToolCall := {
  tc_id : option string;
  tc_function : option FunctionCall;
}.

Inductive Part :=
| PText (type : string) (text : string)
| PImage (type : string) (url : string).

Inductive OaiContent :=
| OString (s : string)
| ONull
| OParts (parts : list Part).

Record OaiMessage := {
  o_role : string;
  o_content : OaiContent;
  o_tool_calls : option (list ToolCall);
  o_tool_call_id : option string;
}.

Inductive OaiTool :=
| ToolAsIs (t : ClaudeTool)
| ToolFlat (name description : string) (parameters : json)
| ToolNested (name description : string) (parameters : json).

(** The request body sent to Azure.  [p_input]/[p_max_output_tokens] are
    the Responses fields, [p_messages]/[p_max_completion_tokens] the Chat
    Completions ones. *)
Record Payload := {
  p_model : string;
  p_stream : bool;
  p_input : option (list OaiMessage);
  p_messages : option (list OaiMessage);
  p_max_output_tokens : option Z;
  p_max_completion_tokens : option Z;
  p_temperature : option string;
  p_tools : option (list OaiTool);
  p_reasoning : option string;
  p_reasoning_effort : option string;
}.

(** ** Content model translator, forward direction

    [JSON.stringify] and [JSON.parse] belong to the JavaScript runtime; the
    translator is written against them as parameters.  [JSON_parse] answers
    [None] where [JSON.parse] throws. *)

Section Runtime.

Context {rt : Builtins}.
Variable JSON_stringify : json -> string.
Variable JSON_parse : string -> option json.

(** Detect tool usage ([tool_use] or [tool_result] blocks). *)
Definition isToolBlock (b : Block) : bool :=
  match b with
  | BToolUse _ | BToolResult _ => true
  | _ => false
  end.

Definition hasToolUsage (messages : list Message) : bool :=
  existsb
    (fun msg =>
       match msg_content msg with
       | CBlocks blocks => existsb isToolBlock blocks
       | _ => false
       end)
    messages.

(** The four arrays that the block loop of [convertMessages] fills. *)
Record Parts := {
  textParts : list Part;
  imageParts : list Part;
  toolUseBlocks : list ToolUse;
  toolResultBlocks : list ToolResult;
}.

Definition partText (p : Part) : string :=
  match p with
  | PText _ text => text
  | PImage _ _ => ""
  end.

Fixpoint collectParts (useResponsesAPI : bool) (role : string)
    (blocks : list Block) : Parts :=
  match blocks with
  | [] => {| textParts := []; imageParts := []; toolUseBlocks := [];
             toolResultBlocks := [] |}
  | block :: rest =>
      let acc := collectParts useResponsesAPI role rest in
      match block with
      | BText text =>
          let textType :=
            if useResponsesAPI
            then (if String.eqb role "assistant" then "output_text" else "input_text")
            else "text" in
          {| textParts := PText textType (Js.or_str text "") :: textParts acc;
             imageParts := imageParts acc;
             toolUseBlocks := toolUseBlocks acc;
             toolResultBlocks := toolResultBlocks acc |}
      | BImage source =>
          match source with
          | Some src =>
              if match src_type src with
                 | Some t => String.eqb t "base64"
                 | None => false
                 end
              then
                let mediaType := Js.or_str (src_media_type src) "image/png" in
                let data := Js.or_str (src_data src) "" in
                let imageType := if useResponsesAPI then "input_image" else "image_url" in
                {| textParts := textParts acc;
                   imageParts :=
                     PImage imageType ("data:" ++ mediaType ++ ";base64," ++ data)
                     :: imageParts acc;
                   toolUseBlocks := toolUseBlocks acc;
                   toolResultBlocks := toolResultBlocks acc |}
              else acc
          | None => acc
          end
      | BToolUse tu =>
          {| textParts := textParts acc;
             imageParts := imageParts acc;
             toolUseBlocks := tu :: toolUseBlocks acc;
             toolResultBlocks := toolResultBlocks acc |}
      | BToolResult tr =>
          {| textParts := textParts acc;
             imageParts := imageParts acc;
             toolUseBlocks := toolUseBlocks acc;
             toolResultBlocks := tr :: toolResultBlocks acc |}
      | BOther => acc
      end
  end.

(** [result.content || ''], flattened to a string. *)
Definition resultText (result : ToolResult) : string :=
  match tr_content result with
  | None => ""
  | Some (RcString s) => s
  | Some (RcItems items) =>
      Js.join Js.newline
        (map (fun item =>
                match item with
                | ItemString s => s
                | ItemObject text => Js.or_str text ""
                end)
             items)
  | Some (RcValue v) => if Json.truthy v then JSON_stringify v else ""
  end.

(** The [tool_calls] entry built for one [tool_use] block. *)
Definition toToolCall (tb : ToolUse) : ToolCall :=
  {| tc_id := Some (Js.or_default (tu_id tb) "");
     tc_function :=
       Some {| fn_name := Some (Js.or_default (tu_name tb) "");
               fn_arguments :=
                 Some (JSON_stringify (Json.or_empty_object (tu_input tb))) |} |}.

Definition plain (role : string) (content : OaiContent) : OaiMessage :=
  {| o_role := role; o_content := content; o_tool_calls := None;
     o_tool_call_id := None |}.

(** [[a, b].filter(Boolean).join(' ') || ''] *)
Definition joinTruthy (a b : string) : string :=
  Js.join " " (filter (fun x => Js.truthy x = true) [a; b]).

(** The body of the message loop: the backend entries pushed for one
    client message. *)
Definition convertMessage (useResponsesAPI : bool) (msg : Message)
    : list OaiMessage :=
  let role := Js.or_str (msg_role msg) "user" in
  match msg_content msg with
  | CString content => [plain role (OString content)]
  | CNeither => []
  | CBlocks content =>
      let ps := collectParts useResponsesAPI role content in
      let textContent := trim (Js.join " " (map partText (textParts ps))) in
      if String.eqb role "assistant" && negb (List.length (toolUseBlocks ps) =? 0)%nat
      then
        if useResponsesAPI
        then
          let toolText :=
            Js.join " "
              (map (fun tb =>
                      "[Tool: " ++ tu_name tb ++ ", Input: "
                      ++ JSON_stringify (tu_input tb) ++ "]")
                   (toolUseBlocks ps)) in
          [plain "assistant" (OString (joinTruthy textContent toolText))]
        else
          [{| o_role := "assistant";
              o_content := if Js.truthy textContent then OString textContent else ONull;
              o_tool_calls := Some (map toToolCall (toolUseBlocks ps));
              o_tool_call_id := None |}]
      else if negb (List.length (toolResultBlocks ps) =? 0)%nat
      then
        if useResponsesAPI
        then
          let toolResults :=
            Js.join " "
              (map (fun result =>
                      "[Tool Result: "
                      ++ (if tr_is_error result then "Error: " else "")
                      ++ resultText result ++ "]")
                   (toolResultBlocks ps)) in
          [plain "user" (OString (joinTruthy textContent toolResults))]
        else
          map (fun result =>
                 {| o_role := "tool";
                    o_content :=
                      OString (if tr_is_error result
                               then "Error: " ++ resultText result
                               else resultText result);
                    o_tool_calls := None;
                    o_tool_call_id := Some (Js.or_str (tr_tool_use_id result) "") |})
              (toolResultBlocks ps)
          ++ (if negb (List.length (textParts ps) =? 0)%nat && Js.truthy textContent
              then [plain "user" (OString textContent)]
              else [])%list
      else if negb (List.length (textParts ps) =? 0)%nat
              || negb (List.length (imageParts ps) =? 0)%nat
      then
        match textParts ps ++ imageParts ps with
        | [PText type text] =>
            if String.eqb type "text"
            then [plain role (OString (Js.or_default text ""))]
            else [plain role (OParts [PText type text])]
        | combined => [plain role (OParts combined)]
        end
      else []
  end.

Definition systemEntry (system : option SystemPrompt) : list OaiMessage :=
  match system with
  | None => []
  | Some (SysString s) =>
      if Js.truthy s then [plain "system" (OString s)] else []
  | Some (SysBlocks blocks) =>
      let text :=
        Js.join " "
          (flat_map (fun b =>
                       match b with
                       | BText t => [Js.or_str t ""]
                       | _ => []
                       end)
                    blocks) in
      [plain "system" (OString text)]
  end.

Definition convertMessages (claudeMessages : list Message)
    (system : option SystemPrompt) (useResponsesAPI : bool) : list OaiMessage :=
  systemEntry system ++ flat_map (convertMessage useResponsesAPI) claudeMessages.

Definition defaultSchema : json :=
  JObj [("type", JStr "object"); ("properties", JObj [])].

(** [a || b] on optional JSON values. *)
Definition or_json (o : option json) (d : json) : json :=
  match o with
  | Some v => if Json.truthy v then v else d
  | None => d
  end.

(** [a || b || ''] on two optional strings. *)
Definition or_str2 (a b : option string) : string :=
  Js.or_str a (Js.or_str b "").

Definition convertTool (useResponsesAPI : bool) (tool : ClaudeTool) : OaiTool :=
  let isFunction :=
    match tool_type tool with
    | Some t => String.eqb t "function"
    | None => false
    end in
  if isFunction && negb useResponsesAPI then ToolAsIs tool
  else if useResponsesAPI
  then
    ToolFlat
      (or_str2 (tool_name tool) (tool_function tool ≫= tf_name))
      (or_str2 (tool_description tool) (tool_function tool ≫= tf_description))
      (or_json (tool_input_schema tool)
         (or_json (tool_function tool ≫= tf_parameters) defaultSchema))
  else
    ToolNested
      (Js.or_str (tool_name tool) "")
      (Js.or_str (tool_description tool) "")
      (or_json (tool_input_schema tool) defaultSchema).

Definition convertTools (claudeTools : list ClaudeTool) (useResponsesAPI : bool)
    : list OaiTool :=
  map (convertTool useResponsesAPI) claudeTools.

(** [claudeReq.max_tokens || 64000]: an absent limit and a limit of zero
    both take the default. *)
Definition requestedMaxTokens (claudeReq : ClaudeRequest) : Z :=
  match req_max_tokens claudeReq with
  | Some n => if (n =? 0)%Z then 64000%Z else n
  | None => 64000%Z
  end.

(** [Math.max(4096, Math.min(maxTokens, 128000))] *)
Definition clampTokens (maxTokens : Z) : Z :=
  Z.max 4096 (Z.min maxTokens 128000).

Definition nullToEmpty (msg : OaiMessage) : OaiMessage :=
  match o_content msg with
  | ONull =>
      {| o_role := o_role msg; o_content := OString "";
         o_tool_calls := o_tool_calls msg; o_tool_call_id := o_tool_call_id msg |}
  | _ => msg
  end.

(** Whether the reasoning directive is attached, for a configured effort. *)
Definition shouldApplyReasoning (config : AzureConfig) (model : string) : bool :=
  let modelName := toLowerCase model in
  let targetModel := option_map toLowerCase (reasoningModel config) in
  if Js.truthy_str targetModel
  then String.eqb modelName (Js.or_str targetModel "")
       || Js.truthy_str (router config)
  else Js.includes modelName "gpt-5".

Definition buildOpenAIRequest (claudeReq : ClaudeRequest) (config : AzureConfig)
    (useResponsesAPI : bool) : Payload :=
  let maxTokens := requestedMaxTokens claudeReq in
  let messages :=
    convertMessages (default [] (req_messages claudeReq)) (req_system claudeReq)
      useResponsesAPI in
  let messages := if useResponsesAPI then map nullToEmpty messages else messages in
  let model := getModelName (Js.or_str (req_model claudeReq) "") config in
  let reasoning :=
    match reasoningEffort config with
    | Some effort =>
        if Js.truthy effort && shouldApplyReasoning config model
        then Some effort else None
    | None => None
    end in
  {| p_model := model;
     p_stream := default false (req_stream claudeReq);
     p_input := if useResponsesAPI then Some messages else None;
     p_messages := if useResponsesAPI then None else Some messages;
     p_max_output_tokens :=
       if useResponsesAPI then Some (clampTokens maxTokens) else None;
     p_max_completion_tokens :=
       if useResponsesAPI then None else Some (clampTokens maxTokens);
     p_temperature := req_temperature claudeReq;
     p_tools :=
       match req_tools claudeReq with
       | Some (t :: ts) => Some (convertTools (t :: ts) useResponsesAPI)
       | _ => None
       end;
     p_reasoning := if useResponsesAPI then reasoning else None;
     p_reasoning_effort := if useResponsesAPI then None else reasoning |}.

(** ** Content model translator, reverse direction *)

Record ReplyMessage := {
  m_content : option string;
  m_tool_calls : option (list ToolCall);
}.

Record Choice := {
  c_message : option ReplyMessage;
  c_finish_reason : option string;
}.

Record Usage := {
  prompt_tokens : option nat;
  completion_tokens : option nat;
  input_tokens : option nat;
  output_tokens : option nat;
}.

(** The [arguments] of a Responses tool item: a JSON text or a structure. *)
Inductive Args :=
| ArgText (s : string)
| ArgValue (v : json).

(** The fields that [convertResponse] reads from an element of [output] and
    from an element of a message item's [content]. *)
Record Entity := {
  e_type : option string;
  e_text : option string;
  e_id : option string;
  e_name : option string;
  e_tool_name : option string;
  e_arguments : option Args;
  e_tool_arguments : option Args;
  e_input : option Args;
  e_function : option FunctionCall;
}.

Inductive ItemContent :=
| IcString (s : string)
| IcBlocks (blocks : list Entity)
| IcNeither.

Record OutputItem := {
  i_entity : Entity;
  i_content : ItemContent;
}.

Record OpenAIResponse := {
  r_id : option string;
  r_choices : option (list Choice);
  r_usage : option Usage;
  r_output_text : option string;
  r_output : option (list OutputItem);
}.

(** Content blocks of a client-format reply. *)
Inductive ReplyBlock :=
| RText (text : string)
| RToolUse (id : string) (name : string) (input : json).

(** The value of a [stop_reason] property: a string, or what the lookup
    in [stopReasonMap] answers for an inherited property name, which is
    [Object.prototype[key]] (a function, or for [__proto__] the prototype
    object). *)
Inductive StopReason :=
| Reason (text : string)
| Inherited (key : string).

Record ClaudeResponse := {
  cr_id : string;
  cr_content : list ReplyBlock;
  cr_model : string;
  cr_stop_reason : StopReason;
  cr_input_tokens : nat;
  cr_output_tokens : nat;
}.

(** The own properties of the object literal [stopReasonMap]. *)
Definition stopReasonMap : gmap string string :=
  <["stop" := "end_turn"]>
  (<["length" := "max_tokens"]>
  (<["tool_calls" := "tool_use"]>
  (<["content_filter" := "end_turn"]> ∅))).

(** [stopReasonMap[finishReason] || 'end_turn'] with
    [finishReason = choice.finish_reason || 'stop'].  The lookup finds an
    own property, or else an inherited one, or else [undefined]; only a
    falsy result takes the default. *)
Definition mapStopReason (finish_reason : option string) : StopReason :=
  let finishReason := Js.or_str finish_reason "stop" in
  match stopReasonMap !! finishReason with
  | Some reason => Reason (Js.or_default reason "end_turn")
  | None =>
      if Js.inherited finishReason then Inherited finishReason
      else Reason "end_turn"
  end.

(** [JSON.parse] under [try], with [{}] on failure. *)
Definition parseOrEmpty (text : string) : json :=
  match JSON_parse text with
  | Some v => v
  | None => JObj []
  end.

Definition toolUseOfCall (tc : ToolCall) : ReplyBlock :=
  RToolUse
    (Js.or_str (tc_id tc) "")
    (Js.or_str (tc_function tc ≫= fn_name) "")
    (parseOrEmpty (Js.or_str (tc_function tc ≫= fn_arguments) "{}")).

(** The content blocks of layout (a): the first choice's message. *)
Definition choiceContent (message : ReplyMessage) : list ReplyBlock :=
  ((match m_content message with
    | Some text => if Js.truthy text then [RText text] else []
    | None => []
    end)
   ++ match m_tool_calls message with
      | Some calls => map toolUseOfCall calls
      | None => []
      end)%list.

Definition emptyMessage : ReplyMessage :=
  {| m_content := None; m_tool_calls := None |}.

Definition emptyChoice : Choice :=
  {| c_message := None; c_finish_reason := None |}.

(** [a || b || 0] on two optional counters. *)
Definition or_nat2 (a b : option nat) : nat := Js.or_nat a (Js.or_nat b 0).

(** [a ?? b ?? 0] on two optional counters. *)
Definition nullish_nat2 (a b : option nat) : nat :=
  match a with
  | Some n => n
  | None => Js.nullish_nat b 0
  end.

(** [pushToolUse]: the structured input of a tool item. *)
Definition argsInput (args : Args) : json :=
  match args with
  | ArgText s => parseOrEmpty s
  | ArgValue v =>
      match v with
      | JArr _ | JObj _ => v
      | _ => JObj []
      end
  end.

Definition argsTruthy (args : Args) : bool :=
  match args with
  | ArgText s => Js.truthy s
  | ArgValue v => Json.truthy v
  end.

(** [a || b] on optional argument fields. *)
Definition or_args (a : option Args) (d : Args) : Args :=
  match a with
  | Some x => if argsTruthy x then x else d
  | None => d
  end.

Definition typeIs (e : Entity) (t : string) : bool :=
  match e_type e with
  | Some ty => String.eqb ty t
  | None => false
  end.

(** [extractToolCall] followed by [pushToolUse]. *)
Definition extractToolCall (item : Entity) : list ReplyBlock :=
  if typeIs item "tool_call" || typeIs item "function_call"
  then
    [RToolUse
       (Js.or_str (e_id item) "")
       (Js.or_str (e_name item)
          (Js.or_str (e_tool_name item)
             (Js.or_str (e_function item ≫= fn_name) "")))
       (argsInput
          (or_args (e_arguments item)
             (or_args (e_tool_arguments item)
                (ArgText (Js.or_str (e_function item ≫= fn_arguments) "{}")))))]
  else if typeIs item "tool" && Js.truthy_str (e_name item)
  then
    [RToolUse
       (Js.or_str (e_id item) "")
       (Js.or_str (e_name item) "")
       (argsInput (or_args (e_arguments item) (or_args (e_input item) (ArgText "{}"))))]
  else [].

(** Texts and tool uses found in one element of [output]. *)
Definition itemTexts (item : OutputItem) : list string :=
  if typeIs (i_entity item) "message"
  then
    match i_content item with
    | IcString s => [s]
    | IcBlocks blocks =>
        flat_map (fun block =>
                    if typeIs block "output_text" || typeIs block "text"
                    then [Js.or_str (e_text block) ""] else [])
                 blocks
    | IcNeither => []
    end
  else [].

Definition itemToolUses (item : OutputItem) : list ReplyBlock :=
  if typeIs (i_entity item) "message"
  then
    match i_content item with
    | IcBlocks blocks => flat_map extractToolCall blocks
    | _ => []
    end
  else extractToolCall (i_entity item).

(** [fallbackId] stands for [msg_${Date.now()}]. *)
Definition convertResponse (fallbackId : string) (openaiRes : OpenAIResponse)
    (model : string) : ClaudeResponse :=
  match r_choices openaiRes with
  | Some (first :: _) =>
      let choice := first in
      let message := default emptyMessage (c_message choice) in
      {| cr_id := Js.or_str (r_id openaiRes) fallbackId;
         cr_content := choiceContent message;
         cr_model := model;
         cr_stop_reason := mapStopReason (c_finish_reason choice);
         cr_input_tokens :=
           or_nat2 (r_usage openaiRes ≫= prompt_tokens)
                   (r_usage openaiRes ≫= input_tokens);
         cr_output_tokens :=
           or_nat2 (r_usage openaiRes ≫= completion_tokens)
                   (r_usage openaiRes ≫= output_tokens) |}
  | _ =>
      let output := default [] (r_output openaiRes) in
      let textParts :=
        (match r_output_text openaiRes with
         | Some s => [s]
         | None => []
         end ++ flat_map itemTexts output)%list in
      let toolUses := flat_map itemToolUses output in
      {| cr_id := Js.or_str (r_id openaiRes) fallbackId;
         cr_content :=
           ((match textParts with
             | [] => []
             | _ => [RText (Js.join "" textParts)]
             end) ++ toolUses)%list;
         cr_model := model;
         cr_stop_reason := Reason "end_turn";
         cr_input_tokens :=
           nullish_nat2 (r_usage openaiRes ≫= input_tokens)
                        (r_usage openaiRes ≫= prompt_tokens);
         cr_output_tokens :=
           nullish_nat2 (r_usage openaiRes ≫= output_tokens)
                        (r_usage openaiRes ≫= completion_tokens) |}
  end.

End Runtime.

(** ** Request dispatcher with fallback *)

(** The options of one HTTPS request: always port 443 and method POST.
    [hostname] is the host of [azure.endpoint], [path] is
    [pathname + search] of the candidate URL. *)
Record RequestOptions := {
  hostname : string;
  path : string;
  api_key : string;
}.

(** What [requestJson] settles to: it resolves with a status code and the
    whole body, or rejects with an error. *)
Inductive Outcome :=
| Responded (statusCode : nat) (body : string)
| Failed (message : string).

(** What [requestWithFallback] settles to. *)
Inductive DispatchResult :=
| Returned (statusCode : nat) (body : string) (options : RequestOptions)
| Thrown (message : string).

(** One call of [requestJson], as the dispatcher issued it. *)
Record Attempt := {
  a_options : RequestOptions;
  a_payload : Payload;
}.

Definition truthyZ (o : option Z) : bool :=
  match o with
  | Some n => negb (n =? 0)%Z
  | None => false
  end.

(** The payload adaptation at the head of the loop body: a Responses
    payload sent to a chat-completions path gets the Chat Completions field
    names. *)
Definition adaptPayload (options : RequestOptions) (payload : Payload) : Payload :=
  match p_input payload with
  | Some input =>
      if Js.includes (path options) "/chat/completions"
      then
        {| p_model := p_model payload;
           p_stream := p_stream payload;
           p_input := None;
           p_messages := Some input;
           p_max_output_tokens :=
             if truthyZ (p_max_output_tokens payload)
             then None else p_max_output_tokens payload;
           p_max_completion_tokens :=
             if truthyZ (p_max_output_tokens payload)
             then p_max_output_tokens payload else p_max_completion_tokens payload;
           p_temperature := p_temperature payload;
           p_tools := p_tools payload;
           p_reasoning := p_reasoning payload;
           p_reasoning_effort := p_reasoning_effort payload |}
      else payload
  | None => payload
  end.

Section Network.

(** The backend as one request sees it: [requestJson] for whole replies. *)
Variable requestJson : RequestOptions -> Payload -> Outcome.

(** The loop of [requestWithFallback] from candidate [i] on: [rest] holds
    the candidates [optionsList[i..]], so [i < optionsList.length - 1]
    reads "the tail after this candidate is not empty".  Returns the
    attempts made, in order, and the result. *)
Fixpoint fallbackLoop (rest : list RequestOptions) (payload : Payload)
    (lastError : option string) : list Attempt * DispatchResult :=
  match rest with
  | [] => ([], Thrown (default "Azure request failed" lastError))
  | options :: later =>
      let currentPayload := adaptPayload options payload in
      let attempt := {| a_options := options; a_payload := currentPayload |} in
      let notLast := negb (List.length later =? 0)%nat in
      match requestJson options currentPayload with
      | Responded statusCode body =>
          if (statusCode =? 404)%nat && notLast
          then
            let '(attempts, result) := fallbackLoop later payload lastError in
            (attempt :: attempts, result)
          else ([attempt], Returned statusCode body options)
      | Failed err =>
          if notLast
          then
            let '(attempts, result) := fallbackLoop later payload (Some err) in
            (attempt :: attempts, result)
          else ([attempt], Thrown err)
      end
  end.

Definition requestWithFallback (optionsList : list RequestOptions)
    (payload : Payload) : list Attempt * DispatchResult :=
  fallbackLoop optionsList payload None.

End Network.

(** ** Streaming reassembler *)

Inductive ContentBlock :=
| CbText
| CbToolUse (id name : string).

Inductive BlockDelta :=
| TextDelta (text : string)
| InputJsonDelta (partial_json : string).

(** The server-sent events of the client protocol, by event name. *)
Inductive Event :=
| message_start (id model : string)
| content_block_start (index : nat) (content_block : ContentBlock)
| content_block_delta (index : nat) (delta : BlockDelta)
| content_block_stop (index : nat)
| message_delta (stop_reason : StopReason) (usage_output_tokens : nat)
| message_stop.

(** *** Native stream relay *)

Record ToolCallDelta := {
  tcd_index : option nat;
  tcd_id : option string;
  tcd_function : option FunctionCall;
}.

Record Delta := {
  d_content : option string;
  d_tool_calls : option (list ToolCallDelta);
}.

Record ChunkChoice := {
  cc_delta : option Delta;
  cc_finish_reason : option string;
}.

Record Chunk := {
  ch_choices : option (list ChunkChoice);
  ch_usage : option Usage;
}.

(** A complete line of the backend stream as the loop header sees it:
    [Skipped] is a line that is not a [data: ] line, is [[DONE]], or does
    not parse; [Data] carries the parsed object. *)
Inductive SseLine :=
| Skipped
| Data (data : Chunk).

(** An entry of the [toolCalls] map. *)
Record ToolCallAcc := {
  acc_id : string;
  acc_name : string;
  acc_arguments : string;
}.

(** The mutable variables of [handleStreaming].  [toolBlocksStarted] is a
    [Set<number>]; its iteration order is insertion order, so it is kept as
    a list without repetitions. *)
Record StreamState := {
  outputTokens : nat;
  finishReason : string;
  textBlockStarted : bool;
  currentBlockIndex : nat;
  toolCalls : gmap nat ToolCallAcc;
  toolBlocksStarted : list nat;
}.

Definition initialState : StreamState :=
  {| outputTokens := 0;
     finishReason := "end_turn";
     textBlockStarted := false;
     currentBlockIndex := 0;
     toolCalls := ∅;
     toolBlocksStarted := [] |}.

(** [set.has(i)] *)
Definition hasIndex (i : nat) (set : list nat) : bool :=
  existsb (Nat.eqb i) set.

(** The finish-reason update of a chunk. *)
Definition nextFinishReason (current : string) (finish_reason : option string)
    : string :=
  match finish_reason with
  | Some r =>
      if Js.truthy r
      then if String.eqb r "tool_calls" then "tool_use"
           else if String.eqb r "length" then "max_tokens"
           else "end_turn"
      else current
  | None => current
  end.

(** The text part of a chunk: open the text block if needed, then relay
    the delta. *)
Definition onContent (st : StreamState) (content : option string)
    : StreamState * list Event :=
  match content with
  | Some text =>
      if Js.truthy text
      then
        ({| outputTokens := outputTokens st;
            finishReason := finishReason st;
            textBlockStarted := true;
            currentBlockIndex := currentBlockIndex st;
            toolCalls := toolCalls st;
            toolBlocksStarted := toolBlocksStarted st |},
         (if textBlockStarted st then []
          else [content_block_start (currentBlockIndex st) CbText])
         ++ [content_block_delta (currentBlockIndex st) (TextDelta text)])%list
      else (st, [])
  | None => (st, [])
  end.

(** "Close text block if open", at the head of the tool-call branch. *)
Definition closeTextBlock (st : StreamState) : StreamState * list Event :=
  if textBlockStarted st && (List.length (toolBlocksStarted st) =? 0)%nat
  then
    ({| outputTokens := outputTokens st;
        finishReason := finishReason st;
        textBlockStarted := false;
        currentBlockIndex := S (currentBlockIndex st);
        toolCalls := toolCalls st;
        toolBlocksStarted := toolBlocksStarted st |},
     [content_block_stop (currentBlockIndex st)])
  else (st, []).

(** The body of the loop over [delta.tool_calls]. *)
Definition onToolCall (st : StreamState) (tc : ToolCallDelta)
    : StreamState * list Event :=
  let tcIndex := Js.or_nat (tcd_index tc) 0 in
  let blockIndex := currentBlockIndex st + tcIndex in
  let known :=
    match toolCalls st !! tcIndex with
    | Some toolCall => toolCall
    | None => {| acc_id := Js.or_str (tcd_id tc) ""; acc_name := "";
                 acc_arguments := "" |}
    end in
  let name := tcd_function tc ≫= fn_name in
  let arguments := tcd_function tc ≫= fn_arguments in
  let toolCall :=
    {| acc_id := Js.or_str (tcd_id tc) (acc_id known);
       acc_name := Js.or_str name (acc_name known);
       acc_arguments :=
         if Js.truthy_str arguments
         then acc_arguments known ++ Js.or_str arguments ""
         else acc_arguments known |} in
  let opens :=
    negb (hasIndex blockIndex (toolBlocksStarted st)) && Js.truthy (acc_name toolCall) in
  let started :=
    if opens then (toolBlocksStarted st ++ [blockIndex])%list
    else toolBlocksStarted st in
  ({| outputTokens := outputTokens st;
      finishReason := finishReason st;
      textBlockStarted := textBlockStarted st;
      currentBlockIndex := currentBlockIndex st;
      toolCalls := <[tcIndex := toolCall]> (toolCalls st);
      toolBlocksStarted := started |},
   (if opens
    then [content_block_start blockIndex
            (CbToolUse (acc_id toolCall) (acc_name toolCall))]
    else [])
   ++ (if Js.truthy_str arguments && hasIndex blockIndex started
       then [content_block_delta blockIndex
               (InputJsonDelta (Js.or_str arguments ""))]
       else []))%list.

Fixpoint onToolCalls (st : StreamState) (calls : list ToolCallDelta)
    : StreamState * list Event :=
  match calls with
  | [] => (st, [])
  | tc :: rest =>
      let '(st1, events1) := onToolCall st tc in
      let '(st2, events2) := onToolCalls st1 rest in
      (st2, (events1 ++ events2)%list)
  end.

Definition emptyDelta : Delta := {| d_content := None; d_tool_calls := None |}.

(** One parsed [data: ] line. *)
Definition onChunk (st : StreamState) (data : Chunk) : StreamState * list Event :=
  match default [] (ch_choices data) with
  | [] => (st, [])
  | choice :: _ =>
      let delta := default emptyDelta (cc_delta choice) in
      let st0 :=
        {| outputTokens := outputTokens st;
           finishReason := nextFinishReason (finishReason st) (cc_finish_reason choice);
           textBlockStarted := textBlockStarted st;
           currentBlockIndex := currentBlockIndex st;
           toolCalls := toolCalls st;
           toolBlocksStarted := toolBlocksStarted st |} in
      let '(st1, textEvents) := onContent st0 (d_content delta) in
      let '(st2, toolEvents) :=
        match d_tool_calls delta with
        | Some calls =>
            let '(sa, closing) := closeTextBlock st1 in
            let '(sb, events) := onToolCalls sa calls in
            (sb, (closing ++ events)%list)
        | None => (st1, [])
        end in
      ({| outputTokens :=
            match ch_usage data with
            | Some usage => Js.or_nat (completion_tokens usage) (outputTokens st2)
            | None => outputTokens st2
            end;
          finishReason := finishReason st2;
          textBlockStarted := textBlockStarted st2;
          currentBlockIndex := currentBlockIndex st2;
          toolCalls := toolCalls st2;
          toolBlocksStarted := toolBlocksStarted st2 |},
       (textEvents ++ toolEvents)%list)
  end.

Definition onLine (st : StreamState) (line : SseLine) : StreamState * list Event :=
  match line with
  | Skipped => (st, [])
  | Data data => onChunk st data
  end.

(** The ['data'] handler over all lines of the stream. *)
Fixpoint onLines (st : StreamState) (lines : list SseLine)
    : StreamState * list Event :=
  match lines with
  | [] => (st, [])
  | line :: rest =>
      let '(st1, events1) := onLine st line in
      let '(st2, events2) := onLines st1 rest in
      (st2, (events1 ++ events2)%list)
  end.

(** The ['end'] handler. *)
Definition onEnd (st : StreamState) : list Event :=
  ((if textBlockStarted st
       && negb (hasIndex (currentBlockIndex st) (toolBlocksStarted st))
    then [content_block_stop (currentBlockIndex st)] else [])
   ++ map content_block_stop (toolBlocksStarted st)
   ++ (if negb (textBlockStarted st)
          && (List.length (toolBlocksStarted st) =? 0)%nat
       then [content_block_start 0 CbText; content_block_stop 0] else [])
   ++ [message_delta (Reason (finishReason st)) (outputTokens st);
       message_stop])%list.

(** The error rendering shared by both streaming paths ([writeError], and
    the same five writes in [handleStreaming]). *)
Definition writeError (message : string) : list Event :=
  [content_block_start 0 CbText;
   content_block_delta 0 (TextDelta message);
   content_block_stop 0;
   message_delta (Reason "end_turn") 0;
   message_stop].

(** What the streaming request of [handleStreaming] meets: a response with
    its status code, whose body is read as text ([errorBody]) when the
    status is not 200 and as data lines otherwise, and which is read to
    its ['end'] ([ended = true]) or breaks off before; or a request that
    fails. *)
Inductive StreamOutcome :=
| StreamResponse (statusCode : nat) (errorBody : string)
                 (lines : list SseLine) (ended : bool)
| StreamFailed (message : string).

(** The events written by [handleStreaming]; [msgId] is
    [msg_${Date.now()}].  In the branch of a status other than 200 the
    ['data'] handler only collects the body; the error block is written by
    the ['end'] handler, and that branch has no ['error'] handler.  In the
    branch of status 200 the ['data'] handler relays line by line and the
    ['end'] handler closes the stream. *)
Definition handleStreaming (msgId model : string) (outcome : StreamOutcome)
    : list Event :=
  message_start msgId model ::
  match outcome with
  | StreamResponse statusCode errorBody lines ended =>
      if negb (statusCode =? 200)%nat
      then
        if ended then writeError ("Error from Azure: " ++ errorBody) else []
      else
        let '(st, events) := onLines initialState lines in
        if ended then (events ++ onEnd st)%list else events
  | StreamFailed _ => []
  end.

(** *** Synthesized stream from a single response, and the plain reply *)

(** [JSON.parse(body)] read at the reply type: [Unparsed] carries the
    message of the error thrown by [JSON.parse] or by the property reads of
    [convertResponse] on a value that is not an object. *)
Inductive Parsed :=
| Unparsed (message : string)
| ParsedAs (data : OpenAIResponse).

(** The body of a reply to the client. *)
Inductive ReplyBody :=
| RawBody (body : string)
| MessageBody (response : ClaudeResponse)
| ErrorBody (message : string).

Record HttpReply := {
  reply_status : nat;
  reply_body : ReplyBody;
}.

(** What the client receives for one POST to the messages endpoint. *)
Inductive ClientOutput :=
| JsonReply (reply : HttpReply)
| EventStream (events : list Event).

Section Gateway.

Context {rt : Builtins}.
Variable JSON_stringify : json -> string.
Variable JSON_parse : string -> option json.
Variable parseResponse : string -> Parsed.
Variable requestJson : RequestOptions -> Payload -> Outcome.
Variable requestStream : RequestOptions -> Payload -> StreamOutcome.

(** The loop over [responseContent], from block number [index] on. *)
Fixpoint blockEvents (index : nat) (content : list ReplyBlock) : list Event :=
  match content with
  | [] => []
  | RText text :: rest =>
      content_block_start index CbText
      :: content_block_delta index (TextDelta (Js.or_default text ""))
      :: content_block_stop index
      :: blockEvents (S index) rest
  | RToolUse id name input :: rest =>
      content_block_start index
        (CbToolUse (Js.or_default id "") (Js.or_default name ""))
      :: content_block_delta index
           (InputJsonDelta (JSON_stringify (Json.or_empty_object input)))
      :: content_block_stop index
      :: blockEvents (S index) rest
  end.

(** [response.stop_reason || 'end_turn']. *)
Definition orEndTurn (stop_reason : StopReason) : StopReason :=
  match stop_reason with
  | Reason text => Reason (Js.or_default text "end_turn")
  | Inherited key => Inherited key
  end.

(** The events written for a converted response. *)
Definition responseEvents (response : ClaudeResponse) : list Event :=
  (match cr_content response with
   | [] => [content_block_start 0 CbText; content_block_stop 0]
   | content => blockEvents 0 content
   end
   ++ [message_delta (orEndTurn (cr_stop_reason response))
         (cr_output_tokens response);
       message_stop])%list.

(** The events written after [message_start] for a settled dispatch;
    [fallbackId] is the [msg_${Date.now()}] of [convertResponse]. *)
Definition synthesizedEvents (fallbackId model : string) (result : DispatchResult)
    : list Event :=
  match result with
  | Returned statusCode body _ =>
      if negb (statusCode =? 200)%nat
      then writeError ("Error from Azure: " ++ body)
      else
        match parseResponse body with
        | ParsedAs data =>
            responseEvents (convertResponse JSON_parse fallbackId data model)
        | Unparsed message => writeError ("Error from Azure: " ++ message)
        end
  | Thrown message => writeError ("Error from Azure: " ++ message)
  end.

Definition handleStreamingFromNonStreaming (msgId fallbackId : string)
    (optionsList : list RequestOptions) (openaiReq : Payload) (model : string)
    : list Attempt * list Event :=
  let '(attempts, result) := requestWithFallback requestJson optionsList openaiReq in
  (attempts, message_start msgId model :: synthesizedEvents fallbackId model result).

(** The reply written for a settled dispatch. *)
Definition plainReply (fallbackId model : string) (result : DispatchResult)
    : HttpReply :=
  match result with
  | Returned statusCode body _ =>
      if negb (statusCode =? 200)%nat
      then {| reply_status := if (statusCode =? 0)%nat then 500 else statusCode;
              reply_body := RawBody body |}
      else
        match parseResponse body with
        | ParsedAs data =>
            {| reply_status := 200;
               reply_body :=
                 MessageBody (convertResponse JSON_parse fallbackId data model) |}
        | Unparsed message =>
            {| reply_status := 500; reply_body := ErrorBody message |}
        end
  | Thrown message => {| reply_status := 500; reply_body := ErrorBody message |}
  end.

Definition handleNonStreaming (fallbackId : string)
    (optionsList : list RequestOptions) (openaiReq : Payload) (model : string)
    : list Attempt * HttpReply :=
  let '(attempts, result) := requestWithFallback requestJson optionsList openaiReq in
  (attempts, plainReply fallbackId model result).

(** ** Gateway server: the translation entry point *)

(** The request options [createProxy] makes of a URL. *)
Definition optionsFor (azure : AzureConfig) (azureUrl : URL) : RequestOptions :=
  {| hostname := url_hostname azureUrl;
     path := url_pathname azureUrl ++ url_search azureUrl;
     api_key := apiKey azure |}.

(** The template strings that are handed to [new URL] as its input. *)
Definition chatCompletionsPath (azure : AzureConfig) (deployment : string) : string :=
  "/openai/deployments/" ++ deployment ++ "/chat/completions?api-version="
  ++ apiVersion azure.

Definition routerResponsesPath (version : string) : string :=
  "/openai/responses?api-version=" ++ version.

Definition deploymentResponsesPath (deployment version : string) : string :=
  "/openai/deployments/" ++ deployment ++ "/responses?api-version=" ++ version.

(** The loop of [buildResponsesUrls] over [versions], with the versions
    already seen; an error thrown by [new URL] ends it. *)
Fixpoint responsesUrls (azure : AzureConfig) (deployment : string)
    (versions seen : list string) : Try (list URL) :=
  match versions with
  | [] => Gave []
  | version :: rest =>
      if negb (Js.truthy version) || existsb (String.eqb version) seen
      then responsesUrls azure deployment rest seen
      else
        routed ←
          (if Js.truthy_str (router azure)
           then url ← newURL (routerResponsesPath version) (endpoint azure);
                Gave [url]
           else Gave []);
        url ← newURL (deploymentResponsesPath deployment version) (endpoint azure);
        later ← responsesUrls azure deployment rest (version :: seen);
        Gave (routed ++ url :: later)%list
  end.

Definition buildResponsesUrls (azure : AzureConfig) (deployment : string)
    : Try (list URL) :=
  responsesUrls azure deployment [apiVersion azure; "2025-04-01-preview"] [].

(** What [createProxy] settles before it builds the URLs. *)
Record Plan := {
  plan_deployment : string;
  plan_wantsStream : bool;
  plan_useResponsesAPI : bool;
  plan_openaiReq : Payload;
}.

Definition withStreamOff (payload : Payload) : Payload :=
  {| p_model := p_model payload;
     p_stream := false;
     p_input := p_input payload;
     p_messages := p_messages payload;
     p_max_output_tokens := p_max_output_tokens payload;
     p_max_completion_tokens := p_max_completion_tokens payload;
     p_temperature := p_temperature payload;
     p_tools := p_tools payload;
     p_reasoning := p_reasoning payload;
     p_reasoning_effort := p_reasoning_effort payload |}.

Definition planRequest (azure : AzureConfig) (claudeReq : ClaudeRequest) : Plan :=
  let originalModel := Js.or_str (req_model claudeReq) "" in
  let deployment := getDeployment originalModel azure in
  let wantsStream := default false (req_stream claudeReq) in
  let hasTools := hasToolUsage (default [] (req_messages claudeReq)) in
  let useResponsesAPI := shouldUseResponsesAPI azure && negb hasTools in
  let built := buildOpenAIRequest JSON_stringify claudeReq azure useResponsesAPI in
  let openaiReq := if useResponsesAPI then withStreamOff built else built in
  {| plan_deployment := deployment;
     plan_wantsStream := wantsStream;
     plan_useResponsesAPI := useResponsesAPI;
     plan_openaiReq := openaiReq |}.

(** [azureUrls]: the Responses URLs, with the chat-completions URL behind
    them when no router is configured, or the chat-completions URL alone. *)
Definition azureUrls (azure : AzureConfig) (deployment : string)
    (useResponsesAPI : bool) : Try (list URL) :=
  urls ←
    (if useResponsesAPI
     then buildResponsesUrls azure deployment
     else url ← newURL (chatCompletionsPath azure deployment) (endpoint azure);
          Gave [url]);
  if useResponsesAPI && negb (Js.truthy_str (router azure))
  then url ← newURL (chatCompletionsPath azure deployment) (endpoint azure);
       Gave (urls ++ [url])%list
  else Gave urls.

(** [reqOptionsList] for a plan. *)
Definition reqOptionsList (azure : AzureConfig) (p : Plan)
    : Try (list RequestOptions) :=
  urls ← azureUrls azure (plan_deployment p) (plan_useResponsesAPI p);
  Gave (map (optionsFor azure) urls).

(** The body of the request handler of [createProxy] for a parsed POST to
    the messages endpoint: the backend calls it makes and what it writes.
    [now] is the value of [msg_${Date.now()}].  An error thrown by
    [new URL] is caught by the handler's [catch], before any header is
    sent.  The native streaming branch takes [reqOptionsList[0]]; the list
    has exactly one entry there. *)
Definition serve (now : string) (azure : AzureConfig) (claudeReq : ClaudeRequest)
    : list Attempt * ClientOutput :=
  let p := planRequest azure claudeReq in
  let originalModel := Js.or_str (req_model claudeReq) "" in
  match reqOptionsList azure p with
  | Threw message =>
      ([], JsonReply {| reply_status := 500; reply_body := ErrorBody message |})
  | Gave optionsList =>
      if plan_wantsStream p
      then
        if plan_useResponsesAPI p
        then
          let '(attempts, events) :=
            handleStreamingFromNonStreaming now now optionsList
              (plan_openaiReq p) originalModel in
          (attempts, EventStream events)
        else
          match optionsList with
          | options :: _ =>
              ([{| a_options := options; a_payload := plan_openaiReq p |}],
               EventStream
                 (handleStreaming now originalModel
                    (requestStream options (plan_openaiReq p))))
          | [] => ([], EventStream [message_start now originalModel])
          end
      else
        let '(attempts, reply) :=
          handleNonStreaming now optionsList (plan_openaiReq p) originalModel in
        (attempts, JsonReply reply)
  end.

End Gateway.

(** ** The words of the specification, for comparison with the code *)

(** The capital of a small ASCII letter; any other character is its own. *)
Definition capital (c : ascii) : ascii :=
  let n := N_of_ascii c in
  if ((97 <=? n) && (n <=? 122))%N then ascii_of_N (n - 32) else c.

Definition isSmall (c : ascii) : bool :=
  let n := N_of_ascii c in ((97 <=? n) && (n <=? 122))%N.

(** [text] spells [word] letter by letter, each letter small or capital. *)
Fixpoint spells (word text : string) : bool :=
  match word, text with
  | EmptyString, EmptyString => true
  | String c word', String d text' =>
      (Ascii.eqb d c || Ascii.eqb d (capital c)) && spells word' text'
  | _, _ => false
  end.

(** The case-insensitive substring match: [name] contains [word] in some
    mix of small and capital letters. *)
Definition mentions (word name : string) : Prop :=
  exists pre hit post,
    name = (pre ++ hit ++ post)%string /\ spells word hit = true.

(** The message history holds a tool_use or a tool_result block. *)
Definition holdsToolBlock (history : list Message) : Prop :=
  exists msg blocks block,
    In msg history /\ msg_content msg = CBlocks blocks /\ In block blocks
    /\ ((exists tu, block = BToolUse tu) \/ (exists tr, block = BToolResult tr)).

(** A router is configured: the setting is there and is not empty. *)
Definition routerConfigured (azure : AzureConfig) : Prop :=
  exists r, router azure = Some r /\ r <> "".

(** The API versions of the Responses family: 2025-04-01 and 2024-08-01,
    with whatever follows the date. *)
Definition responsesFamily (version : string) : Prop :=
  exists rest,
    version = ("2025-04-01" ++ rest)%string
    \/ version = ("2024-08-01" ++ rest)%string.

(** The finish-indicator table as the specification words it. *)
Definition stopReasonTable (finish_reason : option string) : string :=
  match finish_reason with
  | Some r =>
      if String.eqb r "stop" then "end_turn"
      else if String.eqb r "length" then "max_tokens"
      else if String.eqb r "tool_calls" then "tool_use"
      else if String.eqb r "content_filter" then "end_turn"
      else "end_turn"
  | None => "end_turn"
  end.

(** The token limit a payload carries, under the field name of its shape. *)
Definition tokenLimit (useResponsesAPI : bool) (payload : Payload) : option Z :=
  if useResponsesAPI then p_max_output_tokens payload
  else p_max_completion_tokens payload.

(** The token limits an outbound payload carries, under either name. *)
Definition tokenLimits (payload : Payload) : list Z :=
  (match p_max_output_tokens payload with Some n => [n] | None => [] end
   ++ match p_max_completion_tokens payload with Some n => [n] | None => [] end)%list.

(** How the dispatcher's loop reads an outcome: [retries] says that a
    candidate which is not the last one is passed over (a 404, or a failed
    request); [settle] is the result built from the outcome it stops at. *)
Definition retries (outcome : Outcome) : bool :=
  match outcome with
  | Responded statusCode _ => (statusCode =? 404)%nat
  | Failed _ => true
  end.

Definition settle (options : RequestOptions) (outcome : Outcome) : DispatchResult :=
  match outcome with
  | Responded statusCode body => Returned statusCode body options
  | Failed err => Thrown err
  end.

Definition attemptOf (payload : Payload) (options : RequestOptions) : Attempt :=
  {| a_options := options; a_payload := adaptPayload options payload |}.

(** The outcome the backend gives candidate [options] for [payload], sent
    as the dispatcher adapts it. *)
Definition outcomeFor (requestJson : RequestOptions -> Payload -> Outcome)
    (payload : Payload) (options : RequestOptions) : Outcome :=
  requestJson options (adaptPayload options payload).

(** ** Observations on an event stream *)

Definition isBlockEvent (e : Event) : bool :=
  match e with
  | content_block_start _ _ | content_block_delta _ _ | content_block_stop _ => true
  | _ => false
  end.

(** The indices of the content_block_start events, in order. *)
Definition startIndices (events : list Event) : list nat :=
  flat_map (fun e => match e with content_block_start i _ => [i] | _ => [] end)
    events.

(** The indices of the content_block_stop events, in order. *)
Definition stopIndices (events : list Event) : list nat :=
  flat_map (fun e => match e with content_block_stop i => [i] | _ => [] end)
    events.

(** The indices that are open after an event: a start opens its index, a
    stop closes it. *)
Definition track (open : gset nat) (e : Event) : gset nat :=
  match e with
  | content_block_start i _ => {[i]} ∪ open
  | content_block_stop i => open ∖ {[i]}
  | _ => open
  end.

Definition openBlocks (events : list Event) : gset nat :=
  fold_left track events ∅.

(** Deltas and stops only address an index that is open when they are
    written: a start of that index came before, with no stop of it since. *)
Fixpoint disciplined (open : gset nat) (events : list Event) : Prop :=
  match events with
  | [] => True
  | e :: rest =>
      match e with
      | content_block_delta i _ | content_block_stop i => i ∈ open
      | _ => True
      end
      /\ disciplined (track open e) rest
  end.

(** The block lifecycle of the ordering invariant, one block at a time:
    a start needs every earlier block closed, a delta and a stop address
    the block that is open, and the stream ends with no block open. *)
Fixpoint lifecycle (open : option nat) (events : list Event) : bool :=
  match events with
  | [] => match open with None => true | Some _ => false end
  | content_block_start i _ :: rest =>
      match open with None => lifecycle (Some i) rest | Some _ => false end
  | content_block_delta i _ :: rest =>
      match open with
      | Some j => (i =? j)%nat && lifecycle open rest
      | None => false
      end
  | content_block_stop i :: rest =>
      match open with
      | Some j => (i =? j)%nat && lifecycle None rest
      | None => false
      end
  | _ :: rest => lifecycle open rest
  end.

Fixpoint increasing (indices : list nat) : bool :=
  match indices with
  | i :: ((j :: _) as rest) => (i <? j)%nat && increasing rest
  | _ => true
  end.

(** The stream is [message_start], block events, then [message_delta] and
    [message_stop] as its last two events. *)
Definition closesLast (events : list Event) : Prop :=
  exists id model body stop_reason tokens,
    events
    = (message_start id model :: body
       ++ [message_delta stop_reason tokens; message_stop])%list
    /\ forallb isBlockEvent body = true.

(** All of the ordering invariant, as the specification states it. *)
Definition wellOrdered (events : list Event) : Prop :=
  List.length (startIndices events) = List.length (stopIndices events)
  /\ increasing (startIndices events) = true
  /\ lifecycle None events = true
  /\ closesLast events.

(** The indices the state of the relay holds open. *)
Definition stateOpen (st : StreamState) : gset nat :=
  (if textBlockStarted st then {[currentBlockIndex st]} else ∅)
  ∪ list_to_set (toolBlocksStarted st).

(** How the relay's finish reason and token count evolve over the lines. *)
Definition reasonAfter (reason : string) (line : SseLine) : string :=
  match line with
  | Data data =>
      match default [] (ch_choices data) with
      | choice :: _ => nextFinishReason reason (cc_finish_reason choice)
      | [] => reason
      end
  | Skipped => reason
  end.

Definition tokensAfter (tokens : nat) (line : SseLine) : nat :=
  match line with
  | Data data =>
      match default [] (ch_choices data), ch_usage data with
      | _ :: _, Some usage => Js.or_nat (completion_tokens usage) tokens
      | _, _ => tokens
      end
  | Skipped => tokens
  end.

(** The delta of the first choice of a line, as [onChunk] reads it. *)
Definition lineDelta (line : SseLine) : Delta :=
  match line with
  | Data data =>
      match default [] (ch_choices data) with
      | choice :: _ => default emptyDelta (cc_delta choice)
      | [] => emptyDelta
      end
  | Skipped => emptyDelta
  end.

Definition carriesText (line : SseLine) : bool :=
  Js.truthy_str (d_content (lineDelta line)).

Definition namesTool (line : SseLine) : bool :=
  existsb (fun tc => Js.truthy_str (tcd_function tc ≫= fn_name))
    (default [] (d_tool_calls (lineDelta line))).

(** A backend stream in the usual order: text deltas first; the first
    chunk that carries tool calls names one of them; no text after it. *)
Fixpoint orderly (lines : list SseLine) : bool :=
  match lines with
  | [] => true
  | line :: rest =>
      match d_tool_calls (lineDelta line) with
      | None => orderly rest
      | Some _ => namesTool line && forallb (fun l => negb (carriesText l)) rest
      end
  end.

(** The state the one-block-at-a-time lifecycle is in after [events], from
    [open]; [None] when the events break it. *)
Fixpoint lifecycleFrom (open : option nat) (events : list Event)
    : option (option nat) :=
  match events with
  | [] => Some open
  | content_block_start i _ :: rest =>
      match open with None => lifecycleFrom (Some i) rest | Some _ => None end
  | content_block_delta i _ :: rest =>
      match open with
      | Some j => if (i =? j)%nat then lifecycleFrom open rest else None
      | None => None
      end
  | content_block_stop i :: rest =>
      match open with
      | Some j => if (i =? j)%nat then lifecycleFrom None rest else None
      | None => None
      end
  | _ :: rest => lifecycleFrom open rest
  end.

(** A backend stream with at most one tool call: every tool-call delta
    has index 0. *)
Definition singleTool (lines : list SseLine) : bool :=
  forallb
    (fun line =>
       forallb (fun tc => (Js.or_nat (tcd_index tc) 0 =? 0)%nat)
         (default [] (d_tool_calls (lineDelta line))))
    lines.

Definition noText (lines : list SseLine) : Prop :=
  forallb (fun l => negb (carriesText l)) lines = true.

(** The indices [onEnd] closes. *)
Definition closedAtEnd (st : StreamState) : list nat :=
  ((if textBlockStarted st
       && negb (hasIndex (currentBlockIndex st) (toolBlocksStarted st))
    then [currentBlockIndex st] else [])
   ++ toolBlocksStarted st)%list.

(** The empty text block [onEnd] writes when nothing is open. *)
Definition synthesizedAtEnd (st : StreamState) : list Event :=
  if negb (textBlockStarted st) && (List.length (toolBlocksStarted st) =? 0)%nat
  then [content_block_start 0 CbText; content_block_stop 0] else [].

Definition metaOf (st : StreamState) : string * nat :=
  (finishReason st, outputTokens st).

(** The finish reasons a backend stream reports, in order: the non-empty
    [finish_reason] of the first choice of every chunk that has a choice. *)
Definition finishReasons (lines : list SseLine) : list string :=
  flat_map
    (fun line =>
       match line with
       | Data data =>
           match default [] (ch_choices data) with
           | choice :: _ =>
               match cc_finish_reason choice with
               | Some r => if Js.truthy r then [r] else []
               | None => []
               end
           | [] => []
           end
       | Skipped => []
       end)
    lines.

(** The stop reason of the client protocol for the finish reason a stream
    ended on: tool_calls is tool_use, length is max_tokens, any other is
    end_turn, and so is a stream that reported none. *)
Definition streamStopReason (reported : option string) : string :=
  match reported with
  | Some r =>
      if String.eqb r "tool_calls" then "tool_use"
      else if String.eqb r "length" then "max_tokens"
      else "end_turn"
  | None => "end_turn"
  end.

(** The output-token counts a backend stream reports, in order: the
    non-zero [usage.completion_tokens] of every chunk that has a choice.
    The usage of a chunk without choices is not among them. *)
Definition reportedTokens (lines : list SseLine) : list nat :=
  flat_map
    (fun line =>
       match line with
       | Data data =>
           match default [] (ch_choices data), ch_usage data with
           | _ :: _, Some usage =>
               match completion_tokens usage with
               | Some (S n) => [S n]
               | _ => []
               end
           | _, _ => []
           end
       | Skipped => []
       end)
    lines.

(** A tool block starts among [events]. *)
Definition toolStarted (events : list Event) : bool :=
  existsb
    (fun e =>
       match e with
       | content_block_start _ (CbToolUse _ _) => true
       | _ => false
       end)
    events.

(** No content_block_stop is written once a tool block has started
    ([started] says whether one has, before [events]). *)
Fixpoint toolsStayOpen (started : bool) (events : list Event) : bool :=
  match events with
  | [] => true
  | content_block_start _ (CbToolUse _ _) :: rest => toolsStayOpen true rest
  | content_block_stop _ :: rest => negb started && toolsStayOpen started rest
  | _ :: rest => toolsStayOpen started rest
  end.

(** The relay has started a tool block. *)
Definition inToolPhase (st : StreamState) : bool :=
  negb (List.length (toolBlocksStarted st) =? 0)%nat.

(** A step of the relay from [st] writes no stop once a tool block has
    started, and it has started one afterwards when it had before or the
    step starts one. *)
Definition keepsOpen (st : StreamState) (step : StreamState * list Event) : Prop :=
  toolsStayOpen (inToolPhase st) (snd step) = true
  /\ inToolPhase (fst step) = inToolPhase st || toolStarted (snd step).

(** ** Invariants of the native relay *)

(** The relay's invariants that hold for every stream. *)
Record Relayed (st : StreamState) (events : list Event) : Prop := {
  rel_open : openBlocks events = stateOpen st;
  rel_nodup : NoDup (toolBlocksStarted st);
  rel_count :
    List.length (startIndices events)
    = (List.length (stopIndices events)
       + (if textBlockStarted st then 1 else 0)
       + List.length (toolBlocksStarted st))%nat;
  rel_disciplined : disciplined ∅ events;
  rel_blocks : forallb isBlockEvent events = true;
}.

(** While tool blocks are being relayed no text block is open, and no
    index has been started twice. *)
Record ToolsOnly (st : StreamState) (events : list Event) : Prop := {
  to_text : textBlockStarted st = false;
  to_nodup : NoDup (startIndices events);
  to_bound :
    forall i, i ∈ startIndices events ->
      (i < currentBlockIndex st)%nat \/ i ∈ toolBlocksStarted st;
}.

(** The two phases of an orderly stream. *)
Inductive Phase (st : StreamState) (events : list Event) (lines : list SseLine)
    : Prop :=
| TextPhase :
    toolBlocksStarted st = [] ->
    currentBlockIndex st = 0 ->
    startIndices events = (if textBlockStarted st then [0] else []) ->
    orderly lines = true ->
    Phase st events lines
| ToolPhase :
    toolBlocksStarted st <> [] ->
    ToolsOnly st events ->
    noText lines ->
    Phase st events lines.

(** What the relay has written while it handles one tool call at most:
    [block] is the block that is open. *)
Record OneBlock (st : StreamState) (events : list Event) (block : option nat)
    : Prop := {
  ob_text : textBlockStarted st = false;
  ob_tools :
    toolBlocksStarted st
    = match block with Some b => [b] | None => [] end;
  ob_block : forall b, block = Some b -> b = currentBlockIndex st;
  ob_starts :
    startIndices events
    = seq 0 (currentBlockIndex st + match block with Some _ => 1 | None => 0 end);
  ob_life : lifecycleFrom None events = Some block;
}.

(** The two phases of an orderly stream with one tool call. *)
Inductive Phase1 (st : StreamState) (events : list Event) (lines : list SseLine)
    : Prop :=
| TextPhase1 :
    toolBlocksStarted st = [] ->
    currentBlockIndex st = 0 ->
    startIndices events = (if textBlockStarted st then [0] else []) ->
    lifecycleFrom None events
    = Some (if textBlockStarted st then Some 0 else None) ->
    orderly lines = true ->
    Phase1 st events lines
| ToolPhase1 (b : nat) :
    OneBlock st events (Some b) ->
    noText lines ->
    Phase1 st events lines.

(** ** Tool invocations, before and after the translation *)

(** The tool_use blocks of an assistant message with block content. *)
Definition assistantToolUses (msg : Message) : list ToolUse :=
  match msg_content msg with
  | CBlocks blocks =>
      if String.eqb (Js.or_str (msg_role msg) "user") "assistant"
      then flat_map (fun b => match b with BToolUse tu => [tu] | _ => [] end) blocks
      else []
  | _ => []
  end.

(** A synthetic backend reply that carries the content and the tool calls
    of a forwarded entry back, in the choices layout. *)
Definition replyCarrying (entry : OaiMessage) : OpenAIResponse :=
  {| r_id := None;
     r_choices :=
       Some [{| c_message :=
                  Some {| m_content :=
                            match o_content entry with
                            | OString s => Some s
                            | _ => None
                            end;
                          m_tool_calls := o_tool_calls entry |};
                c_finish_reason := Some "tool_calls" |}];
     r_usage := None;
     r_output_text := None;
     r_output := None |}.

(** The tool invocations among the content blocks of a client reply. *)
Definition toolUsesOf (content : list ReplyBlock) : list ToolUse :=
  flat_map
    (fun b =>
       match b with
       | RToolUse id name input =>
           [{| tu_id := id; tu_name := name; tu_input := input |}]
       | RText _ => []
       end)
    content.

(** The invocations a forwarded entry brings back: a synthetic reply that
    carries it, reverse-translated. *)
Definition broughtBack (JSON_parse : string -> option json)
    (fallbackId model : string) (entry : OaiMessage) : list ToolUse :=
  toolUsesOf
    (cr_content (convertResponse JSON_parse fallbackId (replyCarrying entry) model)).

(** Forward translation to the native shape, then reverse translation of a
    synthetic reply per forwarded entry: the invocations that come back. *)
Definition recoveredToolUses {rt : Builtins} (JSON_stringify : json -> string)
    (JSON_parse : string -> option json) (fallbackId model : string)
    (messages : list Message) (system : option SystemPrompt) : list ToolUse :=
  flat_map (broughtBack JSON_parse fallbackId model)
    (convertMessages JSON_stringify messages system false).

(** The runtime's JSON reads back what it wrote for [v]. *)
Definition roundTrips (JSON_stringify : json -> string)
    (JSON_parse : string -> option json) (v : json) : Prop :=
  JSON_stringify v <> "" /\ JSON_parse (JSON_stringify v) = Some v.

(** ** Concrete requests and backends for the examples *)

Module Sample.

(** A stand-in for the URL parser on the URLs of the examples: the base is
    [https://] and a host name, the input is a path with a query, and
    nothing needs normalising. *)
Fixpoint untilQuery (s : string) : string * string :=
  match s with
  | EmptyString => ("", "")
  | String c rest =>
      if Ascii.eqb c "?"%char then ("", s)
      else let '(pathname, search) := untilQuery rest in (String c pathname, search)
  end.

Definition plainURL (input base : string) : Try URL :=
  if Js.startsWith base "https://"
  then
    let '(pathname, search) := untilQuery input in
    Gave {| url_hostname := String.substring 8 (String.length base - 8) base;
            url_pathname := pathname;
            url_search := search |}
  else Threw "Invalid URL".

(** The runtime on ASCII text: chunks that are text already, the ASCII
    case mapping and white space, and [plainURL]. *)
Definition node : Builtins :=
  {| Buffer := string;
     toString := fun chunk => chunk;
     toLowerCase := Js.lowerAscii;
     trim := Js.trimAscii;
     newURL := plainURL;
     toLowerCase_truthy :=
       fun s => match s with EmptyString => eq_refl | String _ _ => eq_refl end;
     toLowerCase_ascii := fun _ _ => eq_refl |}.

Definition azure : AzureConfig :=
  {| endpoint := "https://example.openai.azure.com"; apiKey := "k";
     apiVersion := "2025-04-01-preview";
     deployments := {| opus := Some "gpt-4o"; sonnet := Some "gpt-4o";
                       haiku := Some "gpt-4o-mini" |};
     router := None; reasoningEffort := None; reasoningModel := None |}.

Definition routed : AzureConfig :=
  {| endpoint := "https://example.openai.azure.com"; apiKey := "k";
     apiVersion := "2024-06-01";
     deployments := {| opus := None; sonnet := None; haiku := None |};
     router := Some "model-router"; reasoningEffort := None;
     reasoningModel := None |}.

Definition hello : ClaudeRequest :=
  {| req_model := Some "claude-sonnet-4";
     req_messages :=
       Some [{| msg_role := Some "user"; msg_content := CString "hi" |}];
     req_system := None; req_max_tokens := Some 8000%Z;
     req_temperature := None; req_tools := None; req_stream := Some true |}.

Definition candidate (p : string) : RequestOptions :=
  {| hostname := "example.openai.azure.com"; path := p; api_key := "k" |}.

Definition payload : Payload :=
  buildOpenAIRequest (rt := node) JsonText.stringify hello azure true.

(** A backend whose first route is down, whose second route is missing and
    whose third route rejects the request. *)
Definition flaky (options : RequestOptions) (_ : Payload) : Outcome :=
  if String.eqb (path options) "/a" then Failed "ECONNRESET"
  else if String.eqb (path options) "/b" then Responded 404 "not found"
  else if String.eqb (path options) "/c" then Responded 429 "slow down"
  else Responded 200 "ok".



Definition noReply (_ : string) : Parsed := Unparsed "unused".

Definition toolDelta (index : nat) (id name arguments : option string) : SseLine :=
  Data
    {| ch_choices :=
         Some [{| cc_delta :=
                    Some {| d_content := None;
                            d_tool_calls :=
                              Some [{| tcd_index := Some index; tcd_id := id;
                                       tcd_function :=
                                         Some {| fn_name := name;
                                                 fn_arguments := arguments |} |}] |};
                  cc_finish_reason := None |}];
       ch_usage := None |}.

Definition textDelta (text : string) : SseLine :=
  Data
    {| ch_choices :=
         Some [{| cc_delta := Some {| d_content := Some text;
                                      d_tool_calls := None |};
                  cc_finish_reason := None |}];
       ch_usage := None |}.

Definition finished (reason : string) : SseLine :=
  Data
    {| ch_choices := Some [{| cc_delta := None; cc_finish_reason := Some reason |}];
       ch_usage := None |}.

(** Two tool calls in one reply, as the backend streams them. *)
Definition parallelTools : list SseLine :=
  [toolDelta 0 (Some "call_a") (Some "read") None;
   toolDelta 0 None None (Some "{}");
   toolDelta 1 (Some "call_b") (Some "list") None;
   toolDelta 1 None None (Some "{}");
   finished "tool_calls"].

(** A tool call followed by text. *)
Definition textAfterTool : list SseLine :=
  [toolDelta 0 (Some "call_a") (Some "read") (Some "{}");
   textDelta "done";
   finished "stop"].

(** Text, then the usage of the reply on a chunk of its own, without
    choices. *)
Definition usageAtEnd : list SseLine :=
  [textDelta "hi";
   finished "stop";
   Data {| ch_choices := Some [];
           ch_usage := Some {| prompt_tokens := Some 12;
                               completion_tokens := Some 42;
                               input_tokens := None;
                               output_tokens := None |} |}].

(** Text, then one tool call. *)
Definition textThenTool : list SseLine :=
  [textDelta "Let me look.";
   toolDelta 0 (Some "call_a") (Some "read") None;
   toolDelta 0 None None (Some "{}");
   finished "tool_calls"].

(** A history with one tool invocation and its outcome. *)
Definition readFile : ToolUse :=
  {| tu_id := "toolu_1"; tu_name := "read_file";
     tu_input := JObj [("path", JStr "/tmp/x"); ("lines", JNum 3)] |}.

Definition toolHistory : list Message :=
  [{| msg_role := Some "user"; msg_content := CString "read /tmp/x" |};
   {| msg_role := Some "assistant";
      msg_content := CBlocks [BText (Some "Reading."); BToolUse readFile] |};
   {| msg_role := Some "user";
      msg_content :=
        CBlocks [BToolResult {| tr_tool_use_id := Some "toolu_1";
                                tr_content := Some (RcString "hello");
                                tr_is_error := false |}] |}].

End Sample.

(** ** The line reader of the native relay

    The ['data'] handler of [handleStreaming] appends each chunk of the
    backend response to [buffer], splits the buffer at line feeds, keeps
    the last piece as the new buffer and reads the other pieces as lines. *)

(** [s.split('\n')]: the pieces of [s] between line feeds; at least one. *)
Fixpoint splitLines (s : string) : list string :=
  match s with
  | EmptyString => [""]
  | String c rest =>
      if Ascii.eqb c (ascii_of_nat 10) then "" :: splitLines rest
      else
        match splitLines rest with
        | first :: others => String c first :: others
        | [] => [String c ""]
        end
  end.

(** [s.slice(n)] *)
Fixpoint slice (n : nat) (s : string) : string :=
  match n, s with
  | 0, _ => s
  | S n', String _ rest => slice n' rest
  | S _, EmptyString => EmptyString
  end.

Section LineReader.

Context {rt : Builtins}.

(** [JSON.parse(dataStr)] read at the chunk type; [None] where the parse,
    or a property read in the [try] block, throws. *)
Variable parseChunk : string -> option Chunk.

(** The head of the loop body: what a line is taken for. *)
Definition readLine (line : string) : SseLine :=
  if negb (Js.startsWith line "data: ") then Skipped
  else
    let dataStr := trim (slice 6 line) in
    if String.eqb dataStr "[DONE]" then Skipped
    else
      match parseChunk dataStr with
      | Some data => Data data
      | None => Skipped
      end.

(** [buffer += chunk.toString(); lines = buffer.split('\n');
    buffer = lines.pop() || '']: the new buffer and the complete lines.
    Each chunk is decoded on its own. *)
Definition onData (buffer : string) (chunk : Buffer) : string * list string :=
  let lines := splitLines (buffer ++ toString chunk) in
  (List.last lines "", removelast lines).

(** The ['data'] handler over the chunks of a response, in arrival order. *)
Fixpoint onDataChunks (buffer : string) (st : StreamState) (chunks : list Buffer)
    : StreamState * list Event :=
  match chunks with
  | [] => (st, [])
  | chunk :: rest =>
      let '(buffer1, lines) := onData buffer chunk in
      let '(st1, events1) := onLines st (map readLine lines) in
      let '(st2, events2) := onDataChunks buffer1 st1 rest in
      (st2, (events1 ++ events2)%list)
  end.

End LineReader.

(** The text of the chunks of a response, decoded one by one. *)
Definition textOfChunks {rt : Builtins} (chunks : list Buffer) : string :=
  fold_right (fun chunk text => toString chunk ++ text) "" chunks.

(** The lines of a text that a line feed ends. *)
Definition completeLines (text : string) : list string :=
  removelast (splitLines text).

Fixpoint hasLineFeed (s : string) : bool :=
  match s with
  | EmptyString => false
  | String c rest => Ascii.eqb c (ascii_of_nat 10) || hasLineFeed rest
  end.

(** ** The request router of [createProxy] *)

Inductive Route :=
| Preflight
| Health
| Acknowledged
| NotFound
| Messages.

(** [req.url?.includes(needle)] *)
Definition urlIncludes (url : option string) (needle : string) : bool :=
  match url with
  | Some u => Js.includes u needle
  | None => false
  end.

(** The tests at the head of the request handler, in their order. *)
Definition route (method : string) (url : option string) : Route :=
  if String.eqb method "OPTIONS" then Preflight
  else if match url with Some u => String.eqb u "/health" | None => false end
  then Health
  else if urlIncludes url "auth" || urlIncludes url "token"
          || urlIncludes url "telemetry" || urlIncludes url "event_logging"
  then Acknowledged
  else if negb (String.eqb method "POST") || negb (urlIncludes url "/messages")
  then NotFound
  else Messages.

(** [JSON.parse(body)] read at the request type; [BadRequest] carries the
    message of the error it throws. *)
Inductive ParsedRequest :=
| BadRequest (message : string)
| GoodRequest (claudeReq : ClaudeRequest).

Section Server.

Context {rt : Builtins}.
Variable JSON_stringify : json -> string.
Variable JSON_parse : string -> option json.
Variable parseResponse : string -> Parsed.
Variable parseRequest : string -> ParsedRequest.
Variable requestJson : RequestOptions -> Payload -> Outcome.
Variable requestStream : RequestOptions -> Payload -> StreamOutcome.

Definition jsonReply (status : nat) (data : json) : ClientOutput :=
  JsonReply {| reply_status := status; reply_body := RawBody (JSON_stringify data) |}.

(** The request handler of [createProxy]: the backend calls made for one
    request and what the client receives, by status and body (the
    response headers are left out).  [now] is the value of
    [msg_${Date.now()}]; an absent [req.url] prints as [undefined]. *)
Definition createProxy (now : string) (azure : AzureConfig)
    (method : string) (url : option string) (body : string)
    : list Attempt * ClientOutput :=
  match route method url with
  | Preflight =>
      ([], JsonReply {| reply_status := 204; reply_body := RawBody "" |})
  | Health =>
      ([], jsonReply 200 (JObj [("status", JStr "ok"); ("provider", JStr "azure")]))
  | Acknowledged => ([], jsonReply 200 (JObj [("status", JStr "ok")]))
  | NotFound =>
      ([], jsonReply 404
             (JObj [("error", JStr ("Not found: " ++ default "undefined" url))]))
  | Messages =>
      match parseRequest body with
      | GoodRequest claudeReq =>
          serve JSON_stringify JSON_parse parseResponse requestJson requestStream
            now azure claudeReq
      | BadRequest message =>
          ([], JsonReply {| reply_status := 500; reply_body := ErrorBody message |})
      end
  end.

End Server.

(** ** The wire form of the client stream *)

Definition eventName (e : Event) : string :=
  match e with
  | message_start _ _ => "message_start"
  | content_block_start _ _ => "content_block_start"
  | content_block_delta _ _ => "content_block_delta"
  | content_block_stop _ => "content_block_stop"
  | message_delta _ _ => "message_delta"
  | message_stop => "message_stop"
  end.

Definition jsonNat (n : nat) : json := JNum (Z.of_nat n).

(** The [stop_reason] property as [JSON.stringify] reads it: a string is
    written as it is, a property whose value is a function is left out,
    and [Object.prototype], which has no enumerable property of its own,
    is written as an empty object. *)
Definition stopReasonField (stop_reason : StopReason) : list (string * json) :=
  match stop_reason with
  | Reason text => [("stop_reason", JStr text)]
  | Inherited key =>
      if String.eqb key "__proto__" then [("stop_reason", JObj [])] else []
  end.

(** The object literal that each [res.write(sseEvent(...))] passes. *)
Definition eventData (e : Event) : json :=
  match e with
  | message_start id model =>
      JObj [("type", JStr "message_start");
            ("message",
             JObj [("id", JStr id); ("type", JStr "message");
                   ("role", JStr "assistant"); ("content", JArr []);
                   ("model", JStr model); ("stop_reason", JNull);
                   ("stop_sequence", JNull);
                   ("usage", JObj [("input_tokens", JNum 0);
                                   ("output_tokens", JNum 0)])])]
  | content_block_start index CbText =>
      JObj [("type", JStr "content_block_start"); ("index", jsonNat index);
            ("content_block", JObj [("type", JStr "text"); ("text", JStr "")])]
  | content_block_start index (CbToolUse id name) =>
      JObj [("type", JStr "content_block_start"); ("index", jsonNat index);
            ("content_block",
             JObj [("type", JStr "tool_use"); ("id", JStr id);
                   ("name", JStr name); ("input", JObj [])])]
  | content_block_delta index (TextDelta text) =>
      JObj [("type", JStr "content_block_delta"); ("index", jsonNat index);
            ("delta", JObj [("type", JStr "text_delta"); ("text", JStr text)])]
  | content_block_delta index (InputJsonDelta partial_json) =>
      JObj [("type", JStr "content_block_delta"); ("index", jsonNat index);
            ("delta", JObj [("type", JStr "input_json_delta");
                            ("partial_json", JStr partial_json)])]
  | content_block_stop index =>
      JObj [("type", JStr "content_block_stop"); ("index", jsonNat index)]
  | message_delta stop_reason tokens =>
      JObj [("type", JStr "message_delta");
            ("delta", JObj (stopReasonField stop_reason
                            ++ [("stop_sequence", JNull)])%list);
            ("usage", JObj [("output_tokens", jsonNat tokens)])]
  | message_stop => JObj [("type", JStr "message_stop")]
  end.

Section Wire.

Variable JSON_stringify : json -> string.

(** [sseEvent]: one server-sent event, an event line, a data line and a
    blank line. *)
Definition sseEvent (event : string) (data : json) : string :=
  "event: " ++ event ++ Js.newline ++ "data: " ++ JSON_stringify data
  ++ Js.newline ++ Js.newline.

(** The text that the writes of a stream put on the wire. *)
Definition written (events : list Event) : string :=
  fold_right (fun e rest => sseEvent (eventName e) (eventData e) ++ rest) ""
    events.

(** The lines of one event on the wire. *)
Definition frameLines (e : Event) : list string :=
  ["event: " ++ eventName e; "data: " ++ JSON_stringify (eventData e); ""].

End Wire.

(** ** Observations on the candidate list *)

(** The inputs of [new URL] for one API version: the router endpoint, if a
    router is configured, then the deployment endpoint. *)
Definition versionPaths (azure : AzureConfig) (deployment version : string)
    : list string :=
  ((if Js.truthy_str (router azure) then [routerResponsesPath version] else [])
   ++ [deploymentResponsesPath deployment version])%list.

(** The inputs of [new URL] in [buildResponsesUrls]: those of the
    configured version, unless it is empty, then those of the preview
    version, unless it is the configured one. *)
Definition responsesInputs (azure : AzureConfig) (deployment : string)
    : list string :=
  ((if Js.truthy (apiVersion azure)
    then versionPaths azure deployment (apiVersion azure) else [])
   ++ (if String.eqb (apiVersion azure) "2025-04-01-preview" then []
       else versionPaths azure deployment "2025-04-01-preview"))%list.

(** The inputs of [new URL] for a whole request. *)
Definition candidateInputs (azure : AzureConfig) (deployment : string)
    (useResponsesAPI : bool) : list string :=
  if useResponsesAPI
  then
    if Js.truthy_str (router azure) then responsesInputs azure deployment
    else (responsesInputs azure deployment
          ++ [chatCompletionsPath azure deployment])%list
  else [chatCompletionsPath azure deployment].

(** [new URL(input, base)] for each input in turn, up to the first that
    throws. *)
Fixpoint construct {rt : Builtins} (base : string) (inputs : list string)
    : Try (list URL) :=
  match inputs with
  | [] => Gave []
  | input :: rest =>
      url ← newURL input base;
      urls ← construct base rest;
      Gave (url :: urls)
  end.

(** ** Observations on a forwarded history *)

Definition isToolUse (b : Block) : bool :=
  match b with
  | BToolUse _ => true
  | _ => false
  end.

(** The identifiers of the tool_result blocks of a block list, as the
    translator reads them ([result.tool_use_id || '']). *)
Definition resultIds (blocks : list Block) : list string :=
  flat_map
    (fun b =>
       match b with
       | BToolResult tr => [Js.or_str (tr_tool_use_id tr) ""]
       | _ => []
       end)
    blocks.

(** An assistant message that carries tool_use blocks. *)
Definition callsTools (msg : Message) : bool :=
  match msg_content msg with
  | CBlocks blocks =>
      String.eqb (Js.or_str (msg_role msg) "user") "assistant"
      && existsb isToolUse blocks
  | _ => false
  end.

(** The entries of a forwarded history that answer a tool call: role and
    [tool_call_id] of every entry that has one. *)
Definition toolAnswers (entries : list OaiMessage) : list (string * string) :=
  flat_map
    (fun m =>
       match o_tool_call_id m with
       | Some id => [(o_role m, id)]
       | None => []
       end)
    entries.

(** A message without its tool_use blocks. *)
Definition withoutToolUse (blocks : list Block) : list Block :=
  List.filter (fun b => negb (isToolUse b)) blocks.

(** ** Observations on a reply *)

Definition isTextBlock (b : ReplyBlock) : bool :=
  match b with
  | RText _ => true
  | RToolUse _ _ _ => false
  end.

(** The three stop reasons of the client protocol that the proxy uses. *)
Definition knownStopReason (reason : StopReason) : bool :=
  match reason with
  | Reason text =>
      String.eqb text "end_turn" || String.eqb text "max_tokens"
      || String.eqb text "tool_use"
  | Inherited _ => false
  end.

(** One of the three, or what the table answers for the name of an
    inherited property. *)
Definition knownOrInherited (reason : StopReason) : bool :=
  match reason with
  | Reason _ => knownStopReason reason
  | Inherited key => Js.inherited key
  end.

(** The finish reason that [convertResponse] reads: that of the first
    choice, when the reply has choices. *)
Definition firstFinishReason (openaiRes : OpenAIResponse) : option string :=
  head (default [] (r_choices openaiRes)) ≫= c_finish_reason.

(** The stop reasons a client output announces. *)
Definition stopReasons (events : list Event) : list StopReason :=
  flat_map (fun e => match e with message_delta r _ => [r] | _ => [] end) events.

Definition announcedReasons (output : ClientOutput) : list StopReason :=
  match output with
  | EventStream events => stopReasons events
  | JsonReply reply =>
      match reply_body reply with
      | MessageBody response => [cr_stop_reason response]
      | _ => []
      end
  end.

(** ** Observations on what a stream carries *)

(** The text a client assembles from the text deltas of a stream. *)
Fixpoint textOf (events : list Event) : string :=
  match events with
  | [] => ""
  | content_block_delta _ (TextDelta text) :: rest => text ++ textOf rest
  | _ :: rest => textOf rest
  end.

(** The text the backend streamed: the [delta.content] of the first choice
    of every line, in order. *)
Fixpoint contentOf (lines : list SseLine) : string :=
  match lines with
  | [] => ""
  | line :: rest => Js.or_str (d_content (lineDelta line)) "" ++ contentOf rest
  end.

(** The deltas of a stream with the index they address. *)
Definition deltasOf (events : list Event) : list (nat * BlockDelta) :=
  flat_map
    (fun e => match e with content_block_delta i d => [(i, d)] | _ => [] end)
    events.

(** The delta the synthesized stream writes for a content block. *)
Definition deltaOfBlock (JSON_stringify : json -> string) (block : ReplyBlock)
    : BlockDelta :=
  match block with
  | RText text => TextDelta text
  | RToolUse _ _ input => InputJsonDelta (JSON_stringify (Json.or_empty_object input))
  end.

Definition isMessageStart (e : Event) : bool :=
  match e with
  | message_start _ _ => true
  | _ => false
  end.

Definition messageStops (events : list Event) : nat :=
  List.length
    (List.filter (fun e => match e with message_stop => true | _ => false end)
       events).

(** The backend response was read to its end: its ['end'] event came. *)
Definition completed (outcome : StreamOutcome) : bool :=
  match outcome with
  | StreamResponse _ _ _ ended => ended
  | StreamFailed _ => false
  end.

(** ** Tool-call arguments, as streamed and as relayed *)

(** The argument text a client assembles for block [i]: its
    input_json deltas, in order. *)
Fixpoint jsonAt (i : nat) (events : list Event) : string :=
  match events with
  | [] => ""
  | content_block_delta j (InputJsonDelta partial_json) :: rest =>
      if (j =? i)%nat then partial_json ++ jsonAt i rest else jsonAt i rest
  | _ :: rest => jsonAt i rest
  end.

(** The tool-call deltas of a backend stream, in order. *)
Definition toolDeltas (lines : list SseLine) : list ToolCallDelta :=
  flat_map (fun line => default [] (d_tool_calls (lineDelta line))) lines.

(** The argument text the backend streamed for tool call [k]. *)
Fixpoint argumentsFor (k : nat) (deltas : list ToolCallDelta) : string :=
  match deltas with
  | [] => ""
  | tc :: rest =>
      (if (Js.or_nat (tcd_index tc) 0 =? k)%nat
       then Js.or_str (tcd_function tc ≫= fn_arguments) ""
       else "")
      ++ argumentsFor k rest
  end.

(** The tool calls that have been named after one more delta. *)
Definition namedAfter (named : list nat) (tc : ToolCallDelta) : list nat :=
  if Js.truthy_str (tcd_function tc ≫= fn_name)
  then Js.or_nat (tcd_index tc) 0 :: named
  else named.

(** Every fragment of arguments comes with the name of its tool call or
    after it, as the Chat Completions stream sends them. *)
Fixpoint namedFirst (named : list nat) (deltas : list ToolCallDelta) : bool :=
  match deltas with
  | [] => true
  | tc :: rest =>
      (negb (Js.truthy_str (tcd_function tc ≫= fn_arguments))
       || hasIndex (Js.or_nat (tcd_index tc) 0) (namedAfter named tc))
      && namedFirst (namedAfter named tc) rest
  end.

Definition argsOf (entry : option ToolCallAcc) : string :=
  match entry with
  | Some toolCall => acc_arguments toolCall
  | None => ""
  end.

Definition nameOf (entry : option ToolCallAcc) : string :=
  match entry with
  | Some toolCall => acc_name toolCall
  | None => ""
  end.

(** What the relay has done with the tool-call deltas [consumed], of which
    [named] are the named calls: the arguments it keeps and the arguments
    it has written are the arguments streamed. *)
Record Faithful (st : StreamState) (events : list Event) (named : list nat)
    (consumed : list ToolCallDelta) : Prop := {
  fa_closed :
    forall i, hasIndex i (toolBlocksStarted st) = false -> jsonAt i events = "";
  fa_relayed :
    forall k, jsonAt (currentBlockIndex st + k) events = argumentsFor k consumed;
  fa_kept : forall k, argsOf (toolCalls st !! k) = argumentsFor k consumed;
  fa_named :
    forall k, hasIndex k named = true ->
      Js.truthy (nameOf (toolCalls st !! k)) = true;
}.

(** ** Concrete inputs for the further properties *)

Module Scenario.

(** The blocks of a user message that quotes a tool call. *)
Definition quoted : list Block :=
  [BText (Some "as above"); BToolUse Sample.readFile].

(** A Responses reply whose usage carries the OpenAI names. *)
Definition counted : OpenAIResponse :=
  {| r_id := Some "resp_1"; r_choices := None;
     r_usage := Some {| prompt_tokens := Some 12; completion_tokens := Some 34;
                        input_tokens := None; output_tokens := None |};
     r_output_text := Some "ok"; r_output := None |}.

(** A response text and a last line that no line feed ends. *)
Definition received : string :=
  "data: {}" ++ Js.newline ++ Js.newline.

Definition cut : string := "data: [DO".

Definition noChunk (_ : string) : option Chunk := None.

(** What the client is sent when the backend rejects a streamed request. *)
Definition refused : list Event :=
  message_start "msg_1" "claude-sonnet-4"
  :: writeError "Error from Azure: quota exceeded".

End Scenario.

(** * Properties *)

(** ** String helpers *)

Lemma or_default_empty s : Js.or_default s "" = s.
Proof.
  unfold Js.or_default, Js.truthy.
  destruct (String.eqb_spec s ""); simpl; congruence.
Qed.

Lemma truthy_true s : Js.truthy s = true <-> s <> "".
Proof.
  unfold Js.truthy. destruct (String.eqb_spec s ""); simpl; split; congruence.
Qed.

Lemma truthy_false s : Js.truthy s = false <-> s = "".
Proof.
  unfold Js.truthy. destruct (String.eqb_spec s ""); simpl; split; congruence.
Qed.

Lemma append_cons (c : ascii) (s t : string) :
  (String c s ++ t)%string = String c (s ++ t)%string.
Proof. reflexivity. Qed.

Lemma append_nil (t : string) : (EmptyString ++ t)%string = t.
Proof. reflexivity. Qed.

Lemma prefix_append (p s : string) :
  String.prefix p s = true <-> exists post, s = (p ++ post)%string.
Proof.
  revert s. induction p as [|c p IH]; intros s; simpl.
  - destruct s; split; eauto.
  - destruct s as [|d s].
    + split; [discriminate | intros [post H]; discriminate].
    + simpl. destruct (Ascii.ascii_dec c d) as [->|Hne].
      * rewrite IH. split; intros [post H]; exists post;
          rewrite append_cons in *; congruence.
      * split; [discriminate |].
        intros [post H]. rewrite append_cons in H. congruence.
Qed.

(** [includes] is the substring test. *)
Lemma includes_spec (s needle : string) :
  Js.includes s needle = true <->
  exists pre post, s = (pre ++ needle ++ post)%string.
Proof.
  induction s as [|c s IH]; cbn [Js.includes].
  - rewrite orb_false_r, prefix_append. split.
    + intros [post H]. exists EmptyString, post. exact H.
    + intros (pre & post & H). destruct pre as [|d pre].
      * rewrite append_nil in H. eauto.
      * rewrite append_cons in H. discriminate.
  - rewrite orb_true_iff, IH, prefix_append. split.
    + intros [[post H] | (pre & post & H)].
      * exists EmptyString, post. exact H.
      * exists (String c pre), post. rewrite append_cons. congruence.
    + intros (pre & post & H). destruct pre as [|d pre].
      * left. rewrite append_nil in H. eauto.
      * right. exists pre, post. rewrite append_cons in H. congruence.
Qed.

(** ** C7: deployment selection *)

Lemma lower_ascii_small (c d : ascii) :
  isSmall c = true ->
  Js.lower_ascii d = c <-> d = c \/ d = capital c.
Proof.
  unfold isSmall, capital, Js.lower_ascii. intros Hc. rewrite Hc.
  apply andb_true_iff in Hc as [Hlo Hhi].
  apply N.leb_le in Hlo, Hhi.
  pose proof (N_ascii_bounded d) as Hd.
  destruct ((65 <=? N_of_ascii d) && (N_of_ascii d <=? 90))%N eqn:Ed.
  - apply andb_true_iff in Ed as [H1 H2]. apply N.leb_le in H1, H2. split.
    + intros H. right. apply (f_equal N_of_ascii) in H.
      rewrite N_ascii_embedding in H by lia.
      rewrite <- (ascii_N_embedding d). f_equal. lia.
    + intros [-> | ->]; [lia |].
      rewrite N_ascii_embedding in H1, H2 |- * by lia.
      replace (N_of_ascii c - 32 + 32)%N with (N_of_ascii c) by lia.
      apply ascii_N_embedding.
  - split; [auto |]. intros [-> | ->]; [reflexivity |].
    rewrite N_ascii_embedding in Ed by lia.
    apply andb_false_iff in Ed as [E | E]; apply N.leb_gt in E; lia.
Qed.

Lemma lowerAscii_spells (word text : string) :
  (forall c, In c (list_ascii_of_string word) -> isSmall c = true) ->
  Js.lowerAscii text = word <-> spells word text = true.
Proof.
  revert text. induction word as [|c word IH]; intros text Hsmall.
  - destruct text; simpl; split; congruence.
  - destruct text as [|d text]; simpl; [split; congruence |].
    rewrite andb_true_iff, orb_true_iff, !Ascii.eqb_eq,
      <- (IH text) by (intros x Hx; apply Hsmall; now right).
    rewrite <- (lower_ascii_small c d) by (apply Hsmall; now left).
    split; [intros H; inversion H; auto | intros [-> ->]; reflexivity].
Qed.

Lemma lowerAscii_app (a b : string) :
  Js.lowerAscii (a ++ b) = Js.lowerAscii a ++ Js.lowerAscii b.
Proof.
  induction a as [|c a IH]; [reflexivity |].
  rewrite append_cons. simpl. now rewrite IH.
Qed.

Lemma lowerAscii_split (s a b : string) :
  Js.lowerAscii s = a ++ b ->
  exists s1 s2, s = s1 ++ s2 /\ Js.lowerAscii s1 = a /\ Js.lowerAscii s2 = b.
Proof.
  revert s. induction a as [|c a IH]; intros s H.
  - exists "", s. auto.
  - destruct s as [|d s]; [discriminate |].
    rewrite append_cons in H. simpl in H. inversion H as [[Hc Hrest]].
    destruct (IH s Hrest) as (s1 & s2 & -> & H1 & H2).
    exists (String d s1), s2. simpl. rewrite H1. auto.
Qed.

(** On ASCII text the test of the code, [includes] on the lower-cased
    name, is the case-insensitive substring match. *)
Lemma includes_mentions (word name : string) :
  (forall c, In c (list_ascii_of_string word) -> isSmall c = true) ->
  Js.includes (Js.lowerAscii name) word = true <-> mentions word name.
Proof.
  intros Hsmall. rewrite includes_spec. unfold mentions. split.
  - intros (pre & post & H).
    apply lowerAscii_split in H as (s1 & rest & -> & H1 & H).
    apply lowerAscii_split in H as (hit & s3 & -> & Hhit & H3).
    exists s1, hit, s3. split; [reflexivity |].
    now apply lowerAscii_spells.
  - intros (pre & hit & post & -> & Hhit).
    apply lowerAscii_spells in Hhit; [| assumption].
    exists (Js.lowerAscii pre), (Js.lowerAscii post).
    now rewrite !lowerAscii_app, Hhit.
Qed.

Lemma small_opus c : In c (list_ascii_of_string "opus") -> isSmall c = true.
Proof. intros [<- | [<- | [<- | [<- | []]]]]; reflexivity. Qed.

Lemma small_haiku c : In c (list_ascii_of_string "haiku") -> isSmall c = true.
Proof. intros [<- | [<- | [<- | [<- | [<- | []]]]]]; reflexivity. Qed.

(** C7. If a router deployment is configured, [getDeployment] returns it
    for every model name.  Otherwise the name is matched without regard to
    case: a name that contains opus, in whatever mix of small and capital
    letters, selects the opus tier, else a name that contains haiku selects
    the haiku tier, and every other name (a sonnet name included) selects
    the sonnet tier; an unconfigured tier falls back to gpt-4o, gpt-4o-mini
    and gpt-4o.  This is stated for ASCII names by the letters of the name,
    and for every name by the runtime's [toLowerCase], which the code
    calls. *)
Theorem getDeployment_selection {rt : Builtins} (model : string)
    (config : AzureConfig) :
  (forall r, router config = Some r -> r <> "" ->
     getDeployment model config = r)
  /\ (Js.truthy_str (router config) = false -> Js.isAscii model = true ->
        (mentions "opus" model ->
           getDeployment model config
           = Js.or_str (opus (deployments config)) "gpt-4o")
        /\ (~ mentions "opus" model -> mentions "haiku" model ->
              getDeployment model config
              = Js.or_str (haiku (deployments config)) "gpt-4o-mini")
        /\ (~ mentions "opus" model -> ~ mentions "haiku" model ->
              getDeployment model config
              = Js.or_str (sonnet (deployments config)) "gpt-4o"))
  /\ (Js.truthy_str (router config) = false ->
        let lower := toLowerCase model in
        (Js.includes lower "opus" = true ->
           getDeployment model config
           = Js.or_str (opus (deployments config)) "gpt-4o")
        /\ (Js.includes lower "opus" = false ->
            Js.includes lower "haiku" = true ->
              getDeployment model config
              = Js.or_str (haiku (deployments config)) "gpt-4o-mini")
        /\ (Js.includes lower "opus" = false ->
            Js.includes lower "haiku" = false ->
              getDeployment model config
              = Js.or_str (sonnet (deployments config)) "gpt-4o"))
  /\ Js.or_str None "gpt-4o" = "gpt-4o"
  /\ Js.or_str None "gpt-4o-mini" = "gpt-4o-mini"
  /\ (forall name, name <> "" -> Js.or_str (Some name) "gpt-4o" = name
                                 /\ Js.or_str (Some name) "gpt-4o-mini" = name).
Proof.
  assert (Htier : Js.truthy_str (router config) = false ->
            getDeployment model config
            = if Js.includes (toLowerCase model) "opus"
              then Js.or_str (opus (deployments config)) "gpt-4o"
              else if Js.includes (toLowerCase model) "haiku"
              then Js.or_str (haiku (deployments config)) "gpt-4o-mini"
              else Js.or_str (sonnet (deployments config)) "gpt-4o").
  { intros Hrouter. unfold getDeployment.
    destruct (router config) as [r|]; [| reflexivity].
    simpl in Hrouter. now rewrite Hrouter. }
  split; [| split; [| split; [| split; [| split]]]].
  - intros r Hr Hne. unfold getDeployment. rewrite Hr.
    apply truthy_true in Hne. now rewrite Hne.
  - intros Hrouter Hascii. rewrite (Htier Hrouter), (toLowerCase_ascii _ Hascii).
    pose proof (includes_mentions "opus" model small_opus) as Hopus.
    pose proof (includes_mentions "haiku" model small_haiku) as Hhaiku.
    destruct (Js.includes (Js.lowerAscii model) "opus");
      destruct (Js.includes (Js.lowerAscii model) "haiku").
    all: split; [| split]; intros; try reflexivity;
      repeat match goal with
             | H : ~ mentions _ _ |- _ =>
                 first [ now (exfalso; apply H; apply Hopus)
                       | now (exfalso; apply H; apply Hhaiku)
                       | clear H ]
             | H : mentions "opus" _ |- _ => apply Hopus in H; discriminate H
             | H : mentions "haiku" _ |- _ => apply Hhaiku in H; discriminate H
             end.
  - intros Hrouter lower. rewrite (Htier Hrouter). fold lower.
    split; [| split].
    + intros Hopus. now rewrite Hopus.
    + intros Hopus Hhaiku. now rewrite Hopus, Hhaiku.
    + intros Hopus Hhaiku. now rewrite Hopus, Hhaiku.
  - reflexivity.
  - reflexivity.
  - intros name Hne. simpl. apply truthy_true in Hne. now rewrite Hne.
Qed.

(** The theorem at work on a name in capital letters, with the ASCII
    runtime of the examples. *)
Lemma getDeployment_selection_witness :
  let tiers :=
    {| endpoint := "https://example.openai.azure.com"; apiKey := "k";
       apiVersion := "2024-06-01";
       deployments := {| opus := Some "large"; sonnet := Some "medium";
                         haiku := Some "small" |};
       router := None; reasoningEffort := None; reasoningModel := None |} in
  Js.isAscii "Claude-3-OPUS" = true
  /\ mentions "opus" "Claude-3-OPUS"
  /\ getDeployment (rt := Sample.node) "Claude-3-OPUS" tiers = "large".
Proof.
  intros tiers.
  assert (Hopus : mentions "opus" "Claude-3-OPUS").
  { exists "Claude-3-", "OPUS", "". split; reflexivity. }
  split; [reflexivity |]. split; [exact Hopus |].
  destruct (getDeployment_selection (rt := Sample.node) "Claude-3-OPUS" tiers)
    as (_ & Hascii & _).
  destruct (Hascii eq_refl eq_refl) as (Hselect & _).
  exact (Hselect Hopus).
Defined.

(** The scenario of the specification: a haiku model name against a tiered
    configuration whose haiku tier is gpt-4o-mini ends up in the URL.  With
    three different tiers, names in capital letters select the tier of the
    word they contain, by the code and by the match of the theorem. *)
Example haiku_scenario :
  let config :=
    {| endpoint := "https://example.openai.azure.com"; apiKey := "k";
       apiVersion := "2024-06-01";
       deployments := {| opus := Some "large"; sonnet := Some "medium";
                         haiku := Some "gpt-4o-mini" |};
       router := None; reasoningEffort := None; reasoningModel := None |} in
  getDeployment (rt := Sample.node) "claude-haiku-x" config = "gpt-4o-mini"
  /\ getDeployment (rt := Sample.node) "Claude-3-OPUS" config = "large"
  /\ getDeployment (rt := Sample.node) "CLAUDE-HaiKu" config = "gpt-4o-mini"
  /\ getDeployment (rt := Sample.node) "Claude-Sonnet-4" config = "medium"
  /\ mentions "opus" "Claude-3-OPUS"
  /\ mentions "haiku" "CLAUDE-HaiKu"
  /\ (exists url,
        newURL (Builtins := Sample.node)
          (chatCompletionsPath config
             (getDeployment (rt := Sample.node) "claude-haiku-x" config))
          (endpoint config)
        = Gave url
        /\ Js.includes (url_pathname url) "gpt-4o-mini" = true).
Proof.
  cbv zeta. repeat split; try reflexivity.
  - exists "Claude-3-", "OPUS", "". split; reflexivity.
  - exists "CLAUDE-", "HaiKu", "". split; reflexivity.
  - eexists. split; reflexivity.
Qed.

(** The tiers are tested in the order opus, haiku, sonnet. *)
Example opus_before_haiku :
  getDeployment (rt := Sample.node) "claude-opus-haiku-sonnet"
    {| endpoint := "https://example.openai.azure.com"; apiKey := "k";
       apiVersion := "2024-06-01";
       deployments := {| opus := Some "large"; sonnet := Some "medium";
                         haiku := Some "small" |};
       router := None; reasoningEffort := None; reasoningModel := None |}
  = "large".
Proof. reflexivity. Qed.

(** ** C4: backend shape selection *)

Lemma hasToolUsage_spec (messages : list Message) :
  hasToolUsage messages = true <-> holdsToolBlock messages.
Proof.
  unfold hasToolUsage, holdsToolBlock. rewrite existsb_exists. split.
  - intros (msg & Hin & H). destruct (msg_content msg) as [|blocks|] eqn:E;
      try discriminate.
    apply existsb_exists in H as (block & Hb & Ht).
    exists msg, blocks, block. repeat split; try assumption.
    destruct block; try discriminate; eauto.
  - intros (msg & blocks & block & Hin & E & Hb & Ht).
    exists msg. split; [assumption |]. rewrite E.
    apply existsb_exists. exists block. split; [assumption |].
    destruct Ht as [[tu ->] | [tr ->]]; reflexivity.
Qed.

Lemma hasToolUsage_none (messages : list Message) :
  hasToolUsage messages = false <-> ~ holdsToolBlock messages.
Proof.
  rewrite <- hasToolUsage_spec. destruct (hasToolUsage messages); split;
    congruence.
Qed.

Lemma shouldUseResponsesAPI_spec (azure : AzureConfig) :
  shouldUseResponsesAPI azure = true <->
  routerConfigured azure \/ responsesFamily (apiVersion azure).
Proof.
  unfold shouldUseResponsesAPI, isResponsesApiVersion, Js.startsWith,
    routerConfigured, responsesFamily.
  rewrite !orb_true_iff, !prefix_append. split.
  - intros [Hr | [[rest H] | [rest H]]]; [left | right; eauto | right; eauto].
    destruct (router azure) as [r|]; [| discriminate].
    exists r. split; [reflexivity |]. now apply truthy_true.
  - intros [(r & Hr & Hne) | [rest [H | H]]]; [left | right; left | right; right];
      eauto.
    rewrite Hr. now apply truthy_true.
Qed.

(** C4. A history that holds a tool_use or a tool_result block forces the
    Chat Completions shape, whatever the router and the API version: the
    payload carries [messages] and the one URL that is built is the
    chat-completions URL of the deployment.  A history without such a block
    takes the Responses shape exactly when a router is configured or the
    API version is of the Responses family, and then the payload carries
    [input]. *)
Theorem shape_selection {rt : Builtins} (JSON_stringify : json -> string)
    (azure : AzureConfig) (claudeReq : ClaudeRequest) :
  let history := default [] (req_messages claudeReq) in
  let p := planRequest JSON_stringify azure claudeReq in
  (holdsToolBlock history ->
     plan_useResponsesAPI p = false
     /\ p_input (plan_openaiReq p) = None
     /\ p_messages (plan_openaiReq p)
        = Some (convertMessages JSON_stringify history (req_system claudeReq) false)
     /\ azureUrls azure (plan_deployment p) (plan_useResponsesAPI p)
        = construct (endpoint azure)
            [chatCompletionsPath azure (plan_deployment p)])
  /\ (~ holdsToolBlock history ->
        (plan_useResponsesAPI p = true <->
           routerConfigured azure \/ responsesFamily (apiVersion azure))
        /\ (plan_useResponsesAPI p = true ->
              p_messages (plan_openaiReq p) = None
              /\ is_Some (p_input (plan_openaiReq p)))
        /\ (plan_useResponsesAPI p = false ->
              p_input (plan_openaiReq p) = None
              /\ is_Some (p_messages (plan_openaiReq p))))
  /\ (forall tu : ToolUse,
        holdsToolBlock
          [{| msg_role := Some "assistant"; msg_content := CBlocks [BToolUse tu] |}])
  /\ (forall tr : ToolResult,
        holdsToolBlock
          [{| msg_role := Some "user"; msg_content := CBlocks [BToolResult tr] |}]).
Proof.
  intros history p. split; [| split; [| split]].
  - intros Htools. apply hasToolUsage_spec in Htools.
    subst p. unfold planRequest. fold history.
    rewrite Htools, andb_false_r. cbn [plan_useResponsesAPI plan_openaiReq
      plan_deployment]. repeat split.
    unfold azureUrls. cbn [andb construct].
    destruct (newURL _ _); reflexivity.
  - intros Htools. apply hasToolUsage_none in Htools.
    subst p. unfold planRequest. fold history.
    rewrite Htools, andb_true_r. cbn [plan_useResponsesAPI plan_openaiReq].
    split; [apply shouldUseResponsesAPI_spec |].
    destruct (shouldUseResponsesAPI azure); cbn.
    + split; [intros _; split; [reflexivity | eauto] | intros H; discriminate H].
    + split; [intros H; discriminate H | intros _; split; [reflexivity | eauto]].
  - intros tu. eexists _, _, (BToolUse tu).
    split; [now left |]. split; [reflexivity |]. split; [now left | eauto].
  - intros tr. eexists _, _, (BToolResult tr).
    split; [now left |]. split; [reflexivity |]. split; [now left | eauto].
Qed.

(** ** C2: the token limit *)

Lemma clampTokens_range (n : Z) : (4096 <= clampTokens n <= 128000)%Z.
Proof. unfold clampTokens. lia. Qed.

Lemma tokenLimit_built {rt : Builtins} (JSON_stringify : json -> string)
    (claudeReq : ClaudeRequest) (config : AzureConfig) (useResponsesAPI : bool) :
  tokenLimit useResponsesAPI
    (buildOpenAIRequest JSON_stringify claudeReq config useResponsesAPI)
  = Some (clampTokens (requestedMaxTokens claudeReq)).
Proof. destruct useResponsesAPI; reflexivity. Qed.

Lemma tokenLimits_adapted (options : RequestOptions) (payload : Payload) (n : Z) :
  n <> 0%Z ->
  tokenLimits payload = [n] -> tokenLimits (adaptPayload options payload) = [n].
Proof.
  intros Hn. unfold adaptPayload, tokenLimits.
  destruct (p_input payload); [| auto].
  destruct (Js.includes _ _); [| auto]. simpl.
  destruct (p_max_output_tokens payload) as [m|] eqn:Eo;
    destruct (p_max_completion_tokens payload) as [k|] eqn:Ec;
    simpl; intros H; try discriminate; inversion H; subst.
  - destruct (n =? 0)%Z eqn:E; [lia | reflexivity].
  - reflexivity.
Qed.

(** C2 (amended). The token limit of the outbound payload, under the field
    name of its shape, always lies in [4096, 128000]: 999999 yields 128000,
    8000 yields 8000, an absent max_tokens yields 64000, and so does a
    max_tokens of 0, which the default treats like an absent one; every
    other value is clamped.  The limit stays the same when the dispatcher
    adapts the payload for a candidate. *)
Theorem token_limit_clamped {rt : Builtins} (JSON_stringify : json -> string)
    (claudeReq : ClaudeRequest) (config : AzureConfig) (useResponsesAPI : bool) :
  let req := buildOpenAIRequest JSON_stringify claudeReq config useResponsesAPI in
  exists limit : Z,
    tokenLimit useResponsesAPI req = Some limit
    /\ tokenLimit (negb useResponsesAPI) req = None
    /\ (4096 <= limit <= 128000)%Z
    /\ (req_max_tokens claudeReq = None -> limit = 64000%Z)
    /\ (req_max_tokens claudeReq = Some 0%Z -> limit = 64000%Z)
    /\ (req_max_tokens claudeReq = Some 999999%Z -> limit = 128000%Z)
    /\ (req_max_tokens claudeReq = Some 8000%Z -> limit = 8000%Z)
    /\ (forall n, req_max_tokens claudeReq = Some n -> n <> 0%Z ->
          limit = Z.max 4096 (Z.min n 128000))
    /\ (forall options, tokenLimits (adaptPayload options req) = [limit]).
Proof.
  intros req. exists (clampTokens (requestedMaxTokens claudeReq)).
  split; [apply tokenLimit_built |].
  split; [subst req; destruct useResponsesAPI; reflexivity |].
  split; [apply clampTokens_range |].
  unfold requestedMaxTokens.
  repeat split.
  - intros ->. reflexivity.
  - intros ->. reflexivity.
  - intros ->. reflexivity.
  - intros ->. reflexivity.
  - intros n -> Hn. destruct (n =? 0)%Z eqn:E; [lia | reflexivity].
  - intros options. apply tokenLimits_adapted.
    + pose proof (clampTokens_range
                    (match req_max_tokens claudeReq with
                     | Some n => if (n =? 0)%Z then 64000%Z else n
                     | None => 64000%Z
                     end)). lia.
    + subst req. destruct useResponsesAPI; reflexivity.
Qed.

(** C2, as stated, fails at a requested limit of 0: the payload carries
    64000, not 4096. *)
Lemma token_limit_of_zero :
  exists claudeReq config,
    req_max_tokens claudeReq = Some 0%Z
    /\ tokenLimit false
         (buildOpenAIRequest (rt := Sample.node) JsonText.stringify claudeReq
            config false)
       = Some 64000%Z
    /\ tokenLimit true
         (buildOpenAIRequest (rt := Sample.node) JsonText.stringify claudeReq
            config true)
       = Some 64000%Z
    /\ 64000%Z <> 4096%Z.
Proof.
  exists {| req_model := Some "claude-sonnet-4"; req_messages := Some [];
            req_system := None; req_max_tokens := Some 0%Z;
            req_temperature := None; req_tools := None; req_stream := None |},
         {| endpoint := "https://example.openai.azure.com"; apiKey := "k";
            apiVersion := "2024-06-01";
            deployments := {| opus := None; sonnet := None; haiku := None |};
            router := None; reasoningEffort := None; reasoningModel := None |}.
  repeat split; lia.
Qed.

(** ** C9: the stop reason of a plain reply *)

(** The lookup in [stopReasonMap], by cases on the key. *)
Lemma mapStopReason_cases (finish_reason : option string) :
  mapStopReason finish_reason
  = if Js.inherited (Js.or_str finish_reason "stop")
    then Inherited (Js.or_str finish_reason "stop")
    else Reason (stopReasonTable finish_reason).
Proof.
  unfold mapStopReason, stopReasonTable.
  destruct finish_reason as [r|]; [| reflexivity].
  cbn [Js.or_str]. destruct (Js.truthy r) eqn:Ht.
  - unfold stopReasonMap.
    destruct (String.eqb_spec r "stop") as [->|H1]; [reflexivity |].
    rewrite lookup_insert_ne by congruence.
    destruct (String.eqb_spec r "length") as [->|H2]; [reflexivity |].
    rewrite lookup_insert_ne by congruence.
    destruct (String.eqb_spec r "tool_calls") as [->|H3]; [reflexivity |].
    rewrite lookup_insert_ne by congruence.
    destruct (String.eqb_spec r "content_filter") as [->|H4]; [reflexivity |].
    rewrite lookup_insert_ne by congruence.
    rewrite lookup_empty. reflexivity.
  - apply truthy_false in Ht. subst r. reflexivity.
Qed.

Lemma mapStopReason_table (finish_reason : option string) :
  Js.inherited (Js.or_str finish_reason "stop") = false ->
  mapStopReason finish_reason = Reason (stopReasonTable finish_reason).
Proof. intros H. now rewrite mapStopReason_cases, H. Qed.

(** The stop-reason table on the code: for a backend response with a
    choices array the client stop_reason is the finish_reason of the first
    choice through the table stop -> end_turn, length -> max_tokens,
    tool_calls -> tool_use, content_filter -> end_turn, and end_turn for
    any other or absent finish_reason, as long as the finish_reason is not
    the name of a property that [stopReasonMap] inherits; for such a name
    the stop_reason is the inherited value and no string. *)
Lemma stop_reason_table (JSON_parse : string -> option json)
    (fallbackId model : string) (id : option string) (choices : list Choice)
    (usage : option Usage) (output_text : option string)
    (output : option (list OutputItem)) :
  let finish_reason := head choices ≫= c_finish_reason in
  let stop_reason :=
    cr_stop_reason
      (convertResponse JSON_parse fallbackId
         {| r_id := id; r_choices := Some choices; r_usage := usage;
            r_output_text := output_text; r_output := output |}
         model) in
  (Js.inherited (Js.or_str finish_reason "stop") = false ->
     stop_reason = Reason (stopReasonTable finish_reason))
  /\ (Js.inherited (Js.or_str finish_reason "stop") = true ->
        stop_reason = Inherited (Js.or_str finish_reason "stop"))
  /\ stopReasonTable (Some "stop") = "end_turn"
  /\ stopReasonTable (Some "length") = "max_tokens"
  /\ stopReasonTable (Some "tool_calls") = "tool_use"
  /\ stopReasonTable (Some "content_filter") = "end_turn"
  /\ stopReasonTable None = "end_turn"
  /\ (forall r, r <> "stop" -> r <> "length" -> r <> "tool_calls" ->
        stopReasonTable (Some r) = "end_turn").
Proof.
  intros finish_reason stop_reason.
  assert (Hcases : stop_reason
                   = if Js.inherited (Js.or_str finish_reason "stop")
                     then Inherited (Js.or_str finish_reason "stop")
                     else Reason (stopReasonTable finish_reason)).
  { subst stop_reason finish_reason. unfold convertResponse. simpl.
    destruct choices as [|first rest]; simpl.
    - reflexivity.
    - apply mapStopReason_cases. }
  split; [intros H; now rewrite Hcases, H |].
  split; [intros H; now rewrite Hcases, H |].
  repeat split.
  intros r H1 H2 H3. unfold stopReasonTable.
  destruct (String.eqb_spec r "stop"); [contradiction |].
  destruct (String.eqb_spec r "length"); [contradiction |].
  destruct (String.eqb_spec r "tool_calls"); [contradiction |].
  destruct (String.eqb r "content_filter"); reflexivity.
Qed.

(** C9 does not hold of the code for a finish_reason that names an
    inherited property.  For a reply whose first choice has the
    finish_reason constructor the table gives end_turn; [convertResponse]
    gives the value of [stopReasonMap.constructor], which is no string, and
    [JSON.stringify] leaves the stop_reason out of what the client
    receives.  For __proto__ the client receives an empty object.  On the
    four keys of the table, and on a finish_reason that is no property
    name, the code gives what the table gives. *)
Theorem stop_reason_mapping :
  let reply finish_reason :=
    {| r_id := Some "chatcmpl-1";
       r_choices :=
         Some [{| c_message := Some {| m_content := Some "ok"; m_tool_calls := None |};
                  c_finish_reason := Some finish_reason |}];
       r_usage := None; r_output_text := None; r_output := None |} in
  let stop_reason finish_reason :=
    cr_stop_reason
      (convertResponse JsonText.parse "msg_1" (reply finish_reason)
         "claude-sonnet-4") in
  stopReasonTable (Some "constructor") = "end_turn"
  /\ stop_reason "constructor" = Inherited "constructor"
  /\ stop_reason "constructor" <> Reason "end_turn"
  /\ stopReasonField (stop_reason "constructor") = []
  /\ stop_reason "__proto__" = Inherited "__proto__"
  /\ stopReasonField (stop_reason "__proto__") = [("stop_reason", JObj [])]
  /\ stop_reason "stop" = Reason "end_turn"
  /\ stop_reason "length" = Reason "max_tokens"
  /\ stop_reason "tool_calls" = Reason "tool_use"
  /\ stop_reason "content_filter" = Reason "end_turn"
  /\ stop_reason "function_call" = Reason "end_turn".
Proof. cbv zeta. repeat split; vm_compute; congruence. Qed.

(** ** C1: the dispatcher *)

Section Dispatcher.

Variable requestJson : RequestOptions -> Payload -> Outcome.
Variable payload : Payload.

Lemma fallbackLoop_stops (before : list RequestOptions)
    (options : RequestOptions) (after : list RequestOptions)
    (lastError : option string) :
  Forall (fun o => retries (outcomeFor requestJson payload o) = true) before ->
  retries (outcomeFor requestJson payload options) = false \/ after = [] ->
  fallbackLoop requestJson (before ++ options :: after) payload lastError
  = (map (attemptOf payload) (before ++ [options]),
     settle options (outcomeFor requestJson payload options)).
Proof.
  intros Hbefore Hstop. revert lastError.
  induction Hbefore as [|o before Ho Hbefore IH]; intros lastError.
  - simpl. change (requestJson options (adaptPayload options payload))
      with (outcomeFor requestJson payload options).
    destruct (outcomeFor requestJson payload options) as [statusCode body|err] eqn:E; simpl in *.
    + destruct Hstop as [Hs | ->].
      * rewrite Hs. reflexivity.
      * rewrite andb_false_r. reflexivity.
    + destruct Hstop as [Hs | ->]; [discriminate | reflexivity].
  - assert (Hlen : negb (List.length (before ++ options :: after) =? 0)%nat = true).
    { rewrite length_app. simpl.
      destruct (List.length before + S (List.length after))%nat eqn:E;
        [lia | reflexivity]. }
    simpl. change (requestJson o (adaptPayload o payload)) with (outcomeFor requestJson payload o).
    rewrite Hlen.
    destruct (outcomeFor requestJson payload o) as [statusCode body|err] eqn:E; simpl in Ho.
    + rewrite Ho. simpl. rewrite IH. reflexivity.
    + rewrite IH. reflexivity.
Qed.

(** Every attempt carries the payload adapted to its candidate. *)
Lemma fallbackLoop_attempts (optionsList : list RequestOptions)
    (lastError : option string) :
  Forall (fun a => a_payload a = adaptPayload (a_options a) payload)
    (fst (fallbackLoop requestJson optionsList payload lastError)).
Proof.
  revert lastError.
  induction optionsList as [|options later IH]; intros lastError; simpl.
  - constructor.
  - destruct (requestJson options (adaptPayload options payload))
      as [statusCode body|err].
    + destruct ((statusCode =? 404)%nat && negb (List.length later =? 0)%nat).
      * specialize (IH lastError).
        destruct (fallbackLoop requestJson later payload lastError).
        simpl in *. constructor; [reflexivity | assumption].
      * simpl. constructor; [reflexivity | constructor].
    + destruct (negb (List.length later =? 0)%nat).
      * specialize (IH (Some err)).
        destruct (fallbackLoop requestJson later payload (Some err)).
        simpl in *. constructor; [reflexivity | assumption].
      * simpl. constructor; [reflexivity | constructor].
Qed.

(** Every non-empty candidate list splits at the candidate the loop stops
    at, so [fallbackLoop_stops] describes every dispatch. *)
Lemma stopping_candidate (optionsList : list RequestOptions) :
  optionsList <> [] ->
  exists before options after,
    optionsList = (before ++ options :: after)%list
    /\ Forall (fun o => retries (outcomeFor requestJson payload o) = true) before
    /\ (retries (outcomeFor requestJson payload options) = false \/ after = []).
Proof.
  induction optionsList as [|o rest IH]; [congruence |]. intros _.
  destruct (retries (outcomeFor requestJson payload o)) eqn:E.
  - destruct rest as [|o' rest'].
    + exists [], o, []. auto.
    + destruct IH as (before & options & after & Heq & Hb & Hs); [congruence |].
      exists (o :: before), options, after. rewrite Heq. auto.
  - exists [], o, rest. auto.
Qed.

(** C1 (amended). The dispatcher tries the candidates in order, each with
    the payload adapted to it.  A candidate that is not the last is passed
    over when it answers 404 and also when its request fails at transport
    level; the first candidate that answers with another status ends the
    dispatch with that answer, and the last candidate ends it in any case:
    its answer (a 404 included) is returned, its failure is raised.  The
    attempts are exactly the candidates up to and including that one. *)
Theorem dispatch_in_order (before : list RequestOptions)
    (options : RequestOptions) (after : list RequestOptions) :
  Forall (fun o => retries (outcomeFor requestJson payload o) = true) before ->
  retries (outcomeFor requestJson payload options) = false \/ after = [] ->
  requestWithFallback requestJson (before ++ options :: after) payload
  = (map (attemptOf payload) (before ++ [options]),
     settle options (outcomeFor requestJson payload options)).
Proof. intros Hbefore Hstop. now apply fallbackLoop_stops. Qed.

End Dispatcher.

(** The theorem at work: a missing route, then a rejected request; the
    candidate after it is never tried. *)
Lemma dispatch_in_order_witness :
  requestWithFallback Sample.flaky
    [Sample.candidate "/b"; Sample.candidate "/c"; Sample.candidate "/d"]
    Sample.payload
  = (map (attemptOf Sample.payload) [Sample.candidate "/b"; Sample.candidate "/c"],
     Returned 429 "slow down" (Sample.candidate "/c")).
Proof.
  apply (dispatch_in_order Sample.flaky Sample.payload
           [Sample.candidate "/b"] (Sample.candidate "/c") [Sample.candidate "/d"]).
  - repeat constructor.
  - left. reflexivity.
Defined.

(** C1, as stated, fails on a transport-level failure of a candidate that
    is not the last: the request to the first candidate fails, and the
    dispatcher goes on to the second and returns its answer. *)
Lemma transport_failure_falls_back :
  Sample.flaky (Sample.candidate "/a")
    (adaptPayload (Sample.candidate "/a") Sample.payload)
  = Failed "ECONNRESET"
  /\ requestWithFallback Sample.flaky
       [Sample.candidate "/a"; Sample.candidate "/d"] Sample.payload
     = ([attemptOf Sample.payload (Sample.candidate "/a");
         attemptOf Sample.payload (Sample.candidate "/d")],
        Returned 200 "ok" (Sample.candidate "/d")).
Proof. split; reflexivity. Qed.

(** ** C8: a rejected request reaches the client *)

(** C8. When the candidate the dispatch stops at answers with a status
    other than 200 and 404, the non-streaming path replies with that status
    code and that body, and both streaming paths write the body as one
    text block followed by the close sequence: content_block_stop,
    message_delta, message_stop.  On the native streaming path the response
    is the one whose body has been read to its end: the error block is
    written when the body ends. *)
Theorem rejected_request_surfaced
    (JSON_stringify : json -> string) (JSON_parse : string -> option json)
    (parseResponse : string -> Parsed)
    (requestJson : RequestOptions -> Payload -> Outcome)
    (msgId fallbackId model : string) (payload : Payload)
    (before : list RequestOptions) (options : RequestOptions)
    (after : list RequestOptions)
    (statusCode : nat) (body : string) (lines : list SseLine) :
  statusCode <> 200 -> statusCode <> 404 -> statusCode <> 0 ->
  Forall (fun o => retries (requestJson o (adaptPayload o payload)) = true) before ->
  requestJson options (adaptPayload options payload) = Responded statusCode body ->
  let optionsList := (before ++ options :: after)%list in
  let rendered :=
    [message_start msgId model;
     content_block_start 0 CbText;
     content_block_delta 0 (TextDelta ("Error from Azure: " ++ body));
     content_block_stop 0;
     message_delta (Reason "end_turn") 0;
     message_stop] in
  snd (handleNonStreaming JSON_parse parseResponse requestJson fallbackId
         optionsList payload model)
  = {| reply_status := statusCode; reply_body := RawBody body |}
  /\ snd (handleStreamingFromNonStreaming JSON_stringify JSON_parse parseResponse
            requestJson msgId fallbackId optionsList payload model)
     = rendered
  /\ handleStreaming msgId model (StreamResponse statusCode body lines true)
     = rendered.
Proof.
  intros H200 H404 H0 Hbefore Hout optionsList rendered.
  assert (Hdispatch :
            requestWithFallback requestJson optionsList payload
            = (map (attemptOf payload) (before ++ [options]),
               Returned statusCode body options)).
  { unfold requestWithFallback, optionsList.
    rewrite fallbackLoop_stops; unfold outcomeFor;
      [now rewrite Hout | assumption |].
    left. rewrite Hout. simpl. now apply Nat.eqb_neq. }
  assert (Hne : negb (statusCode =? 200)%nat = true).
  { apply negb_true_iff. now apply Nat.eqb_neq. }
  split; [| split].
  - unfold handleNonStreaming. rewrite Hdispatch. simpl. rewrite Hne.
    apply Nat.eqb_neq in H0. now rewrite H0.
  - unfold handleStreamingFromNonStreaming. rewrite Hdispatch. simpl.
    now rewrite Hne.
  - unfold handleStreaming. now rewrite Hne.
Qed.

(** The theorem at work on a 429 after a missing route. *)
Lemma rejected_request_surfaced_witness :
  snd (handleNonStreaming JsonText.parse Sample.noReply Sample.flaky "msg_1"
         [Sample.candidate "/b"; Sample.candidate "/c"; Sample.candidate "/d"]
         Sample.payload "claude-sonnet-4")
  = {| reply_status := 429; reply_body := RawBody "slow down" |}
  /\ snd (handleStreamingFromNonStreaming JsonText.stringify JsonText.parse
            Sample.noReply Sample.flaky "msg_1" "msg_1"
            [Sample.candidate "/b"; Sample.candidate "/c"; Sample.candidate "/d"]
            Sample.payload "claude-sonnet-4")
     = [message_start "msg_1" "claude-sonnet-4";
        content_block_start 0 CbText;
        content_block_delta 0 (TextDelta "Error from Azure: slow down");
        content_block_stop 0;
        message_delta (Reason "end_turn") 0;
        message_stop]
  /\ handleStreaming "msg_1" "claude-sonnet-4"
       (StreamResponse 429 "slow down" [] true)
     = [message_start "msg_1" "claude-sonnet-4";
        content_block_start 0 CbText;
        content_block_delta 0 (TextDelta "Error from Azure: slow down");
        content_block_stop 0;
        message_delta (Reason "end_turn") 0;
        message_stop].
Proof.
  apply (rejected_request_surfaced JsonText.stringify JsonText.parse
           Sample.noReply Sample.flaky "msg_1" "msg_1" "claude-sonnet-4"
           Sample.payload [Sample.candidate "/b"] (Sample.candidate "/c")
           [Sample.candidate "/d"] 429 "slow down" []).
  - lia.
  - lia.
  - lia.
  - repeat constructor.
  - reflexivity.
Defined.

(** ** C10: the Responses shape is never streamed from the backend *)





(** ** The native relay: invariants of every stream *)

Lemma hasIndex_true i l : hasIndex i l = true <-> i ∈ l.
Proof.
  unfold hasIndex. rewrite existsb_exists. split.
  - intros (x & Hin & Heq). apply Nat.eqb_eq in Heq. subst. now apply list_elem_of_In.
  - intros Hin. exists i. split; [now apply list_elem_of_In | apply Nat.eqb_refl].
Qed.

Lemma hasIndex_false i l : hasIndex i l = false <-> i ∉ l.
Proof.
  rewrite <- hasIndex_true. destruct (hasIndex i l); split; congruence.
Qed.

Lemma openBlocks_app evs new :
  openBlocks (evs ++ new) = fold_left track new (openBlocks evs).
Proof. unfold openBlocks. apply fold_left_app. Qed.

Lemma startIndices_app a b : startIndices (a ++ b) = (startIndices a ++ startIndices b)%list.
Proof. unfold startIndices. apply flat_map_app. Qed.

Lemma stopIndices_app a b : stopIndices (a ++ b) = (stopIndices a ++ stopIndices b)%list.
Proof. unfold stopIndices. apply flat_map_app. Qed.

Lemma disciplined_app open a b :
  disciplined open (a ++ b) <-> disciplined open a /\ disciplined (fold_left track a open) b.
Proof.
  revert open. induction a as [|e a IH]; intros open; simpl.
  - tauto.
  - rewrite IH. tauto.
Qed.

Lemma Relayed_initial : Relayed initialState [].
Proof.
  split; simpl; auto.
  constructor.
Qed.

Ltac relay_app :=
  rewrite ?openBlocks_app, ?startIndices_app, ?stopIndices_app, ?length_app,
    ?forallb_app, ?disciplined_app, ?app_nil_r.

(** Closes one field of [Relayed] after a step: [Ho] gives the open set of
    the events so far, [Hb] says they are block events. *)
Ltac relay_field Ho Hb :=
  relay_app; simpl; unfold stateOpen; simpl;
  rewrite ?Ho, ?Hb, ?length_app, ?list_to_set_app_L; simpl;
  repeat match goal with
         | |- _ /\ _ => split
         | |- True => exact I
         end;
  first
    [ assumption
    | reflexivity
    | lia
    | apply NoDup_app; split; [assumption | split; [set_solver | apply NoDup_singleton]]
    | set_solver ].

Lemma Relayed_onContent st events content st' new :
  Relayed st events -> onContent st content = (st', new) ->
  Relayed st' (events ++ new).
Proof.
  intros HR Hstep. unfold onContent in Hstep.
  destruct content as [text|];
    [| inversion Hstep; subst; rewrite app_nil_r; exact HR].
  destruct (Js.truthy text);
    [| inversion Hstep; subst; rewrite app_nil_r; exact HR].
  destruct HR as [Ho Hn Hc Hd Hb].
  inversion Hstep; subst; clear Hstep.
  unfold stateOpen in Ho.
  destruct (textBlockStarted st) eqn:Et; split; relay_field Ho Hb.
Qed.

Lemma Relayed_closeTextBlock st events st' new :
  Relayed st events -> closeTextBlock st = (st', new) ->
  Relayed st' (events ++ new).
Proof.
  intros HR Hstep. unfold closeTextBlock in Hstep.
  destruct (textBlockStarted st) eqn:Et; simpl in Hstep;
    [| inversion Hstep; subst; rewrite app_nil_r; exact HR].
  destruct (toolBlocksStarted st) as [|b tools] eqn:Etools; simpl in Hstep;
    [| inversion Hstep; subst; rewrite app_nil_r; exact HR].
  destruct HR as [Ho Hn Hc Hd Hb].
  inversion Hstep; subst; clear Hstep.
  unfold stateOpen in Ho. rewrite Et, Etools in *. simpl in *.
  split; rewrite ?Etools; relay_field Ho Hb.
Qed.

Lemma Relayed_onToolCall st events tc st' new :
  Relayed st events -> onToolCall st tc = (st', new) ->
  Relayed st' (events ++ new).
Proof.
  intros [Ho Hn Hc Hd Hb] Hstep. unfold onToolCall in Hstep.
  set (b := (currentBlockIndex st + Js.or_nat (tcd_index tc) 0)%nat) in *.
  match type of Hstep with
  | context [Js.truthy (acc_name ?t)] => set (toolCall := t) in *
  end.
  set (arguments := tcd_function tc ≫= fn_arguments) in *.
  unfold stateOpen in Ho.
  destruct (hasIndex b (toolBlocksStarted st)) eqn:Ehas;
    cbn [negb andb] in Hstep.
  - (* the block is open already *)
    rewrite Ehas in Hstep.
    inversion Hstep; subst; clear Hstep.
    apply hasIndex_true in Ehas.
    destruct (Js.truthy_str arguments); simpl; split; relay_field Ho Hb.
  - destruct (Js.truthy (acc_name toolCall)) eqn:Ename.
    + (* the block opens *)
      assert (Hin : hasIndex b (toolBlocksStarted st ++ [b]) = true).
      { apply hasIndex_true. set_solver. }
      rewrite Hin in Hstep.
      inversion Hstep; subst; clear Hstep.
      apply hasIndex_false in Ehas.
      destruct (Js.truthy_str arguments); simpl; split; relay_field Ho Hb.
    + (* no name yet: nothing is written *)
      rewrite Ehas in Hstep. rewrite andb_false_r in Hstep.
      inversion Hstep; subst; clear Hstep.
      split; relay_field Ho Hb.
Qed.

Lemma Relayed_onToolCalls calls st events st' new :
  Relayed st events -> onToolCalls st calls = (st', new) ->
  Relayed st' (events ++ new).
Proof.
  revert st events st' new.
  induction calls as [|tc rest IH]; intros st events st' new HR Hstep;
    cbn [onToolCalls] in Hstep.
  - inversion Hstep; subst. rewrite app_nil_r. exact HR.
  - destruct (onToolCall st tc) as [st1 events1] eqn:E1.
    destruct (onToolCalls st1 rest) as [st2 events2] eqn:E2.
    inversion Hstep; subst; clear Hstep.
    rewrite app_assoc. eapply IH; [| exact E2].
    eapply Relayed_onToolCall; eassumption.
Qed.

Lemma Relayed_meta st events reason tokens :
  Relayed st events ->
  Relayed
    {| outputTokens := tokens; finishReason := reason;
       textBlockStarted := textBlockStarted st;
       currentBlockIndex := currentBlockIndex st;
       toolCalls := toolCalls st;
       toolBlocksStarted := toolBlocksStarted st |}
    events.
Proof. intros [Ho Hn Hc Hd Hb]. split; assumption. Qed.

Lemma Relayed_onChunk st events data st' new :
  Relayed st events -> onChunk st data = (st', new) ->
  Relayed st' (events ++ new).
Proof.
  intros HR Hstep. unfold onChunk in Hstep.
  destruct (default [] (ch_choices data)) as [|choice others];
    [inversion Hstep; subst; rewrite app_nil_r; exact HR |].
  match type of Hstep with
  | context [onContent ?s ?c] =>
      destruct (onContent s c) as [st1 textEvents] eqn:E1
  end.
  assert (HR1 : Relayed st1 (events ++ textEvents)).
  { eapply Relayed_onContent; [| exact E1]. now apply Relayed_meta. }
  destruct (d_tool_calls (default emptyDelta (cc_delta choice))) as [calls|].
  - destruct (closeTextBlock st1) as [sa closing] eqn:Ea.
    destruct (onToolCalls sa calls) as [sb toolEvents] eqn:Eb.
    inversion Hstep; subst; clear Hstep.
    apply Relayed_meta.
    rewrite !app_assoc. eapply Relayed_onToolCalls; [| exact Eb].
    eapply Relayed_closeTextBlock; eassumption.
  - inversion Hstep; subst; clear Hstep.
    apply Relayed_meta. rewrite app_nil_r. exact HR1.
Qed.

Lemma Relayed_onLines lines st events st' new :
  Relayed st events -> onLines st lines = (st', new) ->
  Relayed st' (events ++ new).
Proof.
  revert st events st' new.
  induction lines as [|line rest IH]; intros st events st' new HR Hstep;
    cbn [onLines] in Hstep.
  - inversion Hstep; subst. rewrite app_nil_r. exact HR.
  - destruct (onLine st line) as [st1 events1] eqn:E1.
    destruct (onLines st1 rest) as [st2 events2] eqn:E2.
    inversion Hstep; subst; clear Hstep.
    rewrite app_assoc. eapply IH; [| exact E2].
    destruct line as [|data]; cbn [onLine] in E1.
    + inversion E1; subst. rewrite app_nil_r. exact HR.
    + eapply Relayed_onChunk; eassumption.
Qed.

(** *** The relay on an orderly stream *)


Lemma ToolsOnly_onToolCall st events tc st' new :
  ToolsOnly st events -> onToolCall st tc = (st', new) ->
  ToolsOnly st' (events ++ new)
  /\ (toolBlocksStarted st <> [] -> toolBlocksStarted st' <> [])
  /\ (Js.truthy_str (tcd_function tc ≫= fn_name) = true ->
        toolBlocksStarted st' <> []).
Proof.
  intros [Ht Hn Hb] Hstep. unfold onToolCall in Hstep.
  set (b := (currentBlockIndex st + Js.or_nat (tcd_index tc) 0)%nat) in *.
  match type of Hstep with
  | context [Js.truthy (acc_name ?t)] => set (toolCall := t) in *
  end.
  set (arguments := tcd_function tc ≫= fn_arguments) in *.
  assert (Hname : Js.truthy_str (tcd_function tc ≫= fn_name) = true ->
                  Js.truthy (acc_name toolCall) = true).
  { subst toolCall. simpl. destruct (tcd_function tc ≫= fn_name) as [n|]; simpl.
    - intros H. now rewrite H.
    - discriminate. }
  destruct (hasIndex b (toolBlocksStarted st)) eqn:Ehas;
    cbn [negb andb] in Hstep.
  - rewrite Ehas in Hstep. inversion Hstep; subst; clear Hstep.
    apply hasIndex_true in Ehas.
    assert (Hne : toolBlocksStarted st <> []) by (intros E; rewrite E in Ehas; set_solver).
    split; [| auto].
    destruct (Js.truthy_str arguments); simpl;
      split; simpl; rewrite ?startIndices_app, ?app_nil_r; simpl;
      rewrite ?app_nil_r; auto.
  - destruct (Js.truthy (acc_name toolCall)) eqn:Ename.
    + assert (Hin : hasIndex b (toolBlocksStarted st ++ [b]) = true).
      { apply hasIndex_true. set_solver. }
      rewrite Hin in Hstep. inversion Hstep; subst; clear Hstep.
      apply hasIndex_false in Ehas.
      assert (Hfresh : b ∉ startIndices events).
      { intros Hb'. destruct (Hb _ Hb') as [Hlt | Hin']; [subst b; lia | auto]. }
      assert (Hne : (toolBlocksStarted st ++ [b])%list <> []).
      { intros E. apply app_eq_nil in E as [_ E]. discriminate. }
      split; [| auto].
      destruct (Js.truthy_str arguments); simpl;
        split; simpl; rewrite ?startIndices_app; simpl; auto.
      * apply NoDup_app. split; [assumption |].
        split; [| apply NoDup_singleton]. set_solver.
      * intros i Hi. apply elem_of_app in Hi as [Hi | Hi].
        -- destruct (Hb _ Hi); [auto | right; set_solver].
        -- right. set_solver.
      * apply NoDup_app. split; [assumption |].
        split; [| apply NoDup_singleton]. set_solver.
      * intros i Hi. apply elem_of_app in Hi as [Hi | Hi].
        -- destruct (Hb _ Hi); [auto | right; set_solver].
        -- right. set_solver.
    + rewrite Ehas in Hstep. rewrite andb_false_r in Hstep.
      inversion Hstep; subst; clear Hstep.
      split; [| split; [auto |]].
      * split; simpl; rewrite ?app_nil_r; auto.
      * intros H. apply Hname in H. congruence.
Qed.

Lemma ToolsOnly_onToolCalls calls st events st' new :
  ToolsOnly st events -> onToolCalls st calls = (st', new) ->
  ToolsOnly st' (events ++ new)
  /\ (toolBlocksStarted st <> [] -> toolBlocksStarted st' <> [])
  /\ (existsb (fun tc => Js.truthy_str (tcd_function tc ≫= fn_name)) calls = true ->
        toolBlocksStarted st' <> []).
Proof.
  revert st events st' new.
  induction calls as [|tc rest IH]; intros st events st' new HT Hstep;
    cbn [onToolCalls] in Hstep.
  - inversion Hstep; subst. rewrite app_nil_r. simpl. auto.
  - destruct (onToolCall st tc) as [st1 events1] eqn:E1.
    destruct (onToolCalls st1 rest) as [st2 events2] eqn:E2.
    inversion Hstep; subst; clear Hstep.
    destruct (ToolsOnly_onToolCall _ _ _ _ _ HT E1) as (HT1 & Hmono1 & Hnamed1).
    destruct (IH _ _ _ _ HT1 E2) as (HT2 & Hmono2 & Hnamed2).
    rewrite app_assoc. split; [exact HT2 |]. split; [auto |].
    simpl. intros H. apply orb_true_iff in H as [H | H]; auto.
Qed.

Lemma onContent_silent st content :
  Js.truthy_str content = false -> onContent st content = (st, []).
Proof.
  unfold onContent. destruct content as [text|]; simpl; [| reflexivity].
  now intros ->.
Qed.

Lemma orderly_cons line rest :
  orderly (line :: rest) = true ->
  match d_tool_calls (lineDelta line) with
  | None => orderly rest = true
  | Some _ => namesTool line = true /\ noText rest
  end.
Proof.
  simpl. destruct (d_tool_calls (lineDelta line)); [| auto].
  intros H. now apply andb_true_iff in H.
Qed.

Lemma noText_cons line rest :
  noText (line :: rest) -> carriesText line = false /\ noText rest.
Proof.
  unfold noText. simpl. intros H. apply andb_true_iff in H as [H1 H2].
  apply negb_true_iff in H1. auto.
Qed.

Lemma Phase_skip st events line rest :
  Phase st events (line :: rest) ->
  d_tool_calls (lineDelta line) = None ->
  Phase st events rest.
Proof.
  intros [H1 H2 H3 H4 | H1 H2 H3] Hnone.
  - apply TextPhase; auto. apply orderly_cons in H4. now rewrite Hnone in H4.
  - apply ToolPhase; auto. now apply noText_cons in H3.
Qed.

Lemma ToolsOnly_meta st events reason tokens :
  ToolsOnly st events ->
  ToolsOnly
    {| outputTokens := tokens; finishReason := reason;
       textBlockStarted := textBlockStarted st;
       currentBlockIndex := currentBlockIndex st;
       toolCalls := toolCalls st;
       toolBlocksStarted := toolBlocksStarted st |}
    events.
Proof. intros [H1 H2 H3]. split; assumption. Qed.

Lemma Phase_meta st events lines reason tokens :
  Phase st events lines ->
  Phase
    {| outputTokens := tokens; finishReason := reason;
       textBlockStarted := textBlockStarted st;
       currentBlockIndex := currentBlockIndex st;
       toolCalls := toolCalls st;
       toolBlocksStarted := toolBlocksStarted st |}
    events lines.
Proof.
  intros [H1 H2 H3 H4 | H1 H2 H3].
  - now apply TextPhase.
  - apply ToolPhase; auto. now apply ToolsOnly_meta.
Qed.

(** The text part of a chunk in the text phase. *)
Lemma TextPhase_onContent st events content st1 textEvents :
  toolBlocksStarted st = [] -> currentBlockIndex st = 0 ->
  startIndices events = (if textBlockStarted st then [0] else []) ->
  onContent st content = (st1, textEvents) ->
  toolBlocksStarted st1 = [] /\ currentBlockIndex st1 = 0
  /\ startIndices (events ++ textEvents)
     = (if textBlockStarted st1 then [0] else []).
Proof.
  intros Htools Hcbi Hstarts E1. unfold onContent in E1.
  destruct content as [text|];
    [| inversion E1; subst; rewrite app_nil_r; auto].
  destruct (Js.truthy text);
    [| inversion E1; subst; rewrite app_nil_r; auto].
  inversion E1; subst; clear E1. simpl.
  rewrite startIndices_app, Hstarts, Hcbi.
  destruct (textBlockStarted st); simpl; auto.
Qed.

(** Closing the text block at the first tool chunk leaves no text block
    open and every started index below the next one. *)
Lemma TextPhase_closeTextBlock st events sa closing :
  toolBlocksStarted st = [] -> currentBlockIndex st = 0 ->
  startIndices events = (if textBlockStarted st then [0] else []) ->
  closeTextBlock st = (sa, closing) ->
  ToolsOnly sa (events ++ closing).
Proof.
  intros Htools Hcbi Hstarts Ea. unfold closeTextBlock in Ea.
  rewrite Htools in Ea. simpl in Ea. rewrite andb_true_r in Ea.
  destruct (textBlockStarted st) eqn:Et; inversion Ea; subst; clear Ea;
    split; simpl; rewrite ?startIndices_app, ?Hstarts, ?app_nil_r; simpl; auto.
  - apply NoDup_singleton.
  - intros i Hi. left. rewrite Hcbi. set_solver.
  - constructor.
  - intros i Hi. set_solver.
Qed.

Lemma ToolsOnly_closeTextBlock st :
  textBlockStarted st = false -> closeTextBlock st = (st, []).
Proof. intros Ht. unfold closeTextBlock. now rewrite Ht. Qed.

Lemma Phase_onLine st events line rest st' new :
  Phase st events (line :: rest) -> onLine st line = (st', new) ->
  Phase st' (events ++ new) rest.
Proof.
  intros HP Hstep.
  destruct line as [|data]; cbn [onLine] in Hstep.
  { inversion Hstep; subst. rewrite app_nil_r.
    now apply (Phase_skip _ _ Skipped). }
  unfold onChunk in Hstep.
  destruct (default [] (ch_choices data)) as [|choice others] eqn:Echoices.
  { inversion Hstep; subst. rewrite app_nil_r.
    apply (Phase_skip _ _ (Data data)); [assumption |].
    simpl. now rewrite Echoices. }
  assert (Hdelta : lineDelta (Data data) = default emptyDelta (cc_delta choice)).
  { simpl. now rewrite Echoices. }
  set (delta := default emptyDelta (cc_delta choice)) in *.
  apply (Phase_meta _ _ _
           (nextFinishReason (finishReason st) (cc_finish_reason choice))
           (outputTokens st)) in HP.
  match type of Hstep with
  | context [onContent ?s ?c] => set (st0 := s) in *
  end.
  destruct (onContent st0 (d_content delta)) as [st1 textEvents] eqn:E1.
  destruct HP as [Htools Hcbi Hstarts Hord | Htools HT Hnt].
  - (* text phase *)
    destruct (TextPhase_onContent _ _ _ _ _ Htools Hcbi Hstarts E1)
      as (Ht1 & Hc1 & Hs1).
    apply orderly_cons in Hord. rewrite Hdelta in Hord.
    destruct (d_tool_calls delta) as [calls|] eqn:Ecalls.
    + destruct Hord as [Hnamed Hnt].
      unfold namesTool in Hnamed. rewrite Hdelta, Ecalls in Hnamed.
      destruct (closeTextBlock st1) as [sa closing] eqn:Ea.
      destruct (onToolCalls sa calls) as [sb toolEvents] eqn:Eb.
      inversion Hstep; subst; clear Hstep.
      pose proof (TextPhase_closeTextBlock _ _ _ _ Ht1 Hc1 Hs1 Ea) as HTa.
      destruct (ToolsOnly_onToolCalls _ _ _ _ _ HTa Eb) as (HTb & _ & Hne).
      rewrite !app_assoc.
      apply ToolPhase; simpl; auto.
      now apply ToolsOnly_meta.
    + inversion Hstep; subst; clear Hstep. rewrite app_nil_r.
      apply TextPhase; simpl; auto.
  - (* tool phase *)
    apply noText_cons in Hnt as [Hnt Hrest].
    unfold carriesText in Hnt. rewrite Hdelta in Hnt.
    rewrite onContent_silent in E1 by exact Hnt.
    inversion E1; subst st1 textEvents; clear E1.
    destruct (d_tool_calls delta) as [calls|] eqn:Ecalls.
    + rewrite ToolsOnly_closeTextBlock in Hstep by (now destruct HT).
      destruct (onToolCalls st0 calls) as [sb toolEvents] eqn:Eb.
      inversion Hstep; subst; clear Hstep. simpl.
      destruct (ToolsOnly_onToolCalls _ _ _ _ _ HT Eb) as (HTb & Hmono & _).
      apply ToolPhase; simpl; auto.
      apply ToolsOnly_meta. exact HTb.
    + inversion Hstep; subst; clear Hstep. simpl. rewrite app_nil_r.
      apply ToolPhase; simpl; auto.
      destruct HT as [A B C]. split; simpl; auto.
Qed.

Lemma Phase_onLines lines st events st' new :
  Phase st events lines -> onLines st lines = (st', new) ->
  Phase st' (events ++ new) [].
Proof.
  revert st events st' new.
  induction lines as [|line rest IH]; intros st events st' new HP Hstep;
    cbn [onLines] in Hstep.
  - inversion Hstep; subst. rewrite app_nil_r. exact HP.
  - destruct (onLine st line) as [st1 events1] eqn:E1.
    destruct (onLines st1 rest) as [st2 events2] eqn:E2.
    inversion Hstep; subst; clear Hstep.
    rewrite app_assoc. eapply IH; [| exact E2].
    eapply Phase_onLine; eassumption.
Qed.

(** *** Finish reason and token count *)


Lemma meta_onToolCalls calls st :
  metaOf (fst (onToolCalls st calls)) = metaOf st.
Proof.
  revert st. induction calls as [|tc rest IH]; intros st; cbn [onToolCalls].
  - reflexivity.
  - destruct (onToolCall st tc) as [st1 events1] eqn:E1.
    specialize (IH st1).
    destruct (onToolCalls st1 rest) as [st2 events2]. simpl in *.
    rewrite IH. unfold onToolCall in E1. inversion E1; subst. reflexivity.
Qed.

Lemma meta_onContent st content :
  metaOf (fst (onContent st content)) = metaOf st.
Proof.
  unfold onContent. destruct content as [text|]; [| reflexivity].
  destruct (Js.truthy text); reflexivity.
Qed.

Lemma meta_closeTextBlock st :
  metaOf (fst (closeTextBlock st)) = metaOf st.
Proof.
  unfold closeTextBlock.
  destruct (textBlockStarted st && _); reflexivity.
Qed.

Lemma meta_onLine st line :
  metaOf (fst (onLine st line))
  = (reasonAfter (finishReason st) line, tokensAfter (outputTokens st) line).
Proof.
  destruct line as [|data]; [reflexivity |].
  cbn [onLine reasonAfter tokensAfter]. unfold onChunk.
  destruct (default [] (ch_choices data)) as [|choice others]; [reflexivity |].
  match goal with
  | |- context [onContent ?s ?c] =>
      pose proof (meta_onContent s c) as H1;
      destruct (onContent s c) as [st1 textEvents]
  end.
  simpl in H1.
  destruct (d_tool_calls (default emptyDelta (cc_delta choice))) as [calls|].
  - pose proof (meta_closeTextBlock st1) as H2.
    destruct (closeTextBlock st1) as [sa closing].
    pose proof (meta_onToolCalls calls sa) as H3.
    destruct (onToolCalls sa calls) as [sb toolEvents].
    simpl in *. unfold metaOf in *.
    inversion H1; inversion H2; inversion H3.
    destruct (ch_usage data); simpl; congruence.
  - simpl. unfold metaOf in *. inversion H1.
    destruct (ch_usage data); simpl; congruence.
Qed.

Lemma meta_onLines lines st :
  metaOf (fst (onLines st lines))
  = (fold_left reasonAfter lines (finishReason st),
     fold_left tokensAfter lines (outputTokens st)).
Proof.
  revert st. induction lines as [|line rest IH]; intros st; cbn [onLines].
  - reflexivity.
  - pose proof (meta_onLine st line) as H1.
    destruct (onLine st line) as [st1 events1].
    specialize (IH st1).
    destruct (onLines st1 rest) as [st2 events2].
    simpl in *. rewrite IH. unfold metaOf in H1. inversion H1. reflexivity.
Qed.

(** *** The end of the relay *)

Lemma onEnd_parts st :
  onEnd st
  = (map content_block_stop (closedAtEnd st) ++ synthesizedAtEnd st
     ++ [message_delta (Reason (finishReason st)) (outputTokens st); message_stop])%list.
Proof.
  unfold onEnd, closedAtEnd, synthesizedAtEnd.
  rewrite map_app, <- app_assoc.
  destruct (textBlockStarted st && _); reflexivity.
Qed.

Lemma closedAtEnd_NoDup st :
  NoDup (toolBlocksStarted st) -> NoDup (closedAtEnd st).
Proof.
  intros Hn. unfold closedAtEnd.
  destruct (textBlockStarted st); simpl; [| assumption].
  destruct (hasIndex _ _) eqn:E; simpl; [assumption |].
  apply hasIndex_false in E. now constructor.
Qed.

Lemma closedAtEnd_open st i : i ∈ closedAtEnd st <-> i ∈ stateOpen st.
Proof.
  unfold closedAtEnd, stateOpen.
  destruct (textBlockStarted st); simpl.
  - destruct (hasIndex _ _) eqn:E; simpl.
    + apply hasIndex_true in E. set_solver.
    + set_solver.
  - set_solver.
Qed.

Lemma fold_track_stops (indices : list nat) (open : gset nat) :
  fold_left track (map content_block_stop indices) open
  = open ∖ list_to_set indices.
Proof.
  revert open. induction indices as [|i rest IH]; intros open; simpl.
  - set_solver.
  - rewrite IH. set_solver.
Qed.

Lemma startIndices_stops indices :
  startIndices (map content_block_stop indices) = [].
Proof. induction indices; simpl; auto. Qed.

Lemma stopIndices_stops indices :
  stopIndices (map content_block_stop indices) = indices.
Proof. induction indices; simpl; congruence. Qed.

Lemma disciplined_stops (indices : list nat) (open : gset nat) :
  NoDup indices -> (forall i, i ∈ indices -> i ∈ open) ->
  disciplined open (map content_block_stop indices).
Proof.
  revert open. induction indices as [|i rest IH]; intros open Hn Hin; simpl.
  - exact I.
  - apply NoDup_cons in Hn as [Hi Hn]. split; [apply Hin; set_solver |].
    apply IH; [assumption |]. intros j Hj.
    assert (j <> i) by (intros ->; contradiction). set_solver.
Qed.

Lemma relay_reached (lines : list SseLine) :
  Relayed (fst (onLines initialState lines)) (snd (onLines initialState lines)).
Proof.
  destruct (onLines initialState lines) as [st relayed] eqn:E.
  apply (Relayed_onLines _ _ [] _ _ Relayed_initial E).
Qed.

(** ** Ordering of the streamed events *)

Section Synthesized.

Variable JSON_stringify : json -> string.

Lemma blockEvents_starts (content : list ReplyBlock) (n : nat) :
  startIndices (blockEvents JSON_stringify n content) = seq n (List.length content).
Proof.
  revert n. induction content as [|[text|id name input] rest IH]; intros n;
    simpl; [reflexivity | |]; now rewrite IH.
Qed.

Lemma blockEvents_stops (content : list ReplyBlock) (n : nat) :
  stopIndices (blockEvents JSON_stringify n content) = seq n (List.length content).
Proof.
  revert n. induction content as [|[text|id name input] rest IH]; intros n;
    simpl; [reflexivity | |]; now rewrite IH.
Qed.

Lemma blockEvents_lifecycle (content : list ReplyBlock) (n : nat)
    (tail : list Event) :
  lifecycle None (blockEvents JSON_stringify n content ++ tail)
  = lifecycle None tail.
Proof.
  revert n. induction content as [|[text|id name input] rest IH]; intros n;
    simpl; [reflexivity | |]; now rewrite Nat.eqb_refl, IH.
Qed.

Lemma blockEvents_blocks (content : list ReplyBlock) (n : nat) :
  forallb isBlockEvent (blockEvents JSON_stringify n content) = true.
Proof.
  revert n. induction content as [|[text|id name input] rest IH]; intros n;
    simpl; auto.
Qed.

Lemma increasing_seq (n k : nat) : increasing (seq n k) = true.
Proof.
  revert n. induction k as [|k IH]; intros n; [reflexivity |].
  simpl. destruct k as [|k']; [reflexivity |].
  specialize (IH (S n)). simpl in *. rewrite IH.
  now rewrite (proj2 (Nat.ltb_lt n (S n))) by lia.
Qed.

Lemma writeError_wellOrdered (msgId model message : string) :
  wellOrdered (message_start msgId model :: writeError message).
Proof.
  unfold wellOrdered, writeError. simpl. repeat split.
  exists msgId, model,
    [content_block_start 0 CbText; content_block_delta 0 (TextDelta message);
     content_block_stop 0], (Reason "end_turn"), 0.
  split; reflexivity.
Qed.

Lemma responseEvents_wellOrdered (msgId model : string)
    (response : ClaudeResponse) :
  wellOrdered (message_start msgId model :: responseEvents JSON_stringify response).
Proof.
  unfold wellOrdered, responseEvents.
  destruct (cr_content response) as [|block rest] eqn:E.
  - simpl. repeat split.
    exists msgId, model, [content_block_start 0 CbText; content_block_stop 0],
      (orEndTurn (cr_stop_reason response)),
      (cr_output_tokens response).
    split; reflexivity.
  - set (content := block :: rest).
    cbn [startIndices stopIndices flat_map lifecycle].
    fold (startIndices (blockEvents JSON_stringify 0 content ++
            [message_delta (orEndTurn (cr_stop_reason response))
               (cr_output_tokens response); message_stop])).
    fold (stopIndices (blockEvents JSON_stringify 0 content ++
            [message_delta (orEndTurn (cr_stop_reason response))
               (cr_output_tokens response); message_stop])).
    rewrite startIndices_app, stopIndices_app, blockEvents_starts,
      blockEvents_stops, blockEvents_lifecycle.
    simpl startIndices. simpl stopIndices. rewrite !app_nil_r.
    split; [reflexivity |]. split; [apply increasing_seq |].
    split; [reflexivity |].
    exists msgId, model, (blockEvents JSON_stringify 0 content),
      (orEndTurn (cr_stop_reason response)),
      (cr_output_tokens response).
    split; [reflexivity | apply blockEvents_blocks].
Qed.

Lemma synthesized_wellOrdered (JSON_parse : string -> option json)
    (parseResponse : string -> Parsed) (msgId fallbackId model : string)
    (result : DispatchResult) :
  wellOrdered
    (message_start msgId model
     :: synthesizedEvents JSON_stringify JSON_parse parseResponse fallbackId
          model result).
Proof.
  unfold synthesizedEvents.
  destruct result as [statusCode body options | message].
  - destruct (negb (statusCode =? 200)%nat); [apply writeError_wellOrdered |].
    destruct (parseResponse body) as [message | data].
    + apply writeError_wellOrdered.
    + apply responseEvents_wellOrdered.
  - apply writeError_wellOrdered.
Qed.

End Synthesized.

Lemma native_ordering (msgId model : string) (statusCode : nat)
    (errorBody : string) (lines : list SseLine) :
  let events :=
    handleStreaming msgId model (StreamResponse statusCode errorBody lines true) in
  closesLast events
  /\ disciplined ∅ events
  /\ (List.length (stopIndices events) <= List.length (startIndices events))%nat
  /\ (orderly lines = true ->
        List.length (startIndices events) = List.length (stopIndices events)
        /\ NoDup (startIndices events)).
Proof.
  intros events. subst events. unfold handleStreaming.
  destruct (negb (statusCode =? 200)%nat).
  { destruct (writeError_wellOrdered msgId model ("Error from Azure: " ++ errorBody))
      as (Hcount & _ & _ & Hlast).
    split; [exact Hlast |]. simpl.
    split; [repeat split; set_solver |].
    split; [lia |]. intros _. split; [reflexivity | apply NoDup_singleton]. }
  pose proof (relay_reached lines) as HR.
  assert (HP : orderly lines = true ->
               Phase (fst (onLines initialState lines))
                 (snd (onLines initialState lines)) []).
  { intros Hord. destruct (onLines initialState lines) as [s r] eqn:E.
    apply (Phase_onLines lines initialState [] s r); [| exact E].
    now apply TextPhase. }
  destruct (onLines initialState lines) as [st relayed]. simpl in HR, HP.
  destruct HR as [Ho Hn Hc Hd Hb].
  rewrite onEnd_parts.
  assert (Hsynth : synthesizedAtEnd st = []
                   \/ synthesizedAtEnd st
                      = [content_block_start 0 CbText; content_block_stop 0]).
  { unfold synthesizedAtEnd. destruct (_ && _); auto. }
  split.
  { exists msgId, model,
      (relayed ++ map content_block_stop (closedAtEnd st) ++ synthesizedAtEnd st)%list,
      (Reason (finishReason st)), (outputTokens st).
    split; [now rewrite <- !app_assoc |].
    rewrite !forallb_app, Hb. simpl.
    apply andb_true_iff. split.
    - induction (closedAtEnd st); simpl; auto.
    - destruct Hsynth as [-> | ->]; reflexivity. }
  split.
  { simpl. split; [exact I |].
    apply disciplined_app. split; [exact Hd |].
    fold (openBlocks relayed). rewrite Ho.
    apply disciplined_app. split.
    - apply disciplined_stops; [now apply closedAtEnd_NoDup |].
      intros i. apply closedAtEnd_open.
    - destruct Hsynth as [-> | ->]; simpl; repeat split; set_solver. }
  assert (Hstarts :
            startIndices
              (message_start msgId model
               :: relayed
                  ++ (map content_block_stop (closedAtEnd st)
                      ++ synthesizedAtEnd st
                      ++ [message_delta (Reason (finishReason st)) (outputTokens st);
                          message_stop]))
            = (startIndices relayed ++ startIndices (synthesizedAtEnd st))%list).
  { cbn [startIndices flat_map]. fold (startIndices
      (relayed ++ map content_block_stop (closedAtEnd st) ++ synthesizedAtEnd st
       ++ [message_delta (Reason (finishReason st)) (outputTokens st); message_stop])).
    rewrite !startIndices_app, startIndices_stops. simpl.
    now rewrite app_nil_r. }
  assert (Hstops :
            stopIndices
              (message_start msgId model
               :: relayed
                  ++ (map content_block_stop (closedAtEnd st)
                      ++ synthesizedAtEnd st
                      ++ [message_delta (Reason (finishReason st)) (outputTokens st);
                          message_stop]))
            = (stopIndices relayed ++ closedAtEnd st
               ++ stopIndices (synthesizedAtEnd st))%list).
  { cbn [stopIndices flat_map]. fold (stopIndices
      (relayed ++ map content_block_stop (closedAtEnd st) ++ synthesizedAtEnd st
       ++ [message_delta (Reason (finishReason st)) (outputTokens st); message_stop])).
    rewrite !stopIndices_app, stopIndices_stops. simpl.
    now rewrite app_nil_r. }
  rewrite Hstarts, Hstops, !length_app.
  unfold closedAtEnd, synthesizedAtEnd in *. rewrite length_app.
  split.
  { destruct (textBlockStarted st); simpl.
    - destruct (hasIndex _ _); simpl; lia.
    - destruct (toolBlocksStarted st); simpl in *; lia. }
  intros Hord. destruct (HP Hord) as [Htools Hcbi Hs _ | Htools [Ht Hnd Hbound] _].
  - rewrite Htools in *. rewrite Hs in Hc |- *. simpl in *.
    destruct (textBlockStarted st); simpl in *.
    + split; [lia | apply NoDup_singleton].
    + split; [lia | apply NoDup_singleton].
  - rewrite Ht in *. simpl in *.
    destruct (toolBlocksStarted st) as [|b tools]; [congruence |].
    simpl in *. rewrite app_nil_r. split; [lia | assumption].
Qed.

(** *** The relay on an orderly stream with one tool call *)

Lemma lifecycle_from (open : option nat) (events : list Event) :
  lifecycle open events = true <-> lifecycleFrom open events = Some None.
Proof.
  revert open. induction events as [|e rest IH]; intros open.
  - simpl. destruct open; split; congruence.
  - destruct e; simpl; try apply IH.
    + destruct open; [split; congruence | apply IH].
    + destruct open as [j|]; [| split; congruence].
      destruct (index =? j)%nat; simpl; [apply IH | split; congruence].
    + destruct open as [j|]; [| split; congruence].
      destruct (index =? j)%nat; simpl; [apply IH | split; congruence].
Qed.

Lemma lifecycleFrom_app (open : option nat) (a b : list Event) :
  lifecycleFrom open (a ++ b)
  = match lifecycleFrom open a with
    | Some open' => lifecycleFrom open' b
    | None => None
    end.
Proof.
  revert open. induction a as [|e rest IH]; intros open; [reflexivity |].
  destruct e; simpl; try apply IH.
  - destruct open; [reflexivity | apply IH].
  - destruct open as [j|]; [| reflexivity].
    destruct (index =? j)%nat; [apply IH | reflexivity].
  - destruct open as [j|]; [| reflexivity].
    destruct (index =? j)%nat; [apply IH | reflexivity].
Qed.

Lemma seq_snoc (n : nat) : seq 0 (n + 1) = (seq 0 n ++ [n])%list.
Proof. rewrite seq_app. reflexivity. Qed.

Lemma named_truthy (name : option string) (known : string) :
  Js.truthy_str name = true -> Js.truthy (Js.or_str name known) = true.
Proof.
  destruct name as [n|]; simpl; [| discriminate].
  intros H. now rewrite H.
Qed.

Lemma OneBlock_onToolCall st events block tc st' new :
  Js.or_nat (tcd_index tc) 0 = 0 ->
  OneBlock st events block -> onToolCall st tc = (st', new) ->
  exists block',
    OneBlock st' (events ++ new) block'
    /\ (block <> None -> block' <> None)
    /\ (Js.truthy_str (tcd_function tc ≫= fn_name) = true -> block' <> None).
Proof.
  intros Hzero [Ht Htools Hb Hs Hl] Hstep. unfold onToolCall in Hstep.
  rewrite Hzero, Nat.add_0_r, Htools in Hstep. unfold hasIndex in Hstep.
  destruct block as [b|].
  - (* the tool block is open *)
    pose proof (Hb b eq_refl) as ->.
    repeat (progress (simpl in Hstep;
                      rewrite ?Nat.eqb_refl, ?andb_true_r in Hstep)).
    inversion Hstep; subst; clear Hstep.
    exists (Some (currentBlockIndex st)).
    split; [| split; congruence].
    destruct (Js.truthy_str (tcd_function tc ≫= fn_arguments));
      split; simpl;
      rewrite ?app_nil_r, ?startIndices_app, ?lifecycleFrom_app, ?Hl; simpl;
      rewrite ?Nat.eqb_refl, ?app_nil_r; auto.
  - simpl in Hstep.
    match type of Hstep with
    | context [if Js.truthy ?x then _ else _] =>
        pose proof (named_truthy (tcd_function tc ≫= fn_name)
                      (acc_name
                         match toolCalls st !! 0 with
                         | Some toolCall => toolCall
                         | None =>
                             {| acc_id := Js.or_str (tcd_id tc) "";
                                acc_name := "";
                                acc_arguments := "" |}
                         end)) as Hname;
        destruct (Js.truthy x) eqn:Ename
    end.
    + repeat (progress (simpl in Hstep;
                        rewrite ?Nat.eqb_refl, ?andb_true_r in Hstep)).
      inversion Hstep; subst; clear Hstep.
      exists (Some (currentBlockIndex st)).
      split; [| split; congruence].
      destruct (Js.truthy_str (tcd_function tc ≫= fn_arguments));
        split; simpl;
        rewrite ?Htools, ?startIndices_app, ?lifecycleFrom_app, ?Hl, ?Hs; simpl;
        rewrite ?Nat.eqb_refl, ?Nat.add_0_r, ?seq_snoc, ?app_nil_r; auto;
        congruence.
    + simpl in Hstep. rewrite andb_false_r in Hstep.
      inversion Hstep; subst; clear Hstep.
      exists None. split; [| split; [congruence |]].
      * split; simpl; rewrite ?app_nil_r; auto.
      * intros H. apply Hname in H. simpl in H, Ename. congruence.
Qed.

Lemma OneBlock_onToolCalls calls st events block st' new :
  forallb (fun tc => (Js.or_nat (tcd_index tc) 0 =? 0)%nat) calls = true ->
  OneBlock st events block -> onToolCalls st calls = (st', new) ->
  exists block',
    OneBlock st' (events ++ new) block'
    /\ (block <> None -> block' <> None)
    /\ (existsb (fun tc => Js.truthy_str (tcd_function tc ≫= fn_name)) calls = true ->
          block' <> None).
Proof.
  revert st events block st' new.
  induction calls as [|tc rest IH]; intros st events block st' new Hzero HO Hstep;
    cbn [onToolCalls] in Hstep.
  - inversion Hstep; subst. rewrite app_nil_r. exists block. simpl. auto.
  - simpl in Hzero. apply andb_true_iff in Hzero as [Hz Hzero].
    apply Nat.eqb_eq in Hz.
    destruct (onToolCall st tc) as [st1 events1] eqn:E1.
    destruct (onToolCalls st1 rest) as [st2 events2] eqn:E2.
    inversion Hstep; subst; clear Hstep.
    destruct (OneBlock_onToolCall _ _ _ _ _ _ Hz HO E1) as (b1 & HO1 & Hm1 & Hn1).
    destruct (IH _ _ _ _ _ Hzero HO1 E2) as (b2 & HO2 & Hm2 & Hn2).
    exists b2. rewrite app_assoc. split; [exact HO2 |]. split; [auto |].
    simpl. intros H. apply orb_true_iff in H as [H | H]; auto.
Qed.

Lemma OneBlock_meta st events block reason tokens :
  OneBlock st events block ->
  OneBlock
    {| outputTokens := tokens; finishReason := reason;
       textBlockStarted := textBlockStarted st;
       currentBlockIndex := currentBlockIndex st;
       toolCalls := toolCalls st;
       toolBlocksStarted := toolBlocksStarted st |}
    events block.
Proof. intros [H1 H2 H3 H4 H5]. split; assumption. Qed.

Lemma Phase1_meta st events lines reason tokens :
  Phase1 st events lines ->
  Phase1
    {| outputTokens := tokens; finishReason := reason;
       textBlockStarted := textBlockStarted st;
       currentBlockIndex := currentBlockIndex st;
       toolCalls := toolCalls st;
       toolBlocksStarted := toolBlocksStarted st |}
    events lines.
Proof.
  intros [H1 H2 H3 H4 H5 | b H1 H2].
  - now apply TextPhase1.
  - apply (ToolPhase1 _ _ _ b); auto. now apply OneBlock_meta.
Qed.

Lemma Phase1_skip st events line rest :
  Phase1 st events (line :: rest) ->
  d_tool_calls (lineDelta line) = None ->
  carriesText line = false ->
  Phase1 st events rest.
Proof.
  intros [H1 H2 H3 H4 H5 | b H1 H2] Hnone Hnt.
  - apply TextPhase1; auto. apply orderly_cons in H5. now rewrite Hnone in H5.
  - apply (ToolPhase1 _ _ _ b); auto. now apply noText_cons in H2.
Qed.

Lemma TextPhase1_onContent st events content st1 textEvents :
  toolBlocksStarted st = [] -> currentBlockIndex st = 0 ->
  startIndices events = (if textBlockStarted st then [0] else []) ->
  lifecycleFrom None events = Some (if textBlockStarted st then Some 0 else None) ->
  onContent st content = (st1, textEvents) ->
  toolBlocksStarted st1 = [] /\ currentBlockIndex st1 = 0
  /\ startIndices (events ++ textEvents)
     = (if textBlockStarted st1 then [0] else [])
  /\ lifecycleFrom None (events ++ textEvents)
     = Some (if textBlockStarted st1 then Some 0 else None).
Proof.
  intros Htools Hcbi Hstarts Hlife E1. unfold onContent in E1.
  destruct content as [text|];
    [| inversion E1; subst; rewrite app_nil_r; auto].
  destruct (Js.truthy text);
    [| inversion E1; subst; rewrite app_nil_r; auto].
  inversion E1; subst; clear E1. simpl.
  rewrite startIndices_app, lifecycleFrom_app, Hstarts, Hlife, Hcbi.
  destruct (textBlockStarted st); simpl; auto.
Qed.

Lemma TextPhase1_closeTextBlock st events sa closing :
  toolBlocksStarted st = [] -> currentBlockIndex st = 0 ->
  startIndices events = (if textBlockStarted st then [0] else []) ->
  lifecycleFrom None events = Some (if textBlockStarted st then Some 0 else None) ->
  closeTextBlock st = (sa, closing) ->
  OneBlock sa (events ++ closing) None.
Proof.
  intros Htools Hcbi Hstarts Hlife Ea. unfold closeTextBlock in Ea.
  rewrite Htools in Ea. simpl in Ea. rewrite andb_true_r in Ea.
  destruct (textBlockStarted st) eqn:Et; inversion Ea; subst; clear Ea;
    split; simpl;
    rewrite ?startIndices_app, ?lifecycleFrom_app, ?Hstarts, ?Hlife, ?Hcbi,
      ?app_nil_r; simpl; auto; congruence.
Qed.

Lemma Phase1_onLine st events line rest st' new :
  forallb (fun tc => (Js.or_nat (tcd_index tc) 0 =? 0)%nat)
    (default [] (d_tool_calls (lineDelta line))) = true ->
  Phase1 st events (line :: rest) -> onLine st line = (st', new) ->
  Phase1 st' (events ++ new) rest.
Proof.
  intros Hzero HP Hstep.
  destruct line as [|data]; cbn [onLine] in Hstep.
  { inversion Hstep; subst. rewrite app_nil_r.
    now apply (Phase1_skip _ _ Skipped). }
  unfold onChunk in Hstep.
  destruct (default [] (ch_choices data)) as [|choice others] eqn:Echoices.
  { inversion Hstep; subst. rewrite app_nil_r.
    apply (Phase1_skip _ _ (Data data)); [assumption | |];
      unfold carriesText; simpl; now rewrite Echoices. }
  assert (Hdelta : lineDelta (Data data) = default emptyDelta (cc_delta choice)).
  { simpl. now rewrite Echoices. }
  rewrite Hdelta in Hzero.
  set (delta := default emptyDelta (cc_delta choice)) in *.
  apply (Phase1_meta _ _ _
           (nextFinishReason (finishReason st) (cc_finish_reason choice))
           (outputTokens st)) in HP.
  match type of Hstep with
  | context [onContent ?s ?c] => set (st0 := s) in *
  end.
  destruct (onContent st0 (d_content delta)) as [st1 textEvents] eqn:E1.
  destruct HP as [Htools Hcbi Hstarts Hlife Hord | b HO Hnt].
  - (* text phase *)
    destruct (TextPhase1_onContent _ _ _ _ _ Htools Hcbi Hstarts Hlife E1)
      as (Ht1 & Hc1 & Hs1 & Hl1).
    apply orderly_cons in Hord. rewrite Hdelta in Hord.
    destruct (d_tool_calls delta) as [calls|] eqn:Ecalls.
    + destruct Hord as [Hnamed Hnt].
      unfold namesTool in Hnamed. rewrite Hdelta, Ecalls in Hnamed.
      destruct (closeTextBlock st1) as [sa closing] eqn:Ea.
      destruct (onToolCalls sa calls) as [sb toolEvents] eqn:Eb.
      inversion Hstep; subst; clear Hstep.
      pose proof (TextPhase1_closeTextBlock _ _ _ _ Ht1 Hc1 Hs1 Hl1 Ea) as HOa.
      destruct (OneBlock_onToolCalls _ _ _ _ _ _ Hzero HOa Eb)
        as (block & HOb & _ & Hne).
      destruct block as [b|]; [| now destruct (Hne Hnamed)].
      rewrite !app_assoc.
      apply (ToolPhase1 _ _ _ b); [| assumption].
      now apply OneBlock_meta.
    + inversion Hstep; subst; clear Hstep. rewrite app_nil_r.
      apply TextPhase1; simpl; auto.
  - (* tool phase *)
    apply noText_cons in Hnt as [Hnt Hrest].
    unfold carriesText in Hnt. rewrite Hdelta in Hnt.
    rewrite onContent_silent in E1 by exact Hnt.
    inversion E1; subst st1 textEvents; clear E1.
    destruct (d_tool_calls delta) as [calls|] eqn:Ecalls.
    + rewrite ToolsOnly_closeTextBlock in Hstep by (now destruct HO).
      destruct (onToolCalls st0 calls) as [sb toolEvents] eqn:Eb.
      inversion Hstep; subst; clear Hstep. simpl.
      destruct (OneBlock_onToolCalls _ _ _ _ _ _ Hzero HO Eb)
        as (block & HOb & Hmono & _).
      destruct block as [b'|]; [| now destruct Hmono].
      apply (ToolPhase1 _ _ _ b'); [| assumption].
      now apply OneBlock_meta.
    + inversion Hstep; subst; clear Hstep. simpl. rewrite app_nil_r.
      apply (ToolPhase1 _ _ _ b); [| assumption].
      destruct HO as [A B C D E]. split; simpl; auto.
Qed.

Lemma Phase1_onLines lines st events st' new :
  singleTool lines = true ->
  Phase1 st events lines -> onLines st lines = (st', new) ->
  Phase1 st' (events ++ new) [].
Proof.
  revert st events st' new.
  induction lines as [|line rest IH]; intros st events st' new Hsingle HP Hstep;
    cbn [onLines] in Hstep.
  - inversion Hstep; subst. rewrite app_nil_r. exact HP.
  - unfold singleTool in Hsingle. simpl in Hsingle.
    apply andb_true_iff in Hsingle as [Hzero Hsingle].
    destruct (onLine st line) as [st1 events1] eqn:E1.
    destruct (onLines st1 rest) as [st2 events2] eqn:E2.
    inversion Hstep; subst; clear Hstep.
    rewrite app_assoc. eapply IH; [exact Hsingle | | exact E2].
    eapply Phase1_onLine; eassumption.
Qed.

(** On an orderly stream with one tool call the native relay keeps the
    one-block-at-a-time lifecycle and numbers its blocks 0, 1. *)
Lemma native_single_tool (msgId model errorBody : string) (lines : list SseLine) :
  orderly lines = true -> singleTool lines = true ->
  let events :=
    handleStreaming msgId model (StreamResponse 200 errorBody lines true) in
  increasing (startIndices events) = true /\ lifecycle None events = true.
Proof.
  intros Hord Hsingle events. subst events. unfold handleStreaming. simpl.
  assert (HP : Phase1 (fst (onLines initialState lines))
                 (snd (onLines initialState lines)) []).
  { destruct (onLines initialState lines) as [s r] eqn:E.
    apply (Phase1_onLines lines initialState [] s r); [assumption | | exact E].
    now apply TextPhase1. }
  destruct (onLines initialState lines) as [st relayed]. simpl in HP.
  rewrite lifecycle_from. unfold onEnd.
  cbn [startIndices flat_map lifecycleFrom].
  fold (startIndices
          (relayed
           ++ (if textBlockStarted st
                  && negb (hasIndex (currentBlockIndex st) (toolBlocksStarted st))
               then [content_block_stop (currentBlockIndex st)] else [])
           ++ map content_block_stop (toolBlocksStarted st)
           ++ (if negb (textBlockStarted st)
                  && (List.length (toolBlocksStarted st) =? 0)%nat
               then [content_block_start 0 CbText; content_block_stop 0] else [])
           ++ [message_delta (Reason (finishReason st)) (outputTokens st); message_stop])).
  rewrite !startIndices_app, !lifecycleFrom_app, startIndices_stops.
  destruct HP as [Htools Hcbi Hs Hl _ | b [Ht Htools Hb Hs Hl] _].
  - rewrite Htools, Hcbi, Hs, Hl. unfold hasIndex.
    destruct (textBlockStarted st); simpl; auto.
  - pose proof (Hb b eq_refl) as ->.
    rewrite Ht, Htools, Hs, Hl. simpl. rewrite Nat.eqb_refl. simpl.
    rewrite !app_nil_r. split; [apply increasing_seq | reflexivity].
Qed.

(** ** C5: the end of a native stream *)

(** The finish reason the relay holds is the one of the last finish reason
    reported, and its token count the last one reported. *)
Lemma reasons_fold (lines : list SseLine) (reason : string) :
  fold_left reasonAfter lines reason
  = match last (finishReasons lines) with
    | Some r => streamStopReason (Some r)
    | None => reason
    end.
Proof.
  revert reason. induction lines as [|line rest IH]; intros reason; [reflexivity |].
  cbn [fold_left]. rewrite IH. unfold finishReasons. cbn [flat_map].
  fold (finishReasons rest). rewrite last_app.
  destruct (last (finishReasons rest)) as [r|]; [reflexivity |].
  destruct line as [|data]; [reflexivity |]. cbn [reasonAfter].
  destruct (default [] (ch_choices data)) as [|choice others]; [reflexivity |].
  unfold nextFinishReason.
  destruct (cc_finish_reason choice) as [r|]; [| reflexivity].
  destruct (Js.truthy r); reflexivity.
Qed.

Lemma tokens_fold (lines : list SseLine) (tokens : nat) :
  fold_left tokensAfter lines tokens
  = default tokens (last (reportedTokens lines)).
Proof.
  revert tokens. induction lines as [|line rest IH]; intros tokens; [reflexivity |].
  cbn [fold_left]. rewrite IH. unfold reportedTokens. cbn [flat_map].
  fold (reportedTokens rest). rewrite last_app.
  destruct (last (reportedTokens rest)) as [n|]; [reflexivity |].
  destruct line as [|data]; [reflexivity |]. cbn [tokensAfter].
  destruct (default [] (ch_choices data)) as [|choice others]; [reflexivity |].
  destruct (ch_usage data) as [usage|]; [| reflexivity].
  destruct (completion_tokens usage) as [[|n]|]; reflexivity.
Qed.

(** C5 (amended). When a native stream has been read to its end, the relay
    writes one content_block_stop for every block index that is still
    open, each index once.  On a stream in the usual order (text first,
    the first chunk with tool calls names one, no text after it) no index
    is started twice and there are as many stops as starts, so every block
    is closed.  If no block was ever opened the relay writes an empty text
    block (start then stop at index 0), so the client sees at least one
    block.  Then it writes one message_delta, with the stop reason of the
    last finish_reason that was reported (tool_calls is tool_use, length is
    max_tokens, any other is end_turn, and end_turn when none was
    reported) and with the last non-zero completion_tokens reported on a
    chunk that has a choice (0 when there is none), then one message_stop,
    and nothing else. *)
Theorem stream_end_sequence (msgId model errorBody : string)
    (lines : list SseLine) :
  let relayed := snd (onLines initialState lines) in
  let events :=
    handleStreaming msgId model (StreamResponse 200 errorBody lines true) in
  exists closing synthesized,
    events
    = (message_start msgId model :: relayed
       ++ map content_block_stop closing ++ synthesized
       ++ [message_delta
             (Reason (streamStopReason (last (finishReasons lines))))
             (default 0 (last (reportedTokens lines)));
           message_stop])%list
    /\ forallb isBlockEvent relayed = true
    /\ NoDup closing
    /\ (forall i, i ∈ closing <-> i ∈ openBlocks relayed)
    /\ (startIndices relayed = [] ->
          synthesized = [content_block_start 0 CbText; content_block_stop 0])
    /\ (synthesized = []
        \/ synthesized = [content_block_start 0 CbText; content_block_stop 0])
    /\ startIndices (relayed ++ synthesized) <> []
    /\ openBlocks (relayed ++ map content_block_stop closing ++ synthesized) = ∅
    /\ (orderly lines = true ->
          NoDup (startIndices events)
          /\ List.length (startIndices events) = List.length (stopIndices events)).
Proof.
  intros relayed events.
  set (st := fst (onLines initialState lines)).
  pose proof (relay_reached lines) as [Ho Hn Hc Hd Hb].
  fold st relayed in Ho, Hn, Hc, Hd, Hb.
  pose proof (meta_onLines lines initialState) as Hmeta.
  fold st in Hmeta. unfold metaOf in Hmeta. simpl in Hmeta.
  rewrite reasons_fold, tokens_fold in Hmeta.
  injection Hmeta as Hreason Htokens.
  exists (closedAtEnd st), (synthesizedAtEnd st).
  split.
  { subst events. unfold handleStreaming. simpl.
    unfold st, relayed in *. destruct (onLines initialState lines) as [s r].
    simpl in *. rewrite onEnd_parts, Hreason, Htokens.
    destruct (last (finishReasons lines)); reflexivity. }
  split; [exact Hb |].
  split; [now apply closedAtEnd_NoDup |].
  split; [intros i; rewrite Ho; apply closedAtEnd_open |].
  assert (Hsynth : synthesizedAtEnd st = []
                   \/ synthesizedAtEnd st
                      = [content_block_start 0 CbText; content_block_stop 0]).
  { unfold synthesizedAtEnd. destruct (_ && _); auto. }
  split.
  { intros Hnone. rewrite Hnone in Hc. simpl in Hc.
    unfold synthesizedAtEnd.
    destruct (textBlockStarted st); [lia |].
    destruct (toolBlocksStarted st); [reflexivity | simpl in Hc; lia]. }
  split; [exact Hsynth |].
  split.
  { rewrite startIndices_app. unfold synthesizedAtEnd.
    destruct (textBlockStarted st) eqn:Et; simpl.
    - rewrite app_nil_r. intros E. rewrite E in Hc. simpl in Hc. lia.
    - destruct (toolBlocksStarted st) as [|b tools] eqn:Etools; simpl.
      + intros E. apply app_eq_nil in E as [_ E]. discriminate.
      + rewrite app_nil_r. intros E. rewrite E in Hc. simpl in Hc. lia. }
  split.
  { rewrite openBlocks_app, fold_left_app, fold_track_stops, Ho.
    assert (Hclosed : stateOpen st ∖ list_to_set (closedAtEnd st) = (∅ : gset nat)).
    { apply set_eq. intros i. rewrite elem_of_difference, elem_of_list_to_set,
        closedAtEnd_open. set_solver. }
    rewrite Hclosed.
    destruct Hsynth as [-> | ->]; simpl; set_solver. }
  intros Hord.
  destruct (native_ordering msgId model 200 errorBody lines)
    as (_ & _ & _ & Horderly).
  destruct (Horderly Hord) as [Hcount Hnodup]. auto.
Qed.

(** C5, as stated, fails on the code.  With text after a tool call the
    text block takes the index of the tool block, which is still open, and
    the end of the stream writes one stop for the two: two blocks were
    started and one is closed.  And the usage that the backend reports on
    a chunk of its own, without choices, is not read: the message_delta
    carries 0 where 42 tokens were reported. *)
Lemma text_block_left_open :
  handleStreaming "msg_1" "claude-sonnet-4"
    (StreamResponse 200 "" Sample.textAfterTool true)
  = [message_start "msg_1" "claude-sonnet-4";
     content_block_start 0 (CbToolUse "call_a" "read");
     content_block_delta 0 (InputJsonDelta "{}");
     content_block_start 0 CbText;
     content_block_delta 0 (TextDelta "done");
     content_block_stop 0;
     message_delta (Reason "end_turn") 0;
     message_stop]
  /\ List.length
       (startIndices
          (handleStreaming "msg_1" "claude-sonnet-4"
             (StreamResponse 200 "" Sample.textAfterTool true))) = 2
  /\ List.length
       (stopIndices
          (handleStreaming "msg_1" "claude-sonnet-4"
             (StreamResponse 200 "" Sample.textAfterTool true))) = 1
  /\ handleStreaming "msg_1" "claude-sonnet-4"
       (StreamResponse 200 "" Sample.usageAtEnd true)
     = [message_start "msg_1" "claude-sonnet-4";
        content_block_start 0 CbText;
        content_block_delta 0 (TextDelta "hi");
        content_block_stop 0;
        message_delta (Reason "end_turn") 0;
        message_stop].
Proof. repeat split. Qed.

(** ** C3: the ordering invariant on both paths *)

(** *** Tool blocks stay open while the stream is relayed *)

Lemma toolsStayOpen_app (started : bool) (a b : list Event) :
  toolsStayOpen started (a ++ b)
  = toolsStayOpen started a && toolsStayOpen (started || toolStarted a) b.
Proof.
  revert started. induction a as [|e a IH]; intros started.
  - cbn. now rewrite orb_false_r.
  - destruct e as [| i [| id name] | | | |];
      cbn [app toolsStayOpen toolStarted existsb]; fold (toolStarted a);
      rewrite ?IH, ?orb_false_l, ?orb_true_r, ?orb_true_l, ?andb_assoc;
      reflexivity.
Qed.

Lemma toolStarted_app (a b : list Event) :
  toolStarted (a ++ b) = toolStarted a || toolStarted b.
Proof. apply existsb_app. Qed.

Lemma keepsOpen_onContent st content : keepsOpen st (onContent st content).
Proof.
  unfold keepsOpen, onContent, inToolPhase.
  destruct content as [text|]; [| cbn; now rewrite orb_false_r].
  destruct (Js.truthy text); [| cbn; now rewrite orb_false_r].
  destruct (textBlockStarted st); cbn; now rewrite orb_false_r.
Qed.

Lemma keepsOpen_closeTextBlock st : keepsOpen st (closeTextBlock st).
Proof.
  unfold keepsOpen, closeTextBlock, inToolPhase.
  destruct (textBlockStarted st); cbn [andb];
    [| cbn; now rewrite orb_false_r].
  destruct (List.length (toolBlocksStarted st) =? 0)%nat eqn:E;
    cbn; rewrite ?E, ?orb_false_r; split; reflexivity.
Qed.

Lemma keepsOpen_onToolCall st tc : keepsOpen st (onToolCall st tc).
Proof.
  unfold keepsOpen, onToolCall, inToolPhase. cbn [fst snd toolBlocksStarted].
  destruct (negb (hasIndex _ _) && Js.truthy _).
  - rewrite length_app. cbn [List.length].
    replace (List.length (toolBlocksStarted st) + 1 =? 0)%nat with false
      by (symmetry; apply Nat.eqb_neq; lia).
    destruct (Js.truthy_str _ && hasIndex _ _); cbn; now rewrite orb_true_r.
  - destruct (Js.truthy_str _ && hasIndex _ _); cbn; now rewrite orb_false_r.
Qed.

(** Steps in a row. *)
Lemma keepsOpen_then st st1 events1 st2 events2 :
  keepsOpen st (st1, events1) -> keepsOpen st1 (st2, events2) ->
  keepsOpen st (st2, (events1 ++ events2)%list).
Proof.
  unfold keepsOpen. cbn [fst snd]. intros [H1 P1] [H2 P2].
  rewrite toolsStayOpen_app, toolStarted_app, H1, <- P1, H2, P2, P1.
  split; [reflexivity | now rewrite orb_assoc].
Qed.

Lemma keepsOpen_onToolCalls calls st : keepsOpen st (onToolCalls st calls).
Proof.
  revert st. induction calls as [|tc rest IH]; intros st; cbn [onToolCalls].
  - unfold keepsOpen. cbn. now rewrite orb_false_r.
  - pose proof (keepsOpen_onToolCall st tc) as H1.
    destruct (onToolCall st tc) as [st1 events1].
    specialize (IH st1). destruct (onToolCalls st1 rest) as [st2 events2].
    now apply (keepsOpen_then st st1 events1).
Qed.

Lemma keepsOpen_onLine st line : keepsOpen st (onLine st line).
Proof.
  destruct line as [|data]; [unfold keepsOpen; cbn; now rewrite orb_false_r |].
  cbn [onLine]. unfold onChunk.
  destruct (default [] (ch_choices data)) as [|choice others];
    [unfold keepsOpen; cbn; now rewrite orb_false_r |].
  match goal with
  | |- context [onContent ?s ?c] =>
      pose proof (keepsOpen_onContent s c) as Htext;
      destruct (onContent s c) as [st1 textEvents]
  end.
  assert (Hstep : forall stA stB ev,
            keepsOpen stA (stB, ev) ->
            inToolPhase stA = inToolPhase st ->
            forall tokens,
              keepsOpen st
                ({| outputTokens := tokens;
                    finishReason := finishReason stB;
                    textBlockStarted := textBlockStarted stB;
                    currentBlockIndex := currentBlockIndex stB;
                    toolCalls := toolCalls stB;
                    toolBlocksStarted := toolBlocksStarted stB |}, ev)).
  { intros stA stB ev [H P] Heq tokens. unfold keepsOpen in *.
    cbn [fst snd] in *. rewrite <- Heq. split; [exact H | exact P]. }
  destruct (d_tool_calls _) as [calls|].
  - pose proof (keepsOpen_closeTextBlock st1) as Hclose.
    destruct (closeTextBlock st1) as [sa closing].
    pose proof (keepsOpen_onToolCalls calls sa) as Htools.
    destruct (onToolCalls sa calls) as [sb events].
    eapply Hstep; [| reflexivity].
    eapply keepsOpen_then; [exact Htext |].
    eapply keepsOpen_then; [exact Hclose | exact Htools].
  - eapply Hstep; [| reflexivity].
    eapply keepsOpen_then; [exact Htext |].
    unfold keepsOpen. cbn. now rewrite orb_false_r.
Qed.

Lemma keepsOpen_onLines lines st : keepsOpen st (onLines st lines).
Proof.
  revert st. induction lines as [|line rest IH]; intros st; cbn [onLines].
  - unfold keepsOpen. cbn. now rewrite orb_false_r.
  - pose proof (keepsOpen_onLine st line) as H1.
    destruct (onLine st line) as [st1 events1].
    specialize (IH st1). destruct (onLines st1 rest) as [st2 events2].
    now apply (keepsOpen_then st st1 events1).
Qed.

Lemma relay_toolsStayOpen (lines : list SseLine) :
  toolsStayOpen false (snd (onLines initialState lines)) = true.
Proof. apply (keepsOpen_onLines lines initialState). Qed.

(** C3 (amended). The synthesized path keeps the whole ordering invariant:
    as many block starts as stops, start indices strictly increasing, one
    block at a time (start, its deltas, its stop), message_delta and
    message_stop last.  When the backend response has been read to its
    end the native relay ends with message_delta and message_stop; it
    writes deltas and stops only for an index that a start has opened and
    no stop has closed yet, and never more stops than starts.  On an
    orderly backend stream (text first, the first chunk with tool calls
    names one, no text after it) it writes as many starts as stops and
    never reuses an index, and when the stream carries one tool call at
    most it keeps the whole ordering invariant too.  When the response
    breaks off or the request fails, neither message_delta nor
    message_stop is written: the stream is message_start and block events.
    Tool blocks stay open until the stream ends: while the stream is
    relayed no content_block_stop is written once a tool block has
    started, so with several tool calls a block's stop does not precede
    the next start. *)
Theorem stream_ordering :
  (forall (JSON_stringify : json -> string) (JSON_parse : string -> option json)
          (parseResponse : string -> Parsed)
          (requestJson : RequestOptions -> Payload -> Outcome)
          (msgId fallbackId model : string)
          (optionsList : list RequestOptions) (openaiReq : Payload),
      wellOrdered
        (snd (handleStreamingFromNonStreaming JSON_stringify JSON_parse
                parseResponse requestJson msgId fallbackId optionsList
                openaiReq model)))
  /\ (forall (msgId model : string) (statusCode : nat) (errorBody : string)
             (lines : list SseLine),
        let events :=
          handleStreaming msgId model
            (StreamResponse statusCode errorBody lines true) in
        closesLast events
        /\ disciplined ∅ events
        /\ (List.length (stopIndices events)
            <= List.length (startIndices events))%nat
        /\ (orderly lines = true ->
              List.length (startIndices events)
              = List.length (stopIndices events)
              /\ NoDup (startIndices events))
        /\ (orderly lines = true -> singleTool lines = true ->
              wellOrdered events))
  /\ (forall (msgId model : string) (outcome : StreamOutcome),
        completed outcome = false ->
        exists body,
          handleStreaming msgId model outcome = message_start msgId model :: body
          /\ forallb isBlockEvent body = true
          /\ disciplined ∅ body)
  /\ (forall (msgId model errorBody : string) (lines : list SseLine),
        toolsStayOpen false
          (handleStreaming msgId model (StreamResponse 200 errorBody lines false))
        = true).
Proof.
  split; [| split; [| split]].
  - intros. unfold handleStreamingFromNonStreaming.
    destruct (requestWithFallback requestJson optionsList openaiReq)
      as [attempts result].
    apply synthesized_wellOrdered.
  - intros msgId model statusCode errorBody lines events.
    destruct (native_ordering msgId model statusCode errorBody lines)
      as (Hlast & Hdisc & Hle & Hord).
    fold events in Hlast, Hdisc, Hle, Hord.
    split; [exact Hlast |]. split; [exact Hdisc |]. split; [exact Hle |].
    split; [exact Hord |].
    intros Horderly Hsingle.
    destruct (Nat.eqb_spec statusCode 200) as [-> | Hne].
    + destruct (native_single_tool msgId model errorBody lines Horderly Hsingle)
        as [Hinc Hlife].
      fold events in Hinc, Hlife.
      destruct (Hord Horderly) as [Hcount _].
      repeat split; assumption.
    + subst events. unfold handleStreaming.
      apply Nat.eqb_neq in Hne. rewrite Hne. simpl.
      apply writeError_wellOrdered.
  - intros msgId model outcome Hopen. unfold handleStreaming.
    destruct outcome as [statusCode errorBody lines ended | message];
      [| exists []; repeat split].
    cbn [completed] in Hopen. subst ended.
    destruct (negb (statusCode =? 200)%nat); [exists []; repeat split |].
    pose proof (relay_reached lines) as [_ _ _ Hd Hb].
    destruct (onLines initialState lines) as [st relayed]. cbn [fst snd] in *.
    exists relayed. auto.
  - intros msgId model errorBody lines. unfold handleStreaming.
    cbn [Nat.eqb negb toolsStayOpen].
    pose proof (relay_toolsStayOpen lines) as H.
    destruct (onLines initialState lines) as [st relayed]. exact H.
Qed.

(** The orderly case of the theorem is not empty: text, then one tool
    call, comes out in full order. *)
Example orderly_stream :
  orderly Sample.textThenTool = true
  /\ singleTool Sample.textThenTool = true
  /\ handleStreaming "msg_1" "claude-sonnet-4"
       (StreamResponse 200 "" Sample.textThenTool true)
     = [message_start "msg_1" "claude-sonnet-4";
        content_block_start 0 CbText;
        content_block_delta 0 (TextDelta "Let me look.");
        content_block_stop 0;
        content_block_start 1 (CbToolUse "call_a" "read");
        content_block_delta 1 (InputJsonDelta "{}");
        content_block_stop 1;
        message_delta (Reason "tool_use") 0;
        message_stop].
Proof. repeat split. Qed.

(** C3, as stated, fails on the native relay.  With two tool calls in one
    reply the first block is still open when the second starts, and both
    are closed at the end.  With text after a tool call the text block
    takes the index of the tool block over and only one of the two is
    closed. *)
Lemma native_relay_out_of_order :
  handleStreaming "msg_1" "claude-sonnet-4"
    (StreamResponse 200 "" Sample.parallelTools true)
  = [message_start "msg_1" "claude-sonnet-4";
     content_block_start 0 (CbToolUse "call_a" "read");
     content_block_delta 0 (InputJsonDelta "{}");
     content_block_start 1 (CbToolUse "call_b" "list");
     content_block_delta 1 (InputJsonDelta "{}");
     content_block_stop 0;
     content_block_stop 1;
     message_delta (Reason "tool_use") 0;
     message_stop]
  /\ lifecycle None
       (handleStreaming "msg_1" "claude-sonnet-4"
          (StreamResponse 200 "" Sample.parallelTools true))
     = false
  /\ startIndices
       (handleStreaming "msg_1" "claude-sonnet-4"
          (StreamResponse 200 "" Sample.textAfterTool true))
     = [0; 0]
  /\ stopIndices
       (handleStreaming "msg_1" "claude-sonnet-4"
          (StreamResponse 200 "" Sample.textAfterTool true))
     = [0]
  /\ (exists lines,
        ~ wellOrdered
            (handleStreaming "msg_1" "claude-sonnet-4"
               (StreamResponse 200 "" lines true))).
Proof.
  repeat split.
  exists Sample.parallelTools. intros (_ & _ & Hlife & _).
  vm_compute in Hlife. discriminate.
Qed.

(** ** The reference codec reads back what it writes *)

Section Codec.

Import JsonText.

Lemma readString_escapeChar (c : ascii) (t text after : string) :
  readString t = Some (text, after) ->
  readString (escapeChar c ++ t) = Some (String c text, after).
Proof.
  intros H.
  destruct c as [[] [] [] [] [] [] [] []];
    vm_compute escapeChar; rewrite ?append_cons, ?append_nil;
    cbn [readString]; cbn; rewrite H; reflexivity.
Qed.

Lemma append_assoc (a b c : string) : ((a ++ b) ++ c)%string = (a ++ b ++ c)%string.
Proof.
  induction a as [|x a IH]; [reflexivity |].
  rewrite !append_cons. now rewrite IH.
Qed.

Lemma readString_escape (s rest : string) :
  readString (escape s ++ String dquote rest) = Some (s, rest).
Proof.
  induction s as [|c s IH]; cbn [escape].
  - rewrite append_nil. reflexivity.
  - rewrite append_assoc. now apply readString_escapeChar.
Qed.

(** Numbers. *)

Lemma string_of_uint_digits (d : Decimal.uint) (rest : string) :
  (rest = EmptyString \/ exists c r, rest = String c r /\ isNumberChar c = false) ->
  spanNumber (NilEmpty.string_of_uint d ++ rest) = (NilEmpty.string_of_uint d, rest).
Proof.
  intros Hrest.
  induction d as [|d IH|d IH|d IH|d IH|d IH|d IH|d IH|d IH|d IH|d IH];
    cbn [NilEmpty.string_of_uint];
    rewrite ?append_cons, ?append_nil;
    try (cbn [spanNumber]; rewrite IH; reflexivity).
  destruct Hrest as [-> | (c & r & -> & Hc)]; cbn [spanNumber]; [reflexivity |].
  now rewrite Hc.
Qed.

Lemma printZ_span (n : Z) (rest : string) :
  (rest = EmptyString \/ exists c r, rest = String c r /\ isNumberChar c = false) ->
  spanNumber (printZ n ++ rest) = (printZ n, rest).
Proof.
  intros Hrest. unfold printZ, NilZero.string_of_int, NilZero.string_of_uint.
  destruct (Z.to_int n) as [d | d].
  - destruct d; try (now apply string_of_uint_digits).
    rewrite append_cons, append_nil. cbn [spanNumber].
    change (isNumberChar "0") with true. cbn iota.
    destruct Hrest as [-> | (c & r & -> & Hc)]; cbn [spanNumber]; [reflexivity |].
    now rewrite Hc.
  - rewrite append_cons. cbn [spanNumber].
    change (isNumberChar "-") with true. cbn iota.
    destruct d; try (now rewrite string_of_uint_digits).
    rewrite append_cons, append_nil. cbn [spanNumber].
    change (isNumberChar "0") with true. cbn iota.
    destruct Hrest as [-> | (c & r & -> & Hc)]; cbn [spanNumber]; [reflexivity |].
    now rewrite Hc.
Qed.

Lemma printZ_first (n : Z) :
  exists c s, printZ n = String c s /\ isNumberChar c = true.
Proof.
  unfold printZ, NilZero.string_of_int, NilZero.string_of_uint.
  destruct (Z.to_int n) as [d | d].
  - destruct d; cbn [NilEmpty.string_of_uint]; eauto.
  - eauto.
Qed.

Lemma to_int_not_nil (n : Z) :
  Z.to_int n <> Decimal.Pos Decimal.Nil /\ Z.to_int n <> Decimal.Neg Decimal.Nil.
Proof.
  destruct n as [|p|p]; simpl; split; try discriminate.
  - intros H. inversion H as [H1]. revert H1. apply DecimalPos.Unsigned.to_uint_nonnil.
  - intros H. inversion H as [H1]. revert H1. apply DecimalPos.Unsigned.to_uint_nonnil.
Qed.

Lemma printZ_read (n : Z) :
  NilZero.int_of_string (printZ n) = Some (Z.to_int n).
Proof.
  unfold printZ. destruct (to_int_not_nil n). now apply NilZero.isi.
Qed.

Lemma substring_all (s : string) : String.substring 0 (String.length s) s = s.
Proof. induction s as [|c s IH]; simpl; congruence. Qed.

Lemma dropPrefix_app (p rest : string) : dropPrefix p (p ++ rest) = Some rest.
Proof.
  unfold dropPrefix.
  assert (Hp : String.prefix p (p ++ rest) = true) by (apply prefix_append; eauto).
  rewrite Hp. f_equal.
  induction p as [|c p IH].
  - rewrite append_nil. simpl. rewrite Nat.sub_0_r. apply substring_all.
  - rewrite append_cons. simpl. apply IH. apply prefix_append. eauto.
Qed.

Lemma stringify_arr (items : list json) :
  stringify (JArr items) = "[" ++ elemsText items ++ "]".
Proof. reflexivity. Qed.

Lemma stringify_obj (fields : list (string * json)) :
  stringify (JObj fields) = "{" ++ membersText fields ++ "}".
Proof. reflexivity. Qed.

Section JsonInduction.

Variable P : json -> Prop.
Hypothesis Hnull : P JNull.
Hypothesis Hbool : forall b, P (JBool b).
Hypothesis Hnum : forall n, P (JNum n).
Hypothesis Hstr : forall s, P (JStr s).
Hypothesis Harr : forall items, Forall P items -> P (JArr items).
Hypothesis Hobj :
  forall fields, Forall (fun kx => P (snd kx)) fields -> P (JObj fields).

Fixpoint json_nested_ind (v : json) : P v :=
  match v with
  | JNull => Hnull
  | JBool b => Hbool b
  | JNum n => Hnum n
  | JStr s => Hstr s
  | JArr items =>
      Harr items
        ((fix all (l : list json) : Forall P l :=
            match l with
            | [] => ListDef.Forall_nil P
            | x :: rest => ListDef.Forall_cons P x rest (json_nested_ind x) (all rest)
            end) items)
  | JObj fields =>
      Hobj fields
        ((fix all (l : list (string * json)) : Forall (fun kx => P (snd kx)) l :=
            match l with
            | [] => ListDef.Forall_nil _
            | kx :: rest => ListDef.Forall_cons _ kx rest (json_nested_ind (snd kx)) (all rest)
            end) fields)
  end.

End JsonInduction.

Lemma numberChar_code (c : ascii) :
  isNumberChar c = true ->
  (N_of_ascii c =? 34)%N = false /\ (N_of_ascii c =? 91)%N = false
  /\ (N_of_ascii c =? 123)%N = false /\ (N_of_ascii c =? 93)%N = false
  /\ (N_of_ascii c =? 125)%N = false.
Proof.
  unfold isNumberChar. intros H. apply orb_true_iff in H.
  repeat split; apply N.eqb_neq; intros E; rewrite E in H;
    destruct H as [H | H]; discriminate.
Qed.

(** The first character of a printed value decides the parser's branch;
    it never closes an array or an object. *)
Lemma stringify_head (v : json) :
  exists c s, stringify v = String c s
              /\ (N_of_ascii c =? 93)%N = false
              /\ (N_of_ascii c =? 125)%N = false.
Proof.
  destruct v as [| [] | n | s | items | fields];
    try (cbn [stringify]; eexists _, _; split; [reflexivity | split; reflexivity]).
  - destruct (printZ_first n) as (c & s & E & Hc). exists c, s.
    cbn [stringify]. split; [exact E |].
    now destruct (numberChar_code c Hc) as (_ & _ & _ & H1 & H2).
Qed.

Lemma ends_char (c : ascii) (r : string) :
  isNumberChar c = false -> ends (String c r).
Proof. intros H. right. eauto. Qed.

Ltac norm_append :=
  repeat (rewrite append_assoc || rewrite append_cons || rewrite append_nil).

Lemma parseElems_text (fuel : nat) (items : list json) (n : nat) (rest : string) :
  items <> [] -> (List.length items <= n)%nat ->
  Forall (Reads fuel) items ->
  parseElems (parseValue fuel) n (elemsText items ++ "]" ++ rest)
  = Some (items, rest).
Proof.
  intros Hne Hn Hall. revert n Hn.
  induction Hall as [|x l Hx Hl IH]; [congruence |]. intros n Hn.
  destruct n as [|n']; [simpl in Hn; lia |].
  destruct l as [|y l'].
  - cbn [elemsText parseElems]. norm_append.
    rewrite Hx by (now apply ends_char).
    reflexivity.
  - cbn [elemsText parseElems]. norm_append.
    rewrite Hx by (now apply ends_char).
    change (N_of_ascii "," =? 44)%N with true. cbn iota.
    specialize (IH ltac:(congruence) n' ltac:(simpl in *; lia)).
    cbn [elemsText] in IH. revert IH. norm_append. intros IH.
    rewrite IH. reflexivity.
Qed.

Lemma parseMembers_text (fuel : nat) (fields : list (string * json)) (n : nat)
    (rest : string) :
  fields <> [] -> (List.length fields <= n)%nat ->
  Forall (fun kx => Reads fuel (snd kx)) fields ->
  parseMembers (parseValue fuel) n (membersText fields ++ "}" ++ rest)
  = Some (fields, rest).
Proof.
  intros Hne Hn Hall. revert n Hn.
  induction Hall as [|[k x] l Hx Hl IH]; [congruence |]. intros n Hn.
  destruct n as [|n']; [simpl in Hn; lia |].
  simpl in Hx.
  destruct l as [|[k' y] l'].
  - cbn [membersText parseMembers]. unfold quote. norm_append.
    change (N_of_ascii dquote =? 34)%N with true. cbn iota.
    rewrite readString_escape.
    change (N_of_ascii ":" =? 58)%N with true. cbn iota.
    rewrite Hx by (now apply ends_char).
    reflexivity.
  - cbn [membersText parseMembers]. unfold quote at 1. norm_append.
    change (N_of_ascii dquote =? 34)%N with true. cbn iota.
    rewrite readString_escape.
    change (N_of_ascii ":" =? 58)%N with true. cbn iota.
    rewrite Hx by (now apply ends_char).
    change (N_of_ascii "," =? 44)%N with true. cbn iota.
    specialize (IH ltac:(congruence) n' ltac:(simpl in *; lia)).
    cbn [membersText] in IH. revert IH. norm_append. intros IH.
    rewrite IH. reflexivity.
Qed.

Lemma length_append (a b : string) :
  String.length (a ++ b) = (String.length a + String.length b)%nat.
Proof.
  induction a as [|c a IH]; [reflexivity |].
  rewrite append_cons. simpl. now rewrite IH.
Qed.

Lemma stringify_nonempty (v : json) : (1 <= String.length (stringify v))%nat.
Proof.
  destruct (stringify_head v) as (c & s & E & _). rewrite E. simpl. lia.
Qed.

Lemma elemsText_length (items : list json) :
  (List.length items <= String.length (elemsText items))%nat.
Proof.
  induction items as [|x [|y l] IH]; cbn [elemsText]; simpl List.length.
  - lia.
  - pose proof (stringify_nonempty x). lia.
  - rewrite !length_append. pose proof (stringify_nonempty x).
    simpl in *. lia.
Qed.

Lemma membersText_cons (k : string) (x : json) (kx : string * json)
    (l : list (string * json)) :
  membersText ((k, x) :: kx :: l)
  = quote k ++ ":" ++ stringify x ++ "," ++ membersText (kx :: l).
Proof. reflexivity. Qed.

Lemma membersText_length (fields : list (string * json)) :
  (List.length fields <= String.length (membersText fields))%nat.
Proof.
  induction fields as [|[k x] [|[k' y] l] IH].
  - simpl. lia.
  - cbn [membersText]. unfold quote. rewrite append_cons. simpl. lia.
  - rewrite membersText_cons.
    remember (membersText ((k', y) :: l)) as m.
    rewrite !length_append. change (String.length ",") with 1.
    simpl List.length in *. lia.
Qed.

Lemma elemsText_head (x : json) (l : list json) (tail : string) :
  exists c s, elemsText (x :: l) ++ tail = String c s
              /\ (N_of_ascii c =? 93)%N = false.
Proof.
  destruct (stringify_head x) as (c & s & E & H93 & _).
  destruct l; cbn [elemsText]; rewrite ?append_assoc, E, append_cons; eauto.
Qed.

Lemma membersText_head (kx : string * json) (l : list (string * json))
    (tail : string) :
  exists s, membersText (kx :: l) ++ tail = String dquote s.
Proof.
  destruct kx as [k x].
  destruct l as [|[k' y] l']; cbn [membersText]; unfold quote at 1;
    norm_append; eauto.
Qed.

Lemma Reads_value (v : json) :
  forall fuel, (depth v <= fuel)%nat -> Reads fuel v.
Proof.
  induction v as [| b | n | s | items IH | fields IH] using json_nested_ind;
    intros fuel Hfuel rest Hrest;
    (destruct fuel as [|fuel']; [simpl in Hfuel; lia |]).
  - cbn [stringify parseValue]. norm_append.
    change (N_of_ascii "n" =? 34)%N with false.
    change (N_of_ascii "n" =? 91)%N with false.
    change (N_of_ascii "n" =? 123)%N with false.
    change (isNumberChar "n") with false. cbn iota.
    change (String "n" (String "u" (String "l" (String "l" rest))))
      with ("null" ++ rest).
    now rewrite dropPrefix_app.
  - destruct b; cbn [stringify parseValue]; norm_append.
    + change (N_of_ascii "t" =? 34)%N with false.
      change (N_of_ascii "t" =? 91)%N with false.
      change (N_of_ascii "t" =? 123)%N with false.
      change (isNumberChar "t") with false. cbn iota.
      change (String "t" (String "r" (String "u" (String "e" rest))))
        with ("true" ++ rest).
      rewrite dropPrefix_app.
      reflexivity.
    + change (N_of_ascii "f" =? 34)%N with false.
      change (N_of_ascii "f" =? 91)%N with false.
      change (N_of_ascii "f" =? 123)%N with false.
      change (isNumberChar "f") with false. cbn iota.
      change (String "f" (String "a" (String "l" (String "s" (String "e" rest)))))
        with ("false" ++ rest).
      rewrite dropPrefix_app.
      reflexivity.
  - cbn [stringify].
    destruct (printZ_first n) as (c & s & E & Hc).
    destruct (numberChar_code c Hc) as (H34 & H91 & H123 & _).
    pose proof (printZ_span n rest Hrest) as Hspan.
    rewrite E in *. rewrite append_cons in *. cbn [parseValue].
    rewrite H34, H91, H123, Hc, Hspan, <- E, printZ_read.
    now rewrite DecimalZ.of_to.
  - cbn [stringify parseValue]. unfold quote. norm_append.
    change (N_of_ascii dquote =? 34)%N with true. cbn iota.
    now rewrite readString_escape.
  - rewrite stringify_arr. norm_append. cbn [parseValue].
    change (N_of_ascii "[" =? 34)%N with false.
    change (N_of_ascii "[" =? 91)%N with true. cbn iota.
    destruct items as [|x l].
    + cbn [elemsText]. norm_append. reflexivity.
    + destruct (elemsText_head x l (String "]" rest)) as (c & s & E & H93).
      pose proof (parseElems_text fuel' (x :: l)
                    (String.length (elemsText (x :: l) ++ String "]" rest)) rest)
        as Hparse.
      revert Hparse. norm_append. intros Hparse.
      rewrite E in *. rewrite H93. rewrite Hparse; [reflexivity | congruence | |].
      * rewrite <- E, length_append.
        etransitivity; [apply elemsText_length | apply Nat.le_add_r].
      * apply Forall_forall. intros y Hy.
        rewrite Forall_forall in IH. apply IH; [exact Hy |].
        cbn [depth] in Hfuel. apply le_S_n in Hfuel.
        clear -Hy Hfuel. induction (x :: l) as [|z zs IHz]; [set_solver |].
        cbn [fold_right] in Hfuel.
        apply elem_of_cons in Hy as [-> | Hy]; [lia |].
        apply IHz; first [assumption | lia].
  - rewrite stringify_obj. norm_append. cbn [parseValue].
    change (N_of_ascii "{" =? 34)%N with false.
    change (N_of_ascii "{" =? 91)%N with false.
    change (N_of_ascii "{" =? 123)%N with true. cbn iota.
    destruct fields as [|kx l].
    + cbn [membersText]. norm_append. reflexivity.
    + destruct (membersText_head kx l (String "}" rest)) as (s & E).
      pose proof (parseMembers_text fuel' (kx :: l)
                    (String.length (membersText (kx :: l) ++ String "}" rest)) rest)
        as Hparse.
      revert Hparse. norm_append. intros Hparse.
      rewrite E in *.
      change (N_of_ascii dquote =? 125)%N with false. cbn iota.
      rewrite Hparse; [reflexivity | congruence | |].
      * rewrite <- E, length_append.
        etransitivity; [apply membersText_length | apply Nat.le_add_r].
      * apply Forall_forall. intros y Hy.
        rewrite Forall_forall in IH. apply IH; [exact Hy |].
        cbn [depth] in Hfuel. apply le_S_n in Hfuel.
        clear -Hy Hfuel. induction (kx :: l) as [|z zs IHz]; [set_solver |].
        cbn [fold_right] in Hfuel.
        apply elem_of_cons in Hy as [-> | Hy]; [lia |].
        apply IHz; first [assumption | lia].
Qed.

Lemma append_empty (s : string) : (s ++ "")%string = s.
Proof.
  induction s as [|c s IH]; [reflexivity |]. rewrite append_cons. now rewrite IH.
Qed.

Lemma elemsText_cons (x y : json) (l : list json) :
  elemsText (x :: y :: l) = stringify x ++ "," ++ elemsText (y :: l).
Proof. reflexivity. Qed.

Lemma depth_elems (items : list json) :
  Forall (fun x => (depth x <= String.length (stringify x))%nat) items ->
  (fold_right (fun x acc => Nat.max (depth x) acc) 0 items
   <= String.length (elemsText items))%nat.
Proof.
  induction 1 as [|x l Hx Hl IH]; [simpl; lia |].
  cbn [fold_right]. destruct l as [|y l'].
  - cbn [fold_right elemsText]. lia.
  - rewrite elemsText_cons. remember (elemsText (y :: l')) as m.
    remember (fold_right (fun x acc => Nat.max (depth x) acc) 0 (y :: l')) as d.
    rewrite !length_append. lia.
Qed.

Lemma depth_members (fields : list (string * json)) :
  Forall (fun kx => (depth (snd kx) <= String.length (stringify (snd kx)))%nat)
    fields ->
  (fold_right (fun kx acc => Nat.max (depth (snd kx)) acc) 0 fields
   <= String.length (membersText fields))%nat.
Proof.
  induction 1 as [|[k x] l Hx Hl IH]; [simpl; lia |].
  cbn [fold_right]. simpl in Hx. destruct l as [|[k' y] l'].
  - cbn [fold_right membersText]. rewrite !length_append. simpl snd. lia.
  - rewrite membersText_cons. remember (membersText ((k', y) :: l')) as m.
    remember (fold_right (fun kx acc => Nat.max (depth (snd kx)) acc) 0
                ((k', y) :: l')) as d.
    rewrite !length_append. simpl snd. lia.
Qed.

Lemma depth_length (v : json) : (depth v <= String.length (stringify v))%nat.
Proof.
  induction v as [| b | n | s | items IH | fields IH] using json_nested_ind;
    try (apply stringify_nonempty).
  - rewrite stringify_arr. cbn [depth]. rewrite append_cons, append_nil.
    simpl String.length.
    apply le_n_S. rewrite length_append.
    etransitivity; [now apply depth_elems | apply Nat.le_add_r].
  - rewrite stringify_obj. cbn [depth]. rewrite append_cons, append_nil.
    simpl String.length.
    apply le_n_S. rewrite length_append.
    etransitivity; [now apply depth_members | apply Nat.le_add_r].
Qed.

(** The reference codec reads back every value it writes. *)
Theorem parse_stringify (v : json) : parse (stringify v) = Some v.
Proof.
  unfold parse.
  pose proof (Reads_value v (S (String.length (stringify v)))) as H.
  rewrite <- (append_empty (stringify v)) at 2.
  rewrite H; [reflexivity | | now left].
  pose proof (depth_length v). lia.
Qed.

End Codec.

(** ** C6: tool invocations survive the round trip *)

Section RoundTrip.

Context {rt : Builtins}.

Variable JSON_stringify : json -> string.
Variable JSON_parse : string -> option json.
Variable fallbackId model : string.


Lemma or_str_some (s d : string) : d = "" -> Js.or_str (Some s) d = s.
Proof.
  intros ->. simpl. destruct (Js.truthy s) eqn:E; [reflexivity |].
  now apply truthy_false in E.
Qed.

Lemma collectParts_toolUses (useResponsesAPI : bool) (role : string)
    (blocks : list Block) :
  toolUseBlocks (collectParts useResponsesAPI role blocks)
  = flat_map (fun b => match b with BToolUse tu => [tu] | _ => [] end) blocks.
Proof.
  induction blocks as [|block rest IH]; [reflexivity |].
  cbn [collectParts flat_map].
  destruct block as [text | source | tu | tr |]; simpl; try exact IH.
  - destruct source as [src|]; [| exact IH].
    destruct (src_type src) as [t|]; [| exact IH].
    destruct (String.eqb t "base64"); exact IH.
  - now rewrite IH.
Qed.

Lemma Forall_map_all {A B : Type} (P : B -> Prop) (f : A -> B) (l : list A) :
  (forall x, P (f x)) -> Forall P (map f l).
Proof. intros H. induction l; constructor; auto. Qed.

Lemma back_plain (entry : OaiMessage) :
  o_tool_calls entry = None -> broughtBack JSON_parse fallbackId model entry = [].
Proof.
  intros Hnone. unfold broughtBack, replyCarrying, convertResponse. simpl.
  unfold choiceContent. simpl. rewrite Hnone.
  destruct (o_content entry) as [s | | ps]; simpl; try reflexivity.
  destruct (Js.truthy s); reflexivity.
Qed.

Lemma back_all_plain (entries : list OaiMessage) :
  Forall (fun entry => o_tool_calls entry = None) entries ->
  flat_map (broughtBack JSON_parse fallbackId model) entries = [].
Proof.
  induction 1 as [|entry rest Hentry _ IH]; [reflexivity |].
  cbn [flat_map]. now rewrite back_plain, IH.
Qed.

Lemma toolUseOfCall_toToolCall (tu : ToolUse) :
  Json.truthy (tu_input tu) = true ->
  roundTrips JSON_stringify JSON_parse (tu_input tu) ->
  toolUseOfCall JSON_parse (toToolCall JSON_stringify tu)
  = RToolUse (tu_id tu) (tu_name tu) (tu_input tu).
Proof.
  intros Htruthy [Hne Hback]. unfold toolUseOfCall, toToolCall. simpl.
  unfold Json.or_empty_object. rewrite Htruthy.
  rewrite !or_default_empty.
  apply truthy_true in Hne. rewrite Hne.
  unfold parseOrEmpty. rewrite Hback.
  f_equal.
  - destruct (Js.truthy (tu_id tu)) eqn:E; [reflexivity |].
    now apply truthy_false in E.
  - destruct (Js.truthy (tu_name tu)) eqn:E; [reflexivity |].
    now apply truthy_false in E.
Qed.

Lemma back_tool_calls (content : OaiContent) (tus : list ToolUse) :
  Forall (fun tu => Json.truthy (tu_input tu) = true
                    /\ roundTrips JSON_stringify JSON_parse (tu_input tu)) tus ->
  broughtBack JSON_parse fallbackId model {| o_role := "assistant"; o_content := content;
          o_tool_calls := Some (map (toToolCall JSON_stringify) tus);
          o_tool_call_id := None |}
  = tus.
Proof.
  intros Hall. unfold broughtBack, replyCarrying, convertResponse. simpl.
  unfold choiceContent. simpl.
  assert (Htools :
            toolUsesOf
              (map (toolUseOfCall JSON_parse) (map (toToolCall JSON_stringify) tus))
            = tus).
  { induction Hall as [|tu rest [Ht Hr] _ IH]; [reflexivity |].
    cbn [map]. rewrite toolUseOfCall_toToolCall by assumption.
    unfold toolUsesOf in *. cbn [flat_map]. rewrite IH. now destruct tu. }
  unfold toolUsesOf in *. rewrite flat_map_app, Htools.
  destruct content as [s | | ps]; simpl; try reflexivity.
  destruct (Js.truthy s); reflexivity.
Qed.

Lemma back_convertMessage (msg : Message) :
  Forall (fun tu => Json.truthy (tu_input tu) = true
                    /\ roundTrips JSON_stringify JSON_parse (tu_input tu))
    (assistantToolUses msg) ->
  flat_map (broughtBack JSON_parse fallbackId model) (convertMessage JSON_stringify false msg) = assistantToolUses msg.
Proof.
  intros Hall. unfold convertMessage, assistantToolUses in *.
  set (role := Js.or_str (msg_role msg) "user") in *.
  destruct (msg_content msg) as [s | blocks |].
  - cbn [flat_map]. now rewrite back_plain.
  - set (ps := collectParts false role blocks).
    pose proof (collectParts_toolUses false role blocks) as Htus.
    fold ps in Htus. rewrite <- Htus in *. clear Htus.
    assert (Hrest :
              Forall (fun entry => o_tool_calls entry = None)
                (if negb (List.length (toolResultBlocks ps) =? 0)%nat
                 then
                   (map (fun result =>
                           {| o_role := "tool";
                              o_content :=
                                OString
                                  (if tr_is_error result
                                   then "Error: " ++ resultText JSON_stringify result
                                   else resultText JSON_stringify result);
                              o_tool_calls := None;
                              o_tool_call_id :=
                                Some (Js.or_str (tr_tool_use_id result) "") |})
                        (toolResultBlocks ps)
                    ++ (if negb (List.length (textParts ps) =? 0)%nat
                           && Js.truthy
                                (trim (Js.join " " (map partText (textParts ps))))
                        then [plain "user"
                                (OString
                                   (trim
                                      (Js.join " " (map partText (textParts ps)))))]
                        else []))%list
                 else if negb (List.length (textParts ps) =? 0)%nat
                         || negb (List.length (imageParts ps) =? 0)%nat
                 then
                   match (textParts ps ++ imageParts ps)%list with
                   | [PText type text] =>
                       if String.eqb type "text"
                       then [plain role (OString (Js.or_default text ""))]
                       else [plain role (OParts [PText type text])]
                   | combined => [plain role (OParts combined)]
                   end
                 else [])).
    { destruct (negb (List.length (toolResultBlocks ps) =? 0)%nat).
      - apply Forall_app. split; [now apply Forall_map_all |].
        destruct (_ && _); repeat constructor.
      - destruct (_ || _); [| constructor].
        destruct (textParts ps ++ imageParts ps)%list as [|[ty tx|ty url] [|q qs]];
          try (repeat constructor).
        destruct (String.eqb ty "text"); repeat constructor. }
    destruct (String.eqb role "assistant") eqn:Erole; cbn [andb].
    + destruct (negb (List.length (toolUseBlocks ps) =? 0)%nat) eqn:Elen.
      * cbn [flat_map]. rewrite app_nil_r. now apply back_tool_calls.
      * destruct (toolUseBlocks ps); [| discriminate].
        now apply back_all_plain.
    + now apply back_all_plain.
  - reflexivity.
Qed.

Lemma back_systemEntry (system : option SystemPrompt) :
  flat_map (broughtBack JSON_parse fallbackId model) (systemEntry system) = [].
Proof.
  apply back_all_plain. unfold systemEntry.
  destruct system as [[s | blocks]|]; [| repeat constructor | constructor].
  destruct (Js.truthy s); repeat constructor.
Qed.

Lemma recovered_history (messages : list Message)
    (system : option SystemPrompt) :
  (forall msg tu,
     In msg messages -> In tu (assistantToolUses msg) ->
     Json.truthy (tu_input tu) = true
     /\ roundTrips JSON_stringify JSON_parse (tu_input tu)) ->
  recoveredToolUses JSON_stringify JSON_parse fallbackId model messages system
  = flat_map assistantToolUses messages.
Proof.
  intros Hall. unfold recoveredToolUses, convertMessages.
  rewrite flat_map_app, back_systemEntry. simpl.
  induction messages as [|msg rest IH]; [reflexivity |].
  cbn [flat_map]. rewrite flat_map_app, back_convertMessage, IH.
  - reflexivity.
  - intros m tu Hm Htu. apply (Hall m); [now right | assumption].
  - apply List.Forall_forall. intros tu Htu.
    apply (Hall msg); [now left | assumption].
Qed.

(** C6. Translating a history to the native shape and reverse-translating
    a synthetic backend reply that carries the forwarded tool calls gives
    back every tool invocation of the assistant messages, in order, with
    its identifier, name and input structure: the input is written as a
    JSON text forward and parsed back on reverse.  The input structures
    are objects or arrays (truthy values) that the runtime's JSON reads
    back as written. *)
Theorem tool_use_round_trip (messages : list Message)
    (system : option SystemPrompt) :
  (forall msg tu,
     In msg messages -> In tu (assistantToolUses msg) ->
     Json.truthy (tu_input tu) = true
     /\ roundTrips JSON_stringify JSON_parse (tu_input tu)) ->
  recoveredToolUses JSON_stringify JSON_parse fallbackId model messages system
  = flat_map assistantToolUses messages.
Proof. apply recovered_history. Qed.

End RoundTrip.

(** The theorem at work, with the reference codec as the runtime's JSON. *)
Lemma tool_use_round_trip_witness :
  recoveredToolUses (rt := Sample.node) JsonText.stringify JsonText.parse
    "msg_1" "claude-sonnet-4" Sample.toolHistory None
  = [Sample.readFile].
Proof.
  apply (tool_use_round_trip (rt := Sample.node) JsonText.stringify
           JsonText.parse "msg_1" "claude-sonnet-4" Sample.toolHistory None).
  intros msg tu Hmsg Htu.
  destruct Hmsg as [<- | [<- | [<- | []]]]; vm_compute in Htu;
    try contradiction.
  destruct Htu as [<- | []].
  split; [reflexivity |]. split; [vm_compute; discriminate | reflexivity].
Defined.

(** With the reference codec as the runtime's JSON the round trip holds for
    every history whose tool inputs are structures, or any other truthy
    value. *)
Corollary reference_round_trip {rt : Builtins} (fallbackId model : string)
    (messages : list Message) (system : option SystemPrompt) :
  (forall msg tu,
     In msg messages -> In tu (assistantToolUses msg) ->
     Json.truthy (tu_input tu) = true) ->
  recoveredToolUses JsonText.stringify JsonText.parse fallbackId model
    messages system
  = flat_map assistantToolUses messages.
Proof.
  intros Hall. apply recovered_history. intros msg tu Hmsg Htu.
  split; [now apply (Hall msg) |]. split.
  - pose proof (stringify_nonempty (tu_input tu)) as Hlen.
    intros E. rewrite E in Hlen. simpl in Hlen. lia.
  - apply parse_stringify.
Qed.

(** Outside the protocol, where an input is no structure but null, false,
    zero or the empty string, the guard [tb.input || {}] sends the empty
    structure instead. *)
Example falsy_input_becomes_empty :
  recoveredToolUses (rt := Sample.node) JsonText.stringify JsonText.parse
    "msg_1" "claude-sonnet-4"
    [{| msg_role := Some "assistant";
        msg_content :=
          CBlocks [BToolUse {| tu_id := "toolu_2"; tu_name := "ping";
                               tu_input := JNull |}] |}]
    None
  = [{| tu_id := "toolu_2"; tu_name := "ping"; tu_input := JObj [] |}].
Proof. reflexivity. Qed.

(** * Further properties of the code

    The properties below are read off proxy.ts itself: its other
    functions, and how the functions of the first part compose. *)

(** ** Endpoint resolution *)

Lemma or_str_truthy (o : option string) (d : string) :
  Js.truthy d = true -> Js.truthy (Js.or_str o d) = true.
Proof.
  intros Hd. destruct o as [s|]; simpl; [| exact Hd].
  destruct (Js.truthy s) eqn:E; assumption.
Qed.

Lemma getModelName_getDeployment {rt : Builtins} (model : string) (config : AzureConfig) :
  getModelName model config = getDeployment model config.
Proof.
  unfold getModelName, getDeployment.
  destruct (router config) as [r|]; [destruct (Js.truthy r) |]; reflexivity.
Qed.

Lemma getDeployment_truthy {rt : Builtins} (model : string) (config : AzureConfig) :
  Js.truthy (getDeployment model config) = true.
Proof.
  unfold getDeployment.
  assert (Htier : Js.truthy
            (if Js.includes (toLowerCase model) "opus"
             then Js.or_str (opus (deployments config)) "gpt-4o"
             else if Js.includes (toLowerCase model) "haiku"
             then Js.or_str (haiku (deployments config)) "gpt-4o-mini"
             else Js.or_str (sonnet (deployments config)) "gpt-4o") = true).
  { destruct (Js.includes _ "opus"); [| destruct (Js.includes _ "haiku")];
      now apply or_str_truthy. }
  destruct (router config) as [r|]; [| exact Htier].
  destruct (Js.truthy r) eqn:E; [exact E | exact Htier].
Qed.

(** X1. The model name written into the request body is always the
    deployment name of the URL ([getModelName] and [getDeployment] agree on
    every model and configuration), and that name is never empty: a router
    counts only when it is a non-empty string and every tier has a
    default. *)
Theorem deployment_resolved {rt : Builtins} (JSON_stringify : json -> string)
    (azure : AzureConfig) (claudeReq : ClaudeRequest) :
  let p := planRequest JSON_stringify azure claudeReq in
  (forall model, getModelName model azure = getDeployment model azure)
  /\ (forall model, getDeployment model azure <> "")
  /\ p_model (plan_openaiReq p) = plan_deployment p.
Proof.
  intros p. split; [intros; apply getModelName_getDeployment |].
  split; [intros model; apply truthy_true, getDeployment_truthy |].
  subst p. unfold planRequest. cbn [plan_openaiReq plan_deployment].
  destruct (shouldUseResponsesAPI azure && _); cbn;
    apply getModelName_getDeployment.
Qed.

Lemma append_inj (p a b : string) : (p ++ a)%string = (p ++ b)%string -> a = b.
Proof.
  induction p as [|c p IH]; [now rewrite !append_nil |].
  rewrite !append_cons. intros H. apply IH. congruence.
Qed.

Lemma routerResponsesPath_inj (v w : string) :
  routerResponsesPath v = routerResponsesPath w -> v = w.
Proof. apply append_inj. Qed.

Lemma deploymentResponsesPath_inj (d v w : string) :
  deploymentResponsesPath d v = deploymentResponsesPath d w -> v = w.
Proof.
  unfold deploymentResponsesPath. intros H.
  apply append_inj, append_inj, append_inj in H. exact H.
Qed.

Lemma router_not_deployment (d v w : string) :
  routerResponsesPath v <> deploymentResponsesPath d w.
Proof.
  unfold routerResponsesPath, deploymentResponsesPath.
  rewrite !append_cons. intros H. discriminate H.
Qed.

Lemma includes_router (v : string) :
  Js.includes (routerResponsesPath v) "/responses?api-version=" = true.
Proof. apply includes_spec. exists "/openai", v. reflexivity. Qed.

Lemma includes_deployment (d v : string) :
  Js.includes (deploymentResponsesPath d v) "/responses?api-version=" = true.
Proof.
  apply includes_spec. exists ("/openai/deployments/" ++ d), v.
  unfold deploymentResponsesPath. now rewrite <- !append_assoc.
Qed.

(** *** [new URL] over a list of inputs *)

Lemma construct_app {rt : Builtins} (base : string) (a b : list string) :
  construct base (a ++ b)
  = urls ← construct base a; more ← construct base b; Gave (urls ++ more)%list.
Proof.
  induction a as [|input a IH]; cbn [construct app].
  - cbn. destruct (construct base b); reflexivity.
  - rewrite IH. cbn. destruct (newURL input base); [reflexivity |].
    destruct (construct base a); [reflexivity |].
    destruct (construct base b); reflexivity.
Qed.

Lemma construct_Gave {rt : Builtins} (base : string) (inputs : list string)
    (urls : list URL) :
  construct base inputs = Gave urls ->
  Forall2 (fun input url => newURL input base = Gave url) inputs urls.
Proof.
  revert urls. induction inputs as [|input inputs IH]; intros urls; cbn.
  - intros [= <-]. constructor.
  - destruct (newURL input base) as [|url] eqn:E; [discriminate |].
    destruct (construct base inputs) as [|rest]; [discriminate |].
    intros [= <-]. constructor; [exact E | now apply IH].
Qed.

Lemma construct_Threw {rt : Builtins} (base : string) (inputs : list string)
    (message : string) :
  construct base inputs = Threw message ->
  exists input, In input inputs /\ newURL input base = Threw message.
Proof.
  induction inputs as [|input inputs IH]; cbn; [discriminate |].
  destruct (newURL input base) as [m|url] eqn:E.
  - intros [= <-]. exists input. auto.
  - destruct (construct base inputs) as [m|rest]; [| discriminate].
    intros [= <-]. destruct (IH eq_refl) as (i & Hi & Ht). exists i. auto.
Qed.

(** The loop of [buildResponsesUrls] in closed form: [new URL] on the
    inputs of the configured version, unless it is empty, then on those of
    the preview version, unless it is the configured one. *)
Lemma buildResponsesUrls_form {rt : Builtins} (azure : AzureConfig)
    (deployment : string) :
  buildResponsesUrls azure deployment
  = construct (endpoint azure) (responsesInputs azure deployment).
Proof.
  unfold buildResponsesUrls, responsesInputs, versionPaths.
  cbn [responsesUrls existsb].
  destruct (Js.truthy (apiVersion azure)) eqn:Ev; cbn [negb orb].
  - rewrite orb_false_r, String.eqb_sym.
    destruct (String.eqb (apiVersion azure) "2025-04-01-preview");
      destruct (Js.truthy_str (router azure));
      cbn [negb orb app construct];
      repeat (destruct (newURL _ (endpoint azure)); cbn; try reflexivity).
  - apply truthy_false in Ev. rewrite Ev.
    destruct (Js.truthy_str (router azure));
      cbn [negb orb app construct String.eqb existsb];
      repeat (destruct (newURL _ (endpoint azure)); cbn; try reflexivity).
Qed.

Lemma responsesInputs_length (azure : AzureConfig) (deployment : string) :
  (1 <= List.length (responsesInputs azure deployment) <= 4)%nat
  /\ (Js.truthy_str (router azure) = false ->
      (List.length (responsesInputs azure deployment) <= 2)%nat).
Proof.
  unfold responsesInputs, versionPaths.
  destruct (String.eqb_spec (apiVersion azure) "2025-04-01-preview") as [-> | _].
  - change (Js.truthy "2025-04-01-preview") with true.
    destruct (Js.truthy_str (router azure)); cbn [app List.length];
      (split; [lia | intros H; first [discriminate H | lia]]).
  - destruct (Js.truthy (apiVersion azure)), (Js.truthy_str (router azure));
      cbn [app List.length];
      (split; [lia | intros H; first [discriminate H | lia]]).
Qed.

Ltac urls_forall :=
  repeat match goal with
         | |- Forall _ [] => apply ListDef.Forall_nil
         | |- Forall _ (_ :: _) => apply ListDef.Forall_cons; [cbv beta |]
         | |- Js.includes (routerResponsesPath _) _ = true => apply includes_router
         | |- Js.includes (deploymentResponsesPath _ _) _ = true =>
             apply includes_deployment
         end.

Ltac urls_distinct :=
  repeat (apply NoDup_cons_2); try apply NoDup_nil_2;
  rewrite ?elem_of_cons, ?elem_of_nil;
  let H := fresh "H" in
  intros H; repeat destruct H as [H | H]; try exact H;
  first [ now apply router_not_deployment in H
        | symmetry in H; now apply router_not_deployment in H
        | apply routerResponsesPath_inj in H; congruence
        | apply deploymentResponsesPath_inj in H; congruence ].

(** X2. [buildResponsesUrls] hands [new URL] between one and four inputs,
    all of them Responses endpoints and no two alike: for the configured
    API version (skipped when empty) and then for 2025-04-01-preview
    (skipped when it is the configured version), the router endpoint if a
    router is configured, then the deployment endpoint; the last input is
    always the deployment endpoint of the preview version.  It returns the
    URLs that [new URL] makes of these inputs against the configured
    endpoint, in this order, or throws what [new URL] throws first.  (The
    URLs made of two inputs may coincide: that is up to [new URL].) *)
Theorem responses_candidates {rt : Builtins} (azure : AzureConfig)
    (deployment : string) :
  let inputs := responsesInputs azure deployment in
  let preview := "2025-04-01-preview" in
  buildResponsesUrls azure deployment = construct (endpoint azure) inputs
  /\ NoDup inputs
  /\ last inputs = Some (deploymentResponsesPath deployment preview)
  /\ (1 <= List.length inputs <= 4)%nat
  /\ Forall (fun input => Js.includes input "/responses?api-version=" = true)
       inputs
  /\ (forall urls,
        buildResponsesUrls azure deployment = Gave urls ->
        Forall2 (fun input url => newURL input (endpoint azure) = Gave url)
          inputs urls)
  /\ (forall message,
        buildResponsesUrls azure deployment = Threw message ->
        exists input,
          In input inputs /\ newURL input (endpoint azure) = Threw message).
Proof.
  intros inputs preview.
  split; [apply buildResponsesUrls_form |].
  split; [| split; [| split; [apply responsesInputs_length | split; [| split]]]].
  - subst inputs. unfold responsesInputs, versionPaths. fold preview.
    destruct (String.eqb_spec (apiVersion azure) preview) as [Heq | Hne].
    + rewrite Heq. change (Js.truthy preview) with true.
      destruct (Js.truthy_str (router azure)); cbn [app]; urls_distinct.
    + destruct (Js.truthy (apiVersion azure)), (Js.truthy_str (router azure));
        cbn [app]; urls_distinct.
  - subst inputs. unfold responsesInputs, versionPaths. fold preview.
    destruct (String.eqb_spec (apiVersion azure) preview) as [Heq | Hne].
    + rewrite Heq. change (Js.truthy preview) with true.
      destruct (Js.truthy_str (router azure)); reflexivity.
    + destruct (Js.truthy (apiVersion azure)), (Js.truthy_str (router azure));
        reflexivity.
  - subst inputs. unfold responsesInputs, versionPaths. fold preview.
    destruct (Js.truthy (apiVersion azure)), (Js.truthy_str (router azure)),
      (String.eqb (apiVersion azure) preview); cbn [app]; urls_forall.
  - intros urls. rewrite buildResponsesUrls_form. apply construct_Gave.
  - intros message. rewrite buildResponsesUrls_form. apply construct_Threw.
Qed.

Lemma router_not_chat (azure : AzureConfig) (d v : string) :
  routerResponsesPath v <> chatCompletionsPath azure d.
Proof.
  unfold routerResponsesPath, chatCompletionsPath.
  rewrite !append_cons. intros H. discriminate H.
Qed.

Lemma deployment_not_chat (azure : AzureConfig) (d v : string) :
  deploymentResponsesPath d v <> chatCompletionsPath azure d.
Proof.
  unfold deploymentResponsesPath, chatCompletionsPath. intros H.
  apply append_inj, append_inj in H. rewrite !append_cons in H. discriminate H.
Qed.

(** [azureUrls] in closed form. *)
Lemma azureUrls_form {rt : Builtins} (azure : AzureConfig) (deployment : string)
    (useResponsesAPI : bool) :
  azureUrls azure deployment useResponsesAPI
  = construct (endpoint azure) (candidateInputs azure deployment useResponsesAPI).
Proof.
  unfold azureUrls, candidateInputs.
  destruct useResponsesAPI; cbn [andb].
  - rewrite buildResponsesUrls_form.
    destruct (Js.truthy_str (router azure)); cbn [negb].
    + cbn. destruct (construct _ _); reflexivity.
    + rewrite construct_app. cbn.
      destruct (construct _ _); [reflexivity |].
      destruct (newURL _ _); reflexivity.
  - cbn. destruct (newURL _ _); reflexivity.
Qed.

Lemma candidateInputs_length (azure : AzureConfig) (deployment : string)
    (useResponsesAPI : bool) :
  (1 <= List.length (candidateInputs azure deployment useResponsesAPI) <= 4)%nat.
Proof.
  unfold candidateInputs.
  destruct (responsesInputs_length azure deployment) as [Hlen Htiered].
  destruct useResponsesAPI; [| cbn; lia].
  destruct (Js.truthy_str (router azure)); [lia |].
  specialize (Htiered eq_refl). rewrite length_app. cbn [List.length]. lia.
Qed.

(** The options of a request, when its URLs can be built. *)
Lemma reqOptionsList_Gave {rt : Builtins} (azure : AzureConfig) (p : Plan)
    (optionsList : list RequestOptions) :
  reqOptionsList azure p = Gave optionsList ->
  Forall2
    (fun input o =>
       exists url,
         newURL input (endpoint azure) = Gave url /\ o = optionsFor azure url)
    (candidateInputs azure (plan_deployment p) (plan_useResponsesAPI p))
    optionsList.
Proof.
  unfold reqOptionsList. rewrite azureUrls_form. cbn.
  destruct (construct _ _) as [|urls] eqn:E; [discriminate |].
  intros [= <-]. apply construct_Gave in E.
  induction E as [|input url inputs urls Hurl _ IH]; cbn; constructor; eauto.
Qed.

Lemma reqOptionsList_count {rt : Builtins} (azure : AzureConfig) (p : Plan)
    (optionsList : list RequestOptions) :
  reqOptionsList azure p = Gave optionsList ->
  (1 <= List.length optionsList <= 4)%nat
  /\ (plan_useResponsesAPI p = false -> List.length optionsList = 1)
  /\ Forall (fun o => api_key o = apiKey azure) optionsList.
Proof.
  intros H. apply reqOptionsList_Gave in H.
  pose proof (Forall2_length _ _ _ H) as Hlen.
  pose proof (candidateInputs_length azure (plan_deployment p)
                (plan_useResponsesAPI p)) as Hn.
  split; [lia |]. split.
  - intros Huse. rewrite Huse in Hlen. cbn in Hlen. lia.
  - clear Hlen Hn. induction H as [|input o inputs os (url & _ & ->) _ IH];
      constructor; [reflexivity | exact IH].
Qed.

(** X3. The inputs from which the candidate list of a request is built are
    never none.  In the native shape it is the one chat-completions
    endpoint of the deployment; in the Responses shape it is the Responses
    inputs, followed by the chat-completions endpoint as the last resort
    only when no router is configured.  The URLs are what [new URL] makes
    of the inputs against the configured endpoint; each candidate takes
    host name, path and query from its URL and carries the configured key.
    No Responses input is the chat-completions input. *)
Theorem plan_candidates {rt : Builtins} (JSON_stringify : json -> string)
    (azure : AzureConfig) (claudeReq : ClaudeRequest) :
  let p := planRequest JSON_stringify azure claudeReq in
  let chat := chatCompletionsPath azure (plan_deployment p) in
  let responses := responsesInputs azure (plan_deployment p) in
  let inputs :=
    if plan_useResponsesAPI p
    then if Js.truthy_str (router azure) then responses
         else (responses ++ [chat])%list
    else [chat] in
  azureUrls azure (plan_deployment p) (plan_useResponsesAPI p)
  = construct (endpoint azure) inputs
  /\ inputs <> []
  /\ (forall optionsList,
        reqOptionsList azure p = Gave optionsList ->
        optionsList <> []
        /\ Forall2
             (fun input o =>
                exists url,
                  newURL input (endpoint azure) = Gave url
                  /\ hostname o = url_hostname url
                  /\ path o = (url_pathname url ++ url_search url)%string
                  /\ api_key o = apiKey azure)
             inputs optionsList)
  /\ Forall (fun input => input <> chat) responses.
Proof.
  intros p chat responses inputs.
  assert (Hinputs : inputs
                    = candidateInputs azure (plan_deployment p)
                        (plan_useResponsesAPI p)) by reflexivity.
  pose proof (candidateInputs_length azure (plan_deployment p)
                (plan_useResponsesAPI p)) as Hlen.
  rewrite <- Hinputs in Hlen.
  split; [rewrite Hinputs; apply azureUrls_form |].
  split; [intros E; rewrite E in Hlen; cbn in Hlen; lia |].
  split.
  - intros optionsList Hlist. pose proof (reqOptionsList_Gave _ _ _ Hlist) as H2.
    rewrite <- Hinputs in H2. split.
    + intros E. subst optionsList. apply Forall2_length in H2.
      rewrite H2 in Hlen. cbn in Hlen. lia.
    + eapply Forall2_impl; [exact H2 |].
      intros input o (url & Hurl & ->). exists url. repeat split. exact Hurl.
  - subst responses. unfold responsesInputs, versionPaths.
    destruct (Js.truthy (apiVersion azure)), (Js.truthy_str (router azure)),
      (String.eqb (apiVersion azure) "2025-04-01-preview"); cbn [app].
    all: repeat match goal with
                | |- Forall _ [] => apply ListDef.Forall_nil
                | |- Forall _ (_ :: _) => apply ListDef.Forall_cons; [cbv beta |]
                | |- routerResponsesPath _ <> _ => apply router_not_chat
                | |- deploymentResponsesPath _ _ <> _ => apply deployment_not_chat
                end.
Qed.

(** ** The dispatcher on every candidate list *)

(** Every dispatch over a non-empty list stops at one candidate, after the
    candidates before it. *)
Lemma dispatch_shape (requestJson : RequestOptions -> Payload -> Outcome)
    (optionsList : list RequestOptions) (payload : Payload) :
  optionsList <> [] ->
  exists before options after,
    optionsList = (before ++ options :: after)%list
    /\ requestWithFallback requestJson optionsList payload
       = (map (attemptOf payload) (before ++ [options]),
          settle options (outcomeFor requestJson payload options)).
Proof.
  intros Hne.
  destruct (stopping_candidate requestJson payload optionsList Hne)
    as (before & options & after & Heq & Hb & Hs).
  exists before, options, after. split; [exact Heq |].
  unfold requestWithFallback. rewrite Heq.
  apply (fallbackLoop_stops _ _ _ _ _ _ Hb Hs).
Qed.

Lemma attemptOf_options (payload : Payload) (l : list RequestOptions) :
  map a_options (map (attemptOf payload) l) = l.
Proof. rewrite map_map. apply map_id. Qed.

(** X4. For every backend and every candidate list, the candidates the
    dispatcher attempts are a prefix of the list, each attempt carries the
    original payload adapted to its own candidate, and the result is the
    settled outcome of the last attempt.  Only the empty list ends without
    an attempt, with the error "Azure request failed". *)
Theorem dispatch_settles (requestJson : RequestOptions -> Payload -> Outcome)
    (optionsList : list RequestOptions) (payload : Payload) :
  let attempts := fst (requestWithFallback requestJson optionsList payload) in
  let result := snd (requestWithFallback requestJson optionsList payload) in
  map a_options attempts `prefix_of` optionsList
  /\ Forall (fun a => a_payload a = adaptPayload (a_options a) payload) attempts
  /\ match last attempts with
     | Some a => result = settle (a_options a) (requestJson (a_options a) (a_payload a))
     | None => optionsList = [] /\ result = Thrown "Azure request failed"
     end.
Proof.
  intros attempts result.
  split; [| split; [apply fallbackLoop_attempts |]].
  - subst attempts. destruct optionsList as [|o rest]; [apply prefix_nil |].
    destruct (dispatch_shape requestJson (o :: rest) payload)
      as (before & options & after & Heq & Hrun); [discriminate |].
    rewrite Hrun, Heq. cbn [fst]. rewrite attemptOf_options.
    exists after. now rewrite <- app_assoc.
  - subst attempts result. destruct optionsList as [|o rest]; [cbn; auto |].
    destruct (dispatch_shape requestJson (o :: rest) payload)
      as (before & options & after & Heq & Hrun); [discriminate |].
    rewrite Hrun. cbn [fst snd]. rewrite map_app. cbn [map].
    rewrite last_snoc. reflexivity.
Qed.

(** X5. When a payload built for the Responses shape is sent to a
    chat-completions path, the dispatcher renames [input] to [messages] and
    [max_output_tokens] to [max_completion_tokens]: the token limit is
    never zero, so the second renaming always happens.  Every other field,
    the Responses-style [reasoning] included, is sent as it was built.  On
    any other path the payload is sent unchanged, and a payload built for
    the native shape is never touched. *)
Theorem fallback_payload {rt : Builtins} (JSON_stringify : json -> string)
    (claudeReq : ClaudeRequest) (config : AzureConfig) (options : RequestOptions) :
  let built := buildOpenAIRequest JSON_stringify claudeReq config true in
  let sent := adaptPayload options built in
  (Js.includes (path options) "/chat/completions" = true ->
     p_input sent = None
     /\ p_messages sent = p_input built
     /\ p_max_output_tokens sent = None
     /\ p_max_completion_tokens sent
        = Some (clampTokens (requestedMaxTokens claudeReq))
     /\ p_model sent = p_model built
     /\ p_stream sent = p_stream built
     /\ p_temperature sent = p_temperature built
     /\ p_tools sent = p_tools built
     /\ p_reasoning sent = p_reasoning built
     /\ p_reasoning_effort sent = None)
  /\ (Js.includes (path options) "/chat/completions" = false -> sent = built)
  /\ adaptPayload options (buildOpenAIRequest JSON_stringify claudeReq config false)
     = buildOpenAIRequest JSON_stringify claudeReq config false.
Proof.
  intros built sent.
  assert (Hpos : truthyZ (Some (clampTokens (requestedMaxTokens claudeReq))) = true).
  { pose proof (clampTokens_range (requestedMaxTokens claudeReq)) as Hr.
    cbn. destruct (Z.eqb_spec (clampTokens (requestedMaxTokens claudeReq)) 0);
      [lia | reflexivity]. }
  split; [| split].
  - intros Hchat. subst sent built. unfold adaptPayload, buildOpenAIRequest.
    cbn [p_input p_max_output_tokens path]. rewrite Hchat, Hpos. cbn.
    repeat split; reflexivity.
  - intros Hchat. subst sent built. unfold adaptPayload, buildOpenAIRequest.
    cbn [p_input]. now rewrite Hchat.
  - reflexivity.
Qed.

Lemma dispatch_count (requestJson : RequestOptions -> Payload -> Outcome)
    (optionsList : list RequestOptions) (payload : Payload) :
  optionsList <> [] ->
  let attempts := fst (requestWithFallback requestJson optionsList payload) in
  (1 <= List.length attempts <= List.length optionsList)%nat
  /\ Forall (fun a => In (a_options a) optionsList) attempts.
Proof.
  intros Hne attempts. subst attempts.
  destruct (dispatch_shape requestJson optionsList payload Hne)
    as (before & options & after & Heq & Hrun).
  rewrite Hrun, Heq. cbn [fst]. rewrite length_map, !length_app. cbn [List.length].
  split; [lia |].
  apply List.Forall_forall. intros a Ha. apply in_map_iff in Ha as (o & <- & Ho).
  cbn [attemptOf a_options]. apply in_app_or in Ho as [Ho | [<- | []]];
    apply in_or_app; [left | right; left]; auto.
Qed.

(** X6. When the URLs of a translated request can be built, the request
    makes at least one backend call and at most four; in the native shape
    it makes exactly one, streamed or not.  Every call goes to a candidate
    of the request's list, with the configured key.  When [new URL] throws
    (the configured endpoint is no absolute URL), no call is made and the
    client receives status 500 with the message of the error. *)
Theorem backend_calls_bounded {rt : Builtins} (JSON_stringify : json -> string)
    (JSON_parse : string -> option json) (parseResponse : string -> Parsed)
    (requestJson : RequestOptions -> Payload -> Outcome)
    (requestStream : RequestOptions -> Payload -> StreamOutcome)
    (now : string) (azure : AzureConfig) (claudeReq : ClaudeRequest) :
  let p := planRequest JSON_stringify azure claudeReq in
  let served :=
    serve JSON_stringify JSON_parse parseResponse requestJson requestStream
      now azure claudeReq in
  (forall optionsList,
     reqOptionsList azure p = Gave optionsList ->
     (1 <= List.length (fst served) <= 4)%nat
     /\ (plan_useResponsesAPI p = false -> List.length (fst served) = 1)
     /\ Forall (fun a => api_key (a_options a) = apiKey azure
                         /\ In (a_options a) optionsList)
          (fst served))
  /\ (forall message,
        reqOptionsList azure p = Threw message ->
        served
        = ([], JsonReply {| reply_status := 500;
                            reply_body := ErrorBody message |})).
Proof.
  intros p served. split.
  - intros optionsList Hlist.
    destruct (reqOptionsList_count azure p optionsList Hlist)
      as (Hmax & Hone & Hkey).
    rewrite List.Forall_forall in Hkey.
    assert (Hne : optionsList <> []).
    { intros E. rewrite E in Hmax. cbn in Hmax. lia. }
    assert (Hdispatch :
      let made := fst (requestWithFallback requestJson optionsList
                         (plan_openaiReq p)) in
      (1 <= List.length made <= 4)%nat
      /\ (plan_useResponsesAPI p = false -> List.length made = 1)
      /\ Forall (fun a => api_key (a_options a) = apiKey azure
                          /\ In (a_options a) optionsList) made).
    { destruct (dispatch_count requestJson _ (plan_openaiReq p) Hne) as [Hn Hin].
      cbv zeta in *. split; [lia |]. split; [intros H; specialize (Hone H); lia |].
      eapply Forall_impl; [exact Hin |]. intros a Ha. cbn in Ha.
      split; [now apply Hkey | exact Ha]. }
    subst served. unfold serve. fold p. rewrite Hlist.
    destruct (plan_wantsStream p).
    + destruct (plan_useResponsesAPI p) eqn:Euse.
      * unfold handleStreamingFromNonStreaming.
        destruct (requestWithFallback requestJson _ _) as [made result].
        exact Hdispatch.
      * destruct optionsList as [|options others]; [congruence |].
        cbn [fst List.length]. split; [lia |]. split; [reflexivity |].
        constructor; [| constructor]. cbn [a_options].
        split; [apply Hkey |]; now left.
    + unfold handleNonStreaming.
      destruct (requestWithFallback requestJson _ _) as [made result].
      exact Hdispatch.
  - intros message Hlist. subst served. unfold serve. fold p.
    now rewrite Hlist.
Qed.

(** ** The forward translation on every history *)

Lemma convertMessage_plain {rt : Builtins} (JSON_stringify : json -> string) (msg : Message) :
  Forall (fun m => o_content m <> ONull /\ o_tool_calls m = None
                   /\ o_tool_call_id m = None)
    (convertMessage JSON_stringify true msg).
Proof.
  unfold convertMessage.
  destruct (msg_content msg) as [s | blocks |];
    [repeat constructor; discriminate | | constructor].
  set (ps := collectParts true _ blocks).
  destruct (String.eqb _ "assistant" && _);
    [repeat constructor; discriminate |].
  destruct (negb (List.length (toolResultBlocks ps) =? 0)%nat);
    [repeat constructor; discriminate |].
  destruct (_ || _); [| constructor].
  destruct (textParts ps ++ imageParts ps)%list as [|[type text | type url] [|q rest]];
    try (repeat constructor; discriminate).
  destruct (String.eqb type "text"); repeat constructor; discriminate.
Qed.

(** X7. A payload built for the Responses shape carries its history under
    [input] and has no [messages]; no entry of it has null content, a
    [tool_calls] list or a [tool_call_id]: tool traffic is forwarded as
    text there. *)
Theorem responses_input_plain {rt : Builtins} (JSON_stringify : json -> string)
    (claudeReq : ClaudeRequest) (config : AzureConfig) :
  let built := buildOpenAIRequest JSON_stringify claudeReq config true in
  exists input,
    p_input built = Some input
    /\ p_messages built = None
    /\ Forall (fun m => o_content m <> ONull /\ o_tool_calls m = None
                        /\ o_tool_call_id m = None)
         input.
Proof.
  intros built. subst built. unfold buildOpenAIRequest. cbn [p_input p_messages].
  eexists. split; [reflexivity |]. split; [reflexivity |].
  unfold convertMessages. rewrite map_app. apply Forall_app. split.
  - destruct (req_system claudeReq) as [[s | blocks] |]; cbn;
      [destruct (Js.truthy s); cbn | |];
      repeat constructor; discriminate.
  - induction (default [] (req_messages claudeReq)) as [|msg rest IH];
      [constructor |].
    cbn [flat_map]. rewrite map_app. apply Forall_app. split; [| exact IH].
    pose proof (convertMessage_plain JSON_stringify msg) as H.
    induction H as [|m l (Hc & Ht & Hi) _ IHl]; [constructor |].
    cbn [map]. constructor; [| exact IHl].
    unfold nullToEmpty. destruct (o_content m) eqn:E; cbn; rewrite ?E;
      repeat split; auto; discriminate.
Qed.

Lemma collectParts_toolResults (useResponsesAPI : bool) (role : string)
    (blocks : list Block) :
  toolResultBlocks (collectParts useResponsesAPI role blocks)
  = flat_map (fun b => match b with BToolResult tr => [tr] | _ => [] end) blocks.
Proof.
  induction blocks as [|block rest IH]; [reflexivity |].
  cbn [collectParts flat_map].
  destruct block as [text | source | tu | tr |]; simpl; try exact IH.
  - destruct source as [src|]; [| exact IH].
    destruct (src_type src) as [t|]; [| exact IH].
    destruct (String.eqb t "base64"); exact IH.
  - now rewrite IH.
Qed.

Lemma toolUses_none (blocks : list Block) :
  existsb isToolUse blocks = false ->
  flat_map (fun b => match b with BToolUse tu => [tu] | _ => [] end) blocks = [].
Proof. induction blocks as [|[] rest IH]; cbn; auto. discriminate. Qed.

Lemma toolUses_some (blocks : list Block) :
  existsb isToolUse blocks = true ->
  flat_map (fun b => match b with BToolUse tu => [tu] | _ => [] end) blocks <> [].
Proof. induction blocks as [|[] rest IH]; cbn; auto; discriminate. Qed.

Lemma toolResults_none (blocks : list Block) :
  existsb isToolBlock blocks = false ->
  flat_map (fun b => match b with BToolResult tr => [tr] | _ => [] end) blocks = []
  /\ existsb isToolUse blocks = false.
Proof. induction blocks as [|[] rest IH]; cbn; auto; discriminate. Qed.

(** The first test of the message loop, read off the blocks. *)
Lemma callsTools_branch (role : string) (useResponsesAPI : bool)
    (blocks : list Block) :
  (String.eqb role "assistant"
   && negb (List.length (toolUseBlocks (collectParts useResponsesAPI role blocks))
            =? 0)%nat)
  = (String.eqb role "assistant" && existsb isToolUse blocks).
Proof.
  rewrite collectParts_toolUses. f_equal.
  destruct (existsb isToolUse blocks) eqn:E.
  - apply toolUses_some in E. destruct (flat_map _ blocks); [congruence | reflexivity].
  - now rewrite toolUses_none.
Qed.

Lemma toolAnswers_app (a b : list OaiMessage) :
  toolAnswers (a ++ b) = (toolAnswers a ++ toolAnswers b)%list.
Proof. apply flat_map_app. Qed.

Lemma toolAnswers_convertMessage {rt : Builtins} (JSON_stringify : json -> string) (msg : Message) :
  toolAnswers (convertMessage JSON_stringify false msg)
  = match msg_content msg with
    | CBlocks blocks =>
        if callsTools msg then []
        else map (fun id => ("tool", id)) (resultIds blocks)
    | _ => []
    end.
Proof.
  unfold convertMessage, callsTools.
  destruct (msg_content msg) as [s | blocks |]; [reflexivity | | reflexivity].
  set (role := Js.or_str (msg_role msg) "user").
  rewrite callsTools_branch.
  destruct (String.eqb role "assistant" && existsb isToolUse blocks);
    [reflexivity |].
  rewrite collectParts_toolResults.
  set (ps := collectParts false role blocks).
  assert (Hids :
    toolAnswers
      (map (fun result =>
              {| o_role := "tool";
                 o_content :=
                   OString (if tr_is_error result
                            then "Error: " ++ resultText JSON_stringify result
                            else resultText JSON_stringify result);
                 o_tool_calls := None;
                 o_tool_call_id := Some (Js.or_str (tr_tool_use_id result) "") |})
           (flat_map (fun b => match b with BToolResult tr => [tr] | _ => [] end)
              blocks))
    = map (fun id => ("tool", id)) (resultIds blocks)).
  { unfold resultIds. induction blocks as [|[] rest IH]; cbn; auto.
    f_equal. apply IH. }
  destruct (flat_map _ blocks) as [|tr trs] eqn:Eres.
  - cbn [List.length Nat.eqb negb].
    assert (Hnone : resultIds blocks = []).
    { cbn in Hids. symmetry in Hids. now apply map_eq_nil in Hids. }
    rewrite Hnone.
    destruct (_ || _); [| reflexivity].
    destruct (textParts ps ++ imageParts ps)%list
      as [|[type text | type url] [|q rest]]; try reflexivity.
    destruct (String.eqb type "text"); reflexivity.
  - cbn [List.length Nat.eqb negb]. rewrite toolAnswers_app, Hids.
    destruct (_ && _); cbn; now rewrite app_nil_r.
Qed.

(** X8. In the native shape every tool_result block of a message becomes
    one entry of role tool that carries its [tool_use_id], in the order of
    the blocks and whatever other blocks surround them, and no other entry
    carries a [tool_call_id]; only an assistant message that itself holds
    tool_use blocks forwards none of its tool_result blocks. *)
Theorem tool_results_forwarded {rt : Builtins} (JSON_stringify : json -> string)
    (messages : list Message) (system : option SystemPrompt) :
  toolAnswers (convertMessages JSON_stringify messages system false)
  = flat_map
      (fun msg =>
         match msg_content msg with
         | CBlocks blocks =>
             if callsTools msg then []
             else map (fun id => ("tool", id)) (resultIds blocks)
         | _ => []
         end)
      messages.
Proof.
  unfold convertMessages. rewrite toolAnswers_app.
  assert (Hsys : toolAnswers (systemEntry system) = []).
  { destruct system as [[s | blocks] |]; cbn; [destruct (Js.truthy s) | |];
      reflexivity. }
  rewrite Hsys. cbn [app].
  induction messages as [|msg rest IH]; [reflexivity |].
  cbn [flat_map]. now rewrite toolAnswers_app, toolAnswers_convertMessage, IH.
Qed.

Lemma convertMessage_no_tools {rt : Builtins} (JSON_stringify : json -> string)
    (useResponsesAPI : bool) (msg : Message) :
  match msg_content msg with
  | CBlocks blocks => existsb isToolBlock blocks = false
  | _ => True
  end ->
  Forall (fun m => o_tool_calls m = None /\ o_tool_call_id m = None)
    (convertMessage JSON_stringify useResponsesAPI msg).
Proof.
  unfold convertMessage.
  destruct (msg_content msg) as [s | blocks |]; intros Hnone;
    [repeat constructor | | constructor].
  apply toolResults_none in Hnone as [Hres Huse].
  set (role := Js.or_str (msg_role msg) "user").
  rewrite callsTools_branch, Huse, andb_false_r.
  rewrite collectParts_toolResults, Hres. cbn [List.length Nat.eqb negb].
  destruct (_ || _); [| constructor].
  destruct (textParts _ ++ imageParts _)%list as [|[type text | type url] [|q rest]];
    try (repeat constructor).
  destruct (String.eqb type "text"); repeat constructor.
Qed.

(** X9. What [hasToolUsage] does not detect, the translation does not
    produce: for a history without tool_use and tool_result blocks no
    forwarded entry has a [tool_calls] list or a [tool_call_id], in either
    shape. *)
Theorem no_tool_usage_plain {rt : Builtins} (JSON_stringify : json -> string)
    (messages : list Message) (system : option SystemPrompt)
    (useResponsesAPI : bool) :
  hasToolUsage messages = false ->
  Forall (fun m => o_tool_calls m = None /\ o_tool_call_id m = None)
    (convertMessages JSON_stringify messages system useResponsesAPI).
Proof.
  intros Hnone. unfold convertMessages. apply Forall_app. split.
  - destruct system as [[s | blocks] |]; cbn; [destruct (Js.truthy s) | |];
      repeat constructor.
  - unfold hasToolUsage in Hnone.
    induction messages as [|msg rest IH]; [constructor |].
    cbn [existsb] in Hnone. apply orb_false_elim in Hnone as [Hmsg Hrest].
    cbn [flat_map]. apply Forall_app. split; [| now apply IH].
    apply convertMessage_no_tools.
    destruct (msg_content msg); auto.
Qed.

Lemma no_tool_usage_plain_witness :
  hasToolUsage (default [] (req_messages Sample.hello)) = false
  /\ Forall (fun m => o_tool_calls m = None /\ o_tool_call_id m = None)
       (convertMessages (rt := Sample.node) JsonText.stringify
          (default [] (req_messages Sample.hello))
          (Some (SysString "Be brief.")) false).
Proof.
  split; [reflexivity |].
  apply (no_tool_usage_plain (rt := Sample.node) JsonText.stringify
           (default [] (req_messages Sample.hello))
           (Some (SysString "Be brief.")) false).
  reflexivity.
Defined.

Lemma collectParts_withoutToolUse (useResponsesAPI : bool) (role : string)
    (blocks : list Block) :
  let kept := collectParts useResponsesAPI role (withoutToolUse blocks) in
  let all := collectParts useResponsesAPI role blocks in
  textParts kept = textParts all
  /\ imageParts kept = imageParts all
  /\ toolResultBlocks kept = toolResultBlocks all
  /\ toolUseBlocks kept = [].
Proof.
  induction blocks as [|block rest IH]; [cbn; auto |].
  cbv zeta in *. destruct IH as (Ht & Hi & Hr & Hu).
  destruct block as [text | source | tu | tr |];
    cbn [withoutToolUse List.filter isToolUse negb collectParts];
    fold (withoutToolUse rest); cbn; auto.
  - rewrite Ht. auto.
  - destruct source as [src|]; auto.
    destruct (src_type src) as [t|]; auto.
    destruct (String.eqb t "base64"); cbn; auto.
    rewrite Hi. auto.
  - rewrite Hr. auto.
Qed.

(** X10. The tool_use blocks of a message whose role is not assistant are
    dropped: the message is forwarded, in either shape, exactly as the same
    message without them. *)
Theorem foreign_tool_use_dropped {rt : Builtins} (JSON_stringify : json -> string)
    (useResponsesAPI : bool) (role : option string) (blocks : list Block) :
  Js.or_str role "user" <> "assistant" ->
  convertMessage JSON_stringify useResponsesAPI
    {| msg_role := role; msg_content := CBlocks blocks |}
  = convertMessage JSON_stringify useResponsesAPI
      {| msg_role := role; msg_content := CBlocks (withoutToolUse blocks) |}.
Proof.
  intros Hrole. apply String.eqb_neq in Hrole.
  unfold convertMessage. cbn [msg_role msg_content].
  rewrite Hrole. cbn [andb].
  destruct (collectParts_withoutToolUse useResponsesAPI (Js.or_str role "user") blocks)
    as (Ht & Hi & Hr & _).
  now rewrite Ht, Hi, Hr.
Qed.

Lemma foreign_tool_use_dropped_witness :
  Js.or_str (Some "user") "user" <> "assistant"
  /\ convertMessage (rt := Sample.node) JsonText.stringify false
       {| msg_role := Some "user"; msg_content := CBlocks Scenario.quoted |}
     = convertMessage (rt := Sample.node) JsonText.stringify false
         {| msg_role := Some "user";
            msg_content := CBlocks (withoutToolUse Scenario.quoted) |}.
Proof.
  split; [vm_compute; discriminate |].
  apply (foreign_tool_use_dropped (rt := Sample.node) JsonText.stringify false
           (Some "user") Scenario.quoted).
  vm_compute. discriminate.
Defined.



(** X12. The reasoning directive is written under one name only, the one
    of the payload's shape, and it is the configured effort or nothing.
    Without a configured effort nothing is written.  With a target model
    and a router it is written for every request; without a target model
    it is written exactly when the lower-cased model name of the payload
    contains gpt-5. *)
Theorem reasoning_directive {rt : Builtins} (JSON_stringify : json -> string)
    (claudeReq : ClaudeRequest) (config : AzureConfig) (useResponsesAPI : bool) :
  let built := buildOpenAIRequest JSON_stringify claudeReq config useResponsesAPI in
  let directive :=
    if useResponsesAPI then p_reasoning built else p_reasoning_effort built in
  let other :=
    if useResponsesAPI then p_reasoning_effort built else p_reasoning built in
  other = None
  /\ (directive = None \/ directive = reasoningEffort config)
  /\ (Js.truthy_str (reasoningEffort config) = false -> directive = None)
  /\ (Js.truthy_str (reasoningEffort config) = true ->
      Js.truthy_str (reasoningModel config) = true ->
      Js.truthy_str (router config) = true ->
        directive = reasoningEffort config)
  /\ (Js.truthy_str (reasoningEffort config) = true ->
      Js.truthy_str (reasoningModel config) = false ->
        directive
        = if Js.includes (toLowerCase (p_model built)) "gpt-5"
          then reasoningEffort config else None).
Proof.
  intros built directive other.
  assert (Hd : directive
               = match reasoningEffort config with
                 | Some effort =>
                     if Js.truthy effort && shouldApplyReasoning config (p_model built)
                     then Some effort else None
                 | None => None
                 end).
  { subst directive built. unfold buildOpenAIRequest.
    destruct useResponsesAPI; reflexivity. }
  assert (Ho : other = None).
  { subst other built. unfold buildOpenAIRequest.
    destruct useResponsesAPI; reflexivity. }
  assert (Htarget : Js.truthy_str (option_map toLowerCase (reasoningModel config))
                    = Js.truthy_str (reasoningModel config)).
  { destruct (reasoningModel config) as [m|]; [apply toLowerCase_truthy | reflexivity]. }
  rewrite Hd. clear Hd. split; [exact Ho |].
  unfold shouldApplyReasoning. rewrite Htarget.
  destruct (reasoningEffort config) as [effort|]; cbn [Js.truthy_str].
  - split; [destruct (_ && _); auto |].
    split; [intros ->; reflexivity |].
    split.
    + intros -> -> ->. now rewrite orb_true_r.
    + intros -> ->. reflexivity.
  - repeat split; auto; discriminate.
Qed.

(** ** The reverse translation on every reply *)

Lemma extractToolCall_tools (JSON_parse : string -> option json) (item : Entity) :
  forallb (fun b => negb (isTextBlock b)) (extractToolCall JSON_parse item) = true.
Proof.
  unfold extractToolCall.
  destruct (_ || _); [reflexivity |]. destruct (_ && _); reflexivity.
Qed.

Lemma forallb_flat_map {A B : Type} (p : B -> bool) (f : A -> list B) (l : list A) :
  (forall x, forallb p (f x) = true) -> forallb p (flat_map f l) = true.
Proof.
  intros H. induction l as [|x l IH]; [reflexivity |].
  cbn [flat_map]. now rewrite forallb_app, H, IH.
Qed.

Lemma known_stopReasonTable (finish_reason : option string) :
  knownStopReason (Reason (stopReasonTable finish_reason)) = true.
Proof.
  unfold stopReasonTable. destruct finish_reason as [r|]; [| reflexivity].
  repeat (destruct (String.eqb r _); [reflexivity |]). reflexivity.
Qed.

Lemma known_mapStopReason (finish_reason : option string) :
  Js.inherited (Js.or_str finish_reason "stop") = false ->
  knownStopReason (mapStopReason finish_reason) = true.
Proof.
  intros H. rewrite mapStopReason_table by exact H. apply known_stopReasonTable.
Qed.

Lemma knownOrInherited_mapStopReason (finish_reason : option string) :
  knownOrInherited (mapStopReason finish_reason) = true.
Proof.
  rewrite mapStopReason_cases.
  destruct (Js.inherited _) eqn:E; [exact E | apply known_stopReasonTable].
Qed.

(** The stop reason of a converted reply, by cases on the finish reason. *)
Lemma convertResponse_stop_reason (JSON_parse : string -> option json)
    (fallbackId : string) (openaiRes : OpenAIResponse) (model : string) :
  cr_stop_reason (convertResponse JSON_parse fallbackId openaiRes model)
  = if Js.inherited (Js.or_str (firstFinishReason openaiRes) "stop")
    then Inherited (Js.or_str (firstFinishReason openaiRes) "stop")
    else Reason (stopReasonTable (firstFinishReason openaiRes)).
Proof.
  unfold convertResponse, firstFinishReason.
  destruct (r_choices openaiRes) as [[|choice others] |]; cbn [cr_stop_reason];
    try reflexivity.
  apply mapStopReason_cases.
Qed.

Lemma known_convertResponse (JSON_parse : string -> option json)
    (fallbackId : string) (openaiRes : OpenAIResponse) (model : string) :
  Js.inherited (Js.or_str (firstFinishReason openaiRes) "stop") = false ->
  knownStopReason (cr_stop_reason (convertResponse JSON_parse fallbackId openaiRes model))
  = true.
Proof.
  unfold convertResponse, firstFinishReason.
  destruct (r_choices openaiRes) as [[|choice others] |]; cbn [cr_stop_reason];
    try reflexivity.
  apply known_mapStopReason.
Qed.

Lemma knownOrInherited_convertResponse (JSON_parse : string -> option json)
    (fallbackId : string) (openaiRes : OpenAIResponse) (model : string) :
  knownOrInherited
    (cr_stop_reason (convertResponse JSON_parse fallbackId openaiRes model))
  = true.
Proof.
  unfold convertResponse.
  destruct (r_choices openaiRes) as [[|choice others] |]; cbn [cr_stop_reason];
    try reflexivity.
  apply knownOrInherited_mapStopReason.
Qed.

(** X13. Every converted reply, of either layout, consists of at most one
    text block, placed first, followed by tool_use blocks only; it echoes
    the model name of the client's request; its stop reason is end_turn
    whenever the reply has no choices, tool uses or not, and it is one of
    end_turn, max_tokens and tool_use as long as the finish_reason of the
    first choice is not the name of a property that the table inherits
    (constructor, toString, __proto__ and the like); for such a name it is
    the inherited value, which is no string. *)
Theorem reply_layout (JSON_parse : string -> option json) (fallbackId : string)
    (openaiRes : OpenAIResponse) (model : string) :
  let response := convertResponse JSON_parse fallbackId openaiRes model in
  let key := Js.or_str (firstFinishReason openaiRes) "stop" in
  (exists texts tools,
      cr_content response = (texts ++ tools)%list
      /\ (List.length texts <= 1)%nat
      /\ forallb isTextBlock texts = true
      /\ forallb (fun b => negb (isTextBlock b)) tools = true)
  /\ cr_model response = model
  /\ (Js.inherited key = false -> knownStopReason (cr_stop_reason response) = true)
  /\ (Js.inherited key = true -> cr_stop_reason response = Inherited key)
  /\ (default [] (r_choices openaiRes) = [] ->
        cr_stop_reason response = Reason "end_turn").
Proof.
  intros response key.
  split; [| split; [| split; [apply known_convertResponse | split]]];
    subst response key; unfold convertResponse, firstFinishReason;
    destruct (r_choices openaiRes) as [[|choice others] |];
    cbn [cr_content cr_model cr_stop_reason default head mbind option_bind];
    try reflexivity; try discriminate.
  2: { unfold choiceContent.
       eexists _, _. split; [reflexivity |].
       destruct (m_content _) as [text|]; [destruct (Js.truthy text) |];
         (split; [cbn; lia |]); (split; [reflexivity |]);
         destruct (m_tool_calls _); try reflexivity;
         now apply forallb_forall; intros b Hb;
           apply in_map_iff in Hb as (tc & <- & _). }
  3: { change (head (id (choice :: others)) ≫= c_finish_reason)
         with (c_finish_reason choice).
       intros H. now rewrite mapStopReason_cases, H. }
  all: try (eexists _, _; split; [reflexivity |];
            split; [destruct (_ ++ _)%list; cbn; lia |];
            split; [destruct (_ ++ _)%list; reflexivity |];
            apply forallb_flat_map; intros item; unfold itemToolUses;
            destruct (typeIs _ "message"); [| apply extractToolCall_tools];
            destruct (i_content item); try reflexivity;
            apply forallb_flat_map, extractToolCall_tools).
Qed.

(** X14. The token counts of a reply are read under either naming: when
    the usage carries only the OpenAI names (prompt_tokens,
    completion_tokens) or only the Anthropic names (input_tokens,
    output_tokens), the converted reply reports those two counts, in both
    layouts. *)
Theorem usage_either_naming (JSON_parse : string -> option json)
    (fallbackId : string) (openaiRes : OpenAIResponse) (model : string)
    (sent received : nat) :
  r_usage openaiRes
  = Some {| prompt_tokens := Some sent; completion_tokens := Some received;
            input_tokens := None; output_tokens := None |}
  \/ r_usage openaiRes
     = Some {| prompt_tokens := None; completion_tokens := None;
               input_tokens := Some sent; output_tokens := Some received |} ->
  let response := convertResponse JSON_parse fallbackId openaiRes model in
  cr_input_tokens response = sent /\ cr_output_tokens response = received.
Proof.
  intros Husage response. subst response. unfold convertResponse.
  destruct (r_choices openaiRes) as [[|choice others] |];
    cbn [cr_input_tokens cr_output_tokens];
    destruct Husage as [-> | ->]; cbn;
    destruct sent, received; auto.
Qed.

Lemma usage_either_naming_witness :
  (r_usage Scenario.counted
   = Some {| prompt_tokens := Some 12; completion_tokens := Some 34;
             input_tokens := None; output_tokens := None |}
   \/ r_usage Scenario.counted
      = Some {| prompt_tokens := None; completion_tokens := None;
                input_tokens := Some 12; output_tokens := Some 34 |})
  /\ cr_input_tokens
       (convertResponse JsonText.parse "msg_1" Scenario.counted "claude-sonnet-4")
     = 12
  /\ cr_output_tokens
       (convertResponse JsonText.parse "msg_1" Scenario.counted "claude-sonnet-4")
     = 34.
Proof.
  split; [left; reflexivity |].
  apply (usage_either_naming JsonText.parse "msg_1" Scenario.counted
           "claude-sonnet-4" 12 34).
  left. reflexivity.
Defined.

Ltac reply_case :=
  repeat match goal with
         | |- _ /\ _ => split
         | |- _ <-> _ => split
         | |- forall _, _ => intro
         | H : exists _, _ |- _ => destruct H
         | H : RawBody _ = RawBody _ |- _ => injection H as <-
         | H : _ = _ |- _ => discriminate H
         | |- exists statusCode options, Returned _ _ _ = _ /\ _ =>
             eexists _, _; split; [reflexivity |]
         end;
  try lia; eauto.

(** X15. The plain reply never has status 0.  Its status is 200 exactly
    when its body is a converted message; a failed request and an
    unreadable body give status 500 with an error object; a raw body is
    the body of a backend answer whose status was not 200, passed on under
    that status (500 when the backend gave none). *)
Theorem plain_reply_status (JSON_parse : string -> option json)
    (parseResponse : string -> Parsed) (fallbackId model : string)
    (result : DispatchResult) :
  let reply := plainReply JSON_parse parseResponse fallbackId model result in
  reply_status reply <> 0
  /\ (reply_status reply = 200 <-> exists response, reply_body reply = MessageBody response)
  /\ (forall message, reply_body reply = ErrorBody message -> reply_status reply = 500)
  /\ (forall body, reply_body reply = RawBody body ->
        exists statusCode options,
          result = Returned statusCode body options /\ statusCode <> 200
          /\ reply_status reply = (if (statusCode =? 0)%nat then 500 else statusCode)).
Proof.
  intros reply. subst reply. unfold plainReply.
  destruct result as [statusCode body options | message]; cbn [reply_status reply_body].
  2: { reply_case. }
  destruct (Nat.eqb_spec statusCode 200) as [-> | Hne]; cbn [negb].
  - destruct (parseResponse body) as [message | data];
      cbn [reply_status reply_body]; reply_case.
  - cbn [reply_status reply_body].
    destruct (Nat.eqb_spec statusCode 0) as [-> | Hz]; reply_case.
    destruct (Nat.eqb_spec statusCode 0); [lia | reflexivity].
Qed.

(** X16. A client that asks for a stream in the Responses shape is told
    what a client that asks for a plain reply is told: both handlers make
    the same backend calls, and the stream is message_start followed by
    the events of the converted message where the plain reply carries that
    message, and by the error text block where the plain reply carries a
    raw body or an error. *)
Theorem stream_matches_plain (JSON_stringify : json -> string)
    (JSON_parse : string -> option json) (parseResponse : string -> Parsed)
    (requestJson : RequestOptions -> Payload -> Outcome)
    (msgId fallbackId model : string) (optionsList : list RequestOptions)
    (openaiReq : Payload) :
  let streamed :=
    handleStreamingFromNonStreaming JSON_stringify JSON_parse parseResponse
      requestJson msgId fallbackId optionsList openaiReq model in
  let replied :=
    handleNonStreaming JSON_parse parseResponse requestJson fallbackId
      optionsList openaiReq model in
  fst streamed = fst replied
  /\ snd streamed
     = message_start msgId model ::
       match reply_body (snd replied) with
       | MessageBody response => responseEvents JSON_stringify response
       | RawBody body => writeError ("Error from Azure: " ++ body)
       | ErrorBody message => writeError ("Error from Azure: " ++ message)
       end.
Proof.
  intros streamed replied. subst streamed replied.
  unfold handleStreamingFromNonStreaming, handleNonStreaming.
  destruct (requestWithFallback requestJson optionsList openaiReq)
    as [attempts result].
  cbn [fst snd]. split; [reflexivity |]. f_equal.
  unfold synthesizedEvents, plainReply.
  destruct result as [statusCode body options | message]; [| reflexivity].
  destruct (negb (statusCode =? 200)%nat); [reflexivity |].
  destruct (parseResponse body); reflexivity.
Qed.

(** ** What every stream announces and how it ends *)

Lemma stopReasons_app (a b : list Event) :
  stopReasons (a ++ b) = (stopReasons a ++ stopReasons b)%list.
Proof. apply flat_map_app. Qed.

Lemma stopReasons_blocks (events : list Event) :
  forallb isBlockEvent events = true -> stopReasons events = [].
Proof.
  induction events as [|e rest IH]; [reflexivity |].
  cbn [forallb]. intros H. apply andb_prop in H as [He Hrest].
  destruct e; try discriminate; cbn; auto.
Qed.

Lemma stops_are_blocks (indices : list nat) :
  forallb isBlockEvent (map content_block_stop indices) = true.
Proof. induction indices; [reflexivity | assumption]. Qed.

Lemma synthesizedAtEnd_blocks (st : StreamState) :
  forallb isBlockEvent (synthesizedAtEnd st) = true.
Proof.
  unfold synthesizedAtEnd.
  destruct (negb (textBlockStarted st) && _); reflexivity.
Qed.

Lemma known_nextFinishReason (current : string) (finish_reason : option string) :
  knownStopReason (Reason current) = true ->
  knownStopReason (Reason (nextFinishReason current finish_reason)) = true.
Proof.
  intros Hc. unfold nextFinishReason.
  destruct finish_reason as [r|]; [| exact Hc].
  destruct (Js.truthy r); [| exact Hc].
  destruct (String.eqb r "tool_calls"); [reflexivity |].
  destruct (String.eqb r "length"); reflexivity.
Qed.

Lemma known_reasons (lines : list SseLine) (reason : string) :
  knownStopReason (Reason reason) = true ->
  knownStopReason (Reason (fold_left reasonAfter lines reason)) = true.
Proof.
  revert reason. induction lines as [|line rest IH]; intros reason Hr; [exact Hr |].
  cbn [fold_left]. apply IH. unfold reasonAfter.
  destruct line as [|data]; [exact Hr |].
  destruct (default [] (ch_choices data)); [exact Hr |].
  now apply known_nextFinishReason.
Qed.

Lemma known_handleStreaming (msgId model : string) (outcome : StreamOutcome) :
  forallb knownStopReason (stopReasons (handleStreaming msgId model outcome)) = true.
Proof.
  unfold handleStreaming.
  change (stopReasons (message_start msgId model :: ?l)) with (stopReasons l).
  destruct outcome as [statusCode errorBody lines ended | message]; [| reflexivity].
  destruct (negb (statusCode =? 200)%nat); [destruct ended; reflexivity |].
  pose proof (relay_reached lines) as [_ _ _ _ Hb].
  pose proof (meta_onLines lines initialState) as Hmeta.
  destruct (onLines initialState lines) as [st events]. cbn [fst snd] in *.
  destruct ended; [| now rewrite (stopReasons_blocks _ Hb)].
  rewrite onEnd_parts, !stopReasons_app, (stopReasons_blocks _ Hb).
  rewrite (stopReasons_blocks _ (stops_are_blocks _)).
  rewrite (stopReasons_blocks _ (synthesizedAtEnd_blocks st)).
  cbn [app stopReasons flat_map forallb]. rewrite andb_true_r.
  unfold metaOf in Hmeta. injection Hmeta as -> _.
  now apply known_reasons.
Qed.

Lemma known_weaken (reasons : list StopReason) :
  forallb knownStopReason reasons = true ->
  forallb knownOrInherited reasons = true.
Proof.
  intros H. apply forallb_forall. intros r Hr.
  rewrite forallb_forall in H. specialize (H r Hr).
  destruct r; [exact H | discriminate].
Qed.

Lemma known_orEndTurn (reason : StopReason) :
  knownStopReason reason = true -> knownStopReason (orEndTurn reason) = true.
Proof.
  destruct reason as [text | key]; [| discriminate].
  intros H. unfold orEndTurn, Js.or_default.
  destruct (Js.truthy text); [exact H | reflexivity].
Qed.

Lemma knownOrInherited_orEndTurn (reason : StopReason) :
  knownOrInherited reason = true -> knownOrInherited (orEndTurn reason) = true.
Proof.
  destruct reason as [text | key]; [apply known_orEndTurn | auto].
Qed.

(** The stop reason of the synthesized stream is the one of the converted
    reply. *)
Lemma stopReasons_responseEvents (JSON_stringify : json -> string)
    (response : ClaudeResponse) :
  stopReasons (responseEvents JSON_stringify response)
  = [orEndTurn (cr_stop_reason response)].
Proof.
  unfold responseEvents. rewrite stopReasons_app.
  match goal with
  | |- context [(stopReasons ?blocks ++ _)%list] =>
      assert (Hb : stopReasons blocks = [])
  end.
  { destruct (cr_content _); [reflexivity |].
    apply stopReasons_blocks, blockEvents_blocks. }
  now rewrite Hb.
Qed.

Lemma known_synthesized (JSON_stringify : json -> string)
    (JSON_parse : string -> option json) (parseResponse : string -> Parsed)
    (fallbackId model : string) (result : DispatchResult) :
  forallb knownOrInherited
    (stopReasons (synthesizedEvents JSON_stringify JSON_parse parseResponse
                    fallbackId model result)) = true.
Proof.
  unfold synthesizedEvents.
  destruct result as [statusCode body options | message]; [| reflexivity].
  destruct (negb (statusCode =? 200)%nat); [reflexivity |].
  destruct (parseResponse body) as [message | data]; [reflexivity |].
  rewrite stopReasons_responseEvents. cbn [forallb]. rewrite andb_true_r.
  apply knownOrInherited_orEndTurn, knownOrInherited_convertResponse.
Qed.

(** X17. Whatever the backend does, every stop reason that the native
    relay tells the client is one of end_turn, max_tokens and tool_use.
    On the other paths (the synthesized stream and the plain message) the
    stop reason is one of the three as long as the finish_reason of the
    reply is not the name of a property that the table inherits; for such
    a name the client is told the inherited value, which is no string. *)
Theorem stop_reasons_known {rt : Builtins} (JSON_stringify : json -> string)
    (JSON_parse : string -> option json) (parseResponse : string -> Parsed)
    (requestJson : RequestOptions -> Payload -> Outcome)
    (requestStream : RequestOptions -> Payload -> StreamOutcome)
    (now : string) (azure : AzureConfig) (claudeReq : ClaudeRequest) :
  forallb knownOrInherited
    (announcedReasons
       (snd (serve JSON_stringify JSON_parse parseResponse requestJson
               requestStream now azure claudeReq))) = true
  /\ (forall msgId model outcome,
        forallb knownStopReason (stopReasons (handleStreaming msgId model outcome))
        = true)
  /\ (forall fallbackId model openaiRes,
        let response := convertResponse JSON_parse fallbackId openaiRes model in
        let key := Js.or_str (firstFinishReason openaiRes) "stop" in
        stopReasons (responseEvents JSON_stringify response)
        = [orEndTurn (cr_stop_reason response)]
        /\ (Js.inherited key = false ->
              knownStopReason (cr_stop_reason response) = true
              /\ knownStopReason (orEndTurn (cr_stop_reason response)) = true)
        /\ (Js.inherited key = true ->
              cr_stop_reason response = Inherited key
              /\ orEndTurn (cr_stop_reason response) = Inherited key)).
Proof.
  split; [| split; [apply known_handleStreaming |]].
  - unfold serve. destruct (reqOptionsList _ _) as [message | optionsList];
      [reflexivity |].
    destruct (plan_wantsStream _).
    + destruct (plan_useResponsesAPI _).
      * unfold handleStreamingFromNonStreaming.
        destruct (requestWithFallback _ _ _) as [attempts result].
        cbn [snd announcedReasons].
        change (stopReasons (message_start ?i ?m :: ?l)) with (stopReasons l).
        apply known_synthesized.
      * destruct optionsList as [|options others]; [reflexivity |].
        cbn [snd announcedReasons]. apply known_weaken, known_handleStreaming.
    + unfold handleNonStreaming.
      destruct (requestWithFallback _ _ _) as [attempts result].
      cbn [snd announcedReasons]. unfold plainReply.
      destruct result as [statusCode body options | message]; [| reflexivity].
      destruct (negb (statusCode =? 200)%nat); [reflexivity |].
      destruct (parseResponse body) as [message | data]; [reflexivity |].
      cbn [reply_body forallb]. rewrite andb_true_r.
      apply knownOrInherited_convertResponse.
  - intros fallbackId model openaiRes response key.
    split; [apply stopReasons_responseEvents |].
    pose proof (convertResponse_stop_reason JSON_parse fallbackId openaiRes model)
      as Hcases.
    fold response key in Hcases. rewrite Hcases. split.
    + intros H. rewrite H. split; [apply known_stopReasonTable |].
      apply known_orEndTurn, known_stopReasonTable.
    + intros H. rewrite H. auto.
Qed.

Lemma messageStops_app (a b : list Event) :
  messageStops (a ++ b) = (messageStops a + messageStops b)%nat.
Proof. unfold messageStops. now rewrite List.filter_app, length_app. Qed.

Lemma messageStops_blocks (events : list Event) :
  forallb isBlockEvent events = true -> messageStops events = 0.
Proof.
  induction events as [|e rest IH]; [reflexivity |].
  cbn [forallb]. intros H. apply andb_prop in H as [He Hrest].
  destruct e; try discriminate; cbn; auto.
Qed.

Lemma blocks_not_start (events : list Event) :
  forallb isBlockEvent events = true ->
  forallb (fun e => negb (isMessageStart e)) events = true.
Proof.
  induction events as [|e l IH]; [reflexivity |]. cbn [forallb].
  intros H. apply andb_prop in H as [He Hl]. rewrite IH by assumption.
  destruct e; try discriminate; reflexivity.
Qed.

(** X18. The native stream begins with message_start and has no other.
    It holds exactly one message_stop when the backend response was read
    to its end, whatever its status, and none when the request failed or
    the response broke off: for a status other than 200 nothing follows
    message_start then.  What the client was sent before the response
    broke off is a prefix of what it would have been sent had the response
    ended there. *)
Theorem stream_termination (msgId model : string) (outcome : StreamOutcome) :
  (exists rest,
      handleStreaming msgId model outcome = message_start msgId model :: rest
      /\ forallb (fun e => negb (isMessageStart e)) rest = true)
  /\ messageStops (handleStreaming msgId model outcome)
     = (if completed outcome then 1 else 0)
  /\ (forall statusCode errorBody lines,
        handleStreaming msgId model
          (StreamResponse statusCode errorBody lines false)
        `prefix_of` handleStreaming msgId model
                      (StreamResponse statusCode errorBody lines true))
  /\ (forall statusCode errorBody lines,
        statusCode <> 200 ->
        handleStreaming msgId model
          (StreamResponse statusCode errorBody lines false)
        = [message_start msgId model]).
Proof.
  split; [| split; [| split]].
  3: { intros statusCode errorBody lines. unfold handleStreaming.
       destruct (negb (statusCode =? 200)%nat).
       - apply prefix_cons, prefix_nil.
       - destruct (onLines initialState lines) as [st events].
         apply prefix_cons, prefix_app_r. reflexivity. }
  3: { intros statusCode errorBody lines Hne. unfold handleStreaming.
       apply Nat.eqb_neq in Hne. now rewrite Hne. }
  all: unfold handleStreaming;
    destruct outcome as [statusCode errorBody lines ended | message];
    [| first [eexists; split; reflexivity | reflexivity]].
  all: pose proof (relay_reached lines) as [_ _ _ _ Hb];
    destruct (onLines initialState lines) as [st events]; cbn [fst snd] in Hb.
  - eexists. split; [reflexivity |].
    destruct (negb (statusCode =? 200)%nat); [destruct ended; reflexivity |].
    destruct ended; [| now apply blocks_not_start].
    rewrite forallb_app, (blocks_not_start _ Hb), onEnd_parts, !forallb_app.
    rewrite (blocks_not_start _ (stops_are_blocks _)).
    now rewrite (blocks_not_start _ (synthesizedAtEnd_blocks st)).
  - unfold completed.
    change (messageStops (message_start msgId model :: ?l)) with (messageStops l).
    destruct (negb (statusCode =? 200)%nat); [destruct ended; reflexivity |].
    destruct ended; [| now apply messageStops_blocks].
    rewrite messageStops_app, (messageStops_blocks _ Hb), onEnd_parts,
      !messageStops_app.
    rewrite (messageStops_blocks _ (stops_are_blocks _)).
    now rewrite (messageStops_blocks _ (synthesizedAtEnd_blocks st)).
Qed.

(** ** What the streams carry *)

Lemma textOf_app (a b : list Event) : textOf (a ++ b) = (textOf a ++ textOf b)%string.
Proof.
  induction a as [|e a IH]; [reflexivity |].
  destruct e as [| | i [text | partial] | | |]; cbn [app textOf]; try exact IH.
  now rewrite IH, append_assoc.
Qed.

Lemma textOf_blocks_stop (indices : list nat) :
  textOf (map content_block_stop indices) = "".
Proof. induction indices; [reflexivity | assumption]. Qed.

Lemma textOf_onEnd (st : StreamState) : textOf (onEnd st) = "".
Proof.
  rewrite onEnd_parts, !textOf_app, textOf_blocks_stop.
  unfold synthesizedAtEnd. destruct (negb (textBlockStarted st) && _); reflexivity.
Qed.

Lemma textOf_onToolCalls (calls : list ToolCallDelta) (st : StreamState) :
  textOf (snd (onToolCalls st calls)) = "".
Proof.
  revert st. induction calls as [|tc rest IH]; intros st; [reflexivity |].
  cbn [onToolCalls].
  destruct (onToolCall st tc) as [st1 events1] eqn:E1.
  specialize (IH st1). destruct (onToolCalls st1 rest) as [st2 events2].
  cbn [snd] in *. rewrite textOf_app, IH.
  unfold onToolCall in E1. injection E1 as _ <-.
  destruct (negb _ && _); destruct (Js.truthy_str _ && _); reflexivity.
Qed.

Lemma textOf_onLine (st : StreamState) (line : SseLine) :
  textOf (snd (onLine st line)) = Js.or_str (d_content (lineDelta line)) "".
Proof.
  destruct line as [|data]; [reflexivity |].
  cbn [onLine lineDelta]. unfold onChunk.
  destruct (default [] (ch_choices data)) as [|choice others]; [reflexivity |].
  set (delta := default emptyDelta (cc_delta choice)).
  match goal with
  | |- context [onContent ?s ?c] =>
      assert (Htext : textOf (snd (onContent s c)) = Js.or_str c "");
      [| destruct (onContent s c) as [st1 textEvents] ]
  end.
  { unfold onContent. destruct (d_content delta) as [text|]; [| reflexivity].
    cbn [Js.or_str]. destruct (Js.truthy text); [| reflexivity].
    cbn [snd]. rewrite textOf_app. cbn [textOf].
    destruct (textBlockStarted _); cbn [textOf]; now rewrite append_empty. }
  cbn [snd] in Htext.
  destruct (d_tool_calls delta) as [calls|].
  - destruct (closeTextBlock st1) as [sa closing] eqn:Ec.
    pose proof (textOf_onToolCalls calls sa) as Htools.
    destruct (onToolCalls sa calls) as [sb events]. cbn [snd] in *.
    rewrite !textOf_app, Htext, Htools.
    unfold closeTextBlock in Ec.
    destruct (textBlockStarted st1 && _); injection Ec as _ <-;
      cbn [textOf]; now rewrite ?append_nil, append_empty.
  - cbn [snd]. now rewrite textOf_app, Htext, append_empty.
Qed.

Lemma textOf_onLines (lines : list SseLine) (st : StreamState) :
  textOf (snd (onLines st lines)) = contentOf lines.
Proof.
  revert st. induction lines as [|line rest IH]; intros st; [reflexivity |].
  cbn [onLines contentOf].
  pose proof (textOf_onLine st line) as Hline.
  destruct (onLine st line) as [st1 events1].
  specialize (IH st1). destruct (onLines st1 rest) as [st2 events2].
  cbn [snd] in *. now rewrite textOf_app, Hline, IH.
Qed.

(** X19. The native relay neither drops nor reorders nor invents text:
    for a response of status 200 the text deltas the client is sent, put
    together, are the [content] of the backend's chunks, put together,
    whether the response ended or broke off.  For a response of another
    status they are the words [Error from Azure: ] and the body once the
    body has been read to its end, and there is no text before that. *)
Theorem relay_text_faithful (msgId model errorBody : string) (statusCode : nat)
    (lines : list SseLine) (ended : bool) :
  textOf (handleStreaming msgId model
            (StreamResponse statusCode errorBody lines ended))
  = if (statusCode =? 200)%nat then contentOf lines
    else if ended then "Error from Azure: " ++ errorBody
    else "".
Proof.
  unfold handleStreaming. cbn [textOf].
  destruct (statusCode =? 200)%nat; cbn [negb].
  - pose proof (textOf_onLines lines initialState) as Hrelay.
    destruct (onLines initialState lines) as [st events]. cbn [snd] in Hrelay.
    destruct ended; [| exact Hrelay].
    now rewrite textOf_app, textOf_onEnd, Hrelay, append_empty.
  - destruct ended; [| reflexivity].
    cbn [writeError textOf]. now rewrite append_empty.
Qed.

Lemma deltasOf_app (a b : list Event) :
  deltasOf (a ++ b) = (deltasOf a ++ deltasOf b)%list.
Proof. apply flat_map_app. Qed.

Lemma deltasOf_blockEvents (JSON_stringify : json -> string)
    (content : list ReplyBlock) (n : nat) :
  deltasOf (blockEvents JSON_stringify n content)
  = imap (fun i block => ((n + i)%nat, deltaOfBlock JSON_stringify block)) content.
Proof.
  revert n. induction content as [|block rest IH]; intros n; [reflexivity |].
  assert (Hrest :
    imap (fun i block => ((S n + i)%nat, deltaOfBlock JSON_stringify block)) rest
    = imap ((fun i block => ((n + i)%nat, deltaOfBlock JSON_stringify block)) ∘ S)
        rest).
  { apply imap_ext. intros i x _. cbn. f_equal. lia. }
  destruct block as [text | id name input]; cbn [blockEvents imap];
    unfold deltasOf in *; cbn [flat_map app];
    rewrite IH, Hrest, Nat.add_0_r; cbn [deltaOfBlock];
    rewrite ?or_default_empty; reflexivity.
Qed.

(** X20. The synthesized stream carries the converted reply block by
    block: block number i of the reply is written as content block i, with
    one delta that holds its text or the JSON text of its input, and the
    blocks are numbered from 0 without a gap; a reply without content is
    written as one empty text block. *)
Theorem synthesized_blocks (JSON_stringify : json -> string)
    (response : ClaudeResponse) :
  let events := responseEvents JSON_stringify response in
  deltasOf events
  = imap (fun i block => (i, deltaOfBlock JSON_stringify block)) (cr_content response)
  /\ startIndices events = seq 0 (Nat.max 1 (List.length (cr_content response)))
  /\ stopIndices events = startIndices events.
Proof.
  intros events. subst events. unfold responseEvents.
  destruct (cr_content response) as [|block rest] eqn:E; [cbn; auto |].
  rewrite deltasOf_app, startIndices_app, stopIndices_app,
    deltasOf_blockEvents, blockEvents_starts, blockEvents_stops.
  cbn [deltasOf startIndices stopIndices flat_map app]. rewrite !app_nil_r.
  repeat split.
Qed.

(** ** The native relay and the arguments of tool calls *)

Lemma jsonAt_app (i : nat) (a b : list Event) :
  jsonAt i (a ++ b) = (jsonAt i a ++ jsonAt i b)%string.
Proof.
  induction a as [|e a IH]; [reflexivity |].
  destruct e as [| | j [text | partial] | | |]; cbn [app jsonAt]; try exact IH.
  destruct (j =? i)%nat; [| exact IH]. now rewrite IH, append_assoc.
Qed.

Lemma argumentsFor_app (k : nat) (a b : list ToolCallDelta) :
  argumentsFor k (a ++ b) = (argumentsFor k a ++ argumentsFor k b)%string.
Proof.
  induction a as [|tc a IH]; [reflexivity |].
  cbn [app argumentsFor]. now rewrite IH, append_assoc.
Qed.

Lemma hasIndex_snoc (i x : nat) (l : list nat) :
  hasIndex i (l ++ [x]) = hasIndex i l || (i =? x)%nat.
Proof. unfold hasIndex. rewrite existsb_app. cbn. now rewrite orb_false_r. Qed.

Lemma Faithful_initial : Faithful initialState [] [] [].
Proof. split; intros; try reflexivity; discriminate. Qed.

Lemma or_str_falsy (o : option string) :
  Js.truthy_str o = false -> Js.or_str o "" = "".
Proof.
  destruct o as [s|]; [| reflexivity]. cbn. now intros ->.
Qed.

Lemma or_str_keep (o : option string) (d : string) :
  Js.truthy_str o = false -> Js.or_str o d = d.
Proof. destruct o as [s|]; [| reflexivity]. cbn. now intros ->. Qed.

Lemma or_str_take (o : option string) (d : string) :
  Js.truthy_str o = true -> Js.truthy (Js.or_str o d) = true.
Proof. destruct o as [s|]; [| discriminate]. cbn. intros H. now rewrite H. Qed.

Lemma Faithful_onToolCall st events named consumed tc :
  Faithful st events named consumed ->
  (negb (Js.truthy_str (tcd_function tc ≫= fn_arguments))
   || hasIndex (Js.or_nat (tcd_index tc) 0) (namedAfter named tc)) = true ->
  Faithful (fst (onToolCall st tc)) (events ++ snd (onToolCall st tc))
    (namedAfter named tc) (consumed ++ [tc]).
Proof.
  intros [Hclosed Hrelayed Hkept Hnamed] Hstep.
  unfold onToolCall. cbn [fst snd acc_name acc_id acc_arguments].
  set (k := Js.or_nat (tcd_index tc) 0) in *.
  set (bi := (currentBlockIndex st + k)%nat).
  set (name := tcd_function tc ≫= fn_name) in *.
  set (arguments := tcd_function tc ≫= fn_arguments) in *.
  set (known := match toolCalls st !! k with
                | Some toolCall => toolCall
                | None => {| acc_id := Js.or_str (tcd_id tc) ""; acc_name := "";
                             acc_arguments := "" |}
                end).
  assert (Hknown_args : acc_arguments known = argsOf (toolCalls st !! k)).
  { subst known. now destruct (toolCalls st !! k). }
  assert (Hknown_name : acc_name known = nameOf (toolCalls st !! k)).
  { subst known. now destruct (toolCalls st !! k). }
  set (newName := Js.or_str name (acc_name known)).
  set (opens := negb (hasIndex bi (toolBlocksStarted st)) && Js.truthy newName).
  set (started := if opens then (toolBlocksStarted st ++ [bi])%list
                  else toolBlocksStarted st).
  (* the name of call k after the step *)
  assert (Hname' : hasIndex k (namedAfter named tc) = true -> Js.truthy newName = true).
  { unfold namedAfter. fold name. subst newName.
    destruct (Js.truthy_str name) eqn:En; [intros _; now apply or_str_take |].
    intros Hin. rewrite (or_str_keep _ _ En), Hknown_name. now apply Hnamed. }
  (* the block of call k is open when its arguments are relayed *)
  assert (Hopen : Js.truthy newName = true -> hasIndex bi started = true).
  { intros Ht. subst started opens. rewrite Ht, andb_true_r.
    destruct (hasIndex bi (toolBlocksStarted st)) eqn:Eh; cbn [negb]; [exact Eh |].
    rewrite hasIndex_snoc, Nat.eqb_refl. apply orb_true_r. }
  assert (Hgrow : forall i, hasIndex i started = false ->
                            hasIndex i (toolBlocksStarted st) = false).
  { intros i. subst started. destruct opens; [| auto].
    rewrite hasIndex_snoc. intros H. now apply orb_false_elim in H as [H _]. }
  split; cbn [toolBlocksStarted currentBlockIndex toolCalls].
  - (* fa_closed *)
    intros i Hi. fold started in Hi.
    rewrite jsonAt_app, (Hclosed i (Hgrow i Hi)), append_nil, jsonAt_app.
    destruct opens; cbn [jsonAt]; rewrite append_nil;
      (destruct (Js.truthy_str arguments && hasIndex bi started) eqn:Ed;
       [| reflexivity]);
      cbn [jsonAt]; apply andb_prop in Ed as [_ Ed];
      (destruct (Nat.eqb_spec bi i) as [<- |]; [congruence | reflexivity]).
  - (* fa_relayed *)
    intros k'. fold bi started.
    rewrite jsonAt_app, Hrelayed, argumentsFor_app. f_equal.
    cbn [argumentsFor]. fold k arguments. rewrite append_empty, jsonAt_app.
    assert (Hstart : forall block,
              jsonAt (currentBlockIndex st + k')
                (if opens then [content_block_start bi block] else []) = "").
    { intros block. destruct opens; reflexivity. }
    rewrite Hstart, append_nil.
    destruct (Nat.eqb_spec k k') as [<- | Hne].
    + fold bi. destruct (Js.truthy_str arguments) eqn:Ea.
      * cbn [negb orb] in Hstep. rewrite (Hopen (Hname' Hstep)).
        cbn [andb jsonAt]. rewrite Nat.eqb_refl. apply append_empty.
      * cbn [andb jsonAt]. now rewrite or_str_falsy.
    + destruct (Js.truthy_str arguments && hasIndex bi started); [| reflexivity].
      cbn [jsonAt]. subst bi.
      destruct (Nat.eqb_spec (currentBlockIndex st + k) (currentBlockIndex st + k'));
        [lia | reflexivity].
  - (* fa_kept *)
    intros k'. rewrite argumentsFor_app. cbn [argumentsFor]. fold k arguments.
    rewrite append_empty.
    destruct (Nat.eqb_spec k k') as [<- | Hne].
    + rewrite lookup_insert_eq. cbn [argsOf acc_arguments].
      rewrite Hknown_args, Hkept.
      destruct (Js.truthy_str arguments) eqn:Ea; [reflexivity |].
      now rewrite or_str_falsy, append_empty.
    + rewrite lookup_insert_ne by assumption. now rewrite Hkept, append_empty.
  - (* fa_named *)
    intros k' Hin.
    destruct (Nat.eqb_spec k k') as [<- | Hne].
    + rewrite lookup_insert_eq. cbn [nameOf acc_name]. now apply Hname'.
    + rewrite lookup_insert_ne by assumption. apply Hnamed.
      unfold namedAfter in Hin. fold name k in Hin.
      destruct (Js.truthy_str name); [| exact Hin].
      cbn [hasIndex existsb] in Hin. apply orb_prop in Hin as [Hin | Hin]; [| exact Hin].
      apply Nat.eqb_eq in Hin. congruence.
Qed.

Lemma namedFirst_app (named : list nat) (a b : list ToolCallDelta) :
  namedFirst named (a ++ b)
  = namedFirst named a && namedFirst (fold_left namedAfter a named) b.
Proof.
  revert named. induction a as [|tc a IH]; intros named; [reflexivity |].
  cbn [app namedFirst fold_left]. now rewrite IH, andb_assoc.
Qed.

Lemma Faithful_onToolCalls calls st events named consumed :
  Faithful st events named consumed ->
  namedFirst named calls = true ->
  Faithful (fst (onToolCalls st calls)) (events ++ snd (onToolCalls st calls))
    (fold_left namedAfter calls named) (consumed ++ calls).
Proof.
  revert st events named consumed.
  induction calls as [|tc rest IH]; intros st events named consumed Hf Hn.
  - cbn. now rewrite !app_nil_r.
  - cbn [namedFirst] in Hn. apply andb_prop in Hn as [Hstep Hrest].
    pose proof (Faithful_onToolCall _ _ _ _ tc Hf Hstep) as H1.
    cbn [onToolCalls fold_left].
    destruct (onToolCall st tc) as [st1 events1]. cbn [fst snd] in H1.
    specialize (IH _ _ _ _ H1 Hrest).
    destruct (onToolCalls st1 rest) as [st2 events2]. cbn [fst snd] in *.
    rewrite <- !app_assoc in IH. exact IH.
Qed.

Lemma Faithful_onContent st events named consumed content :
  Faithful st events named consumed ->
  Faithful (fst (onContent st content)) (events ++ snd (onContent st content))
    named consumed.
Proof.
  intros [Hclosed Hrelayed Hkept Hnamed]. unfold onContent.
  destruct content as [text|]; [| cbn; now rewrite app_nil_r].
  destruct (Js.truthy text); [| cbn; now rewrite app_nil_r].
  cbn [fst snd].
  assert (Hsame : forall i,
            jsonAt i
              (events ++ (if textBlockStarted st then []
                          else [content_block_start (currentBlockIndex st) CbText])
               ++ [content_block_delta (currentBlockIndex st) (TextDelta text)])
            = jsonAt i events).
  { intros i. rewrite !jsonAt_app.
    destruct (textBlockStarted st); cbn [jsonAt]; now rewrite ?append_nil, append_empty. }
  split; cbn [toolBlocksStarted currentBlockIndex toolCalls]; intros;
    rewrite ?Hsame; auto.
Qed.

Lemma Faithful_closeTextBlock st events named consumed :
  Faithful st events named consumed ->
  Faithful (fst (closeTextBlock st)) (events ++ snd (closeTextBlock st))
    named consumed.
Proof.
  intros [Hclosed Hrelayed Hkept Hnamed]. unfold closeTextBlock.
  destruct (textBlockStarted st); cbn [andb]; [| cbn; now rewrite app_nil_r].
  destruct (toolBlocksStarted st) as [|b tools] eqn:Es;
    [| cbn; rewrite app_nil_r; split; rewrite ?Es; auto].
  cbn [List.length Nat.eqb fst snd].
  assert (Hnone : forall i, jsonAt i events = "").
  { intros i. now apply Hclosed. }
  assert (Hsame : forall i,
            jsonAt i (events ++ [content_block_stop (currentBlockIndex st)]) = "").
  { intros i. now rewrite jsonAt_app, Hnone. }
  split; cbn [toolBlocksStarted currentBlockIndex toolCalls]; intros;
    rewrite ?Hsame; auto.
  now rewrite <- (Hrelayed k), Hnone.
Qed.

Lemma Faithful_meta st events named consumed tokens reason :
  Faithful st events named consumed ->
  Faithful {| outputTokens := tokens; finishReason := reason;
              textBlockStarted := textBlockStarted st;
              currentBlockIndex := currentBlockIndex st;
              toolCalls := toolCalls st;
              toolBlocksStarted := toolBlocksStarted st |}
    events named consumed.
Proof. intros [Hclosed Hrelayed Hkept Hnamed]. split; assumption. Qed.

Lemma Faithful_onLine st events named consumed line :
  Faithful st events named consumed ->
  namedFirst named (default [] (d_tool_calls (lineDelta line))) = true ->
  Faithful (fst (onLine st line)) (events ++ snd (onLine st line))
    (fold_left namedAfter (default [] (d_tool_calls (lineDelta line))) named)
    (consumed ++ default [] (d_tool_calls (lineDelta line))).
Proof.
  intros Hf Hn. destruct line as [|data].
  { cbn. now rewrite !app_nil_r. }
  cbn [onLine lineDelta] in *. unfold onChunk.
  destruct (default [] (ch_choices data)) as [|choice others].
  { cbn. now rewrite !app_nil_r. }
  set (delta := default emptyDelta (cc_delta choice)) in *.
  match goal with
  | |- context [onContent ?s ?c] =>
      pose proof (Faithful_onContent s events named consumed c
                    (Faithful_meta _ _ _ _ _ _ Hf)) as H1;
      destruct (onContent s c) as [st1 textEvents]
  end.
  cbn [fst snd] in H1.
  destruct (d_tool_calls delta) as [calls|]; cbn [default] in *.
  - pose proof (Faithful_closeTextBlock _ _ _ _ H1) as H2.
    destruct (closeTextBlock st1) as [sa closing]. cbn [fst snd] in H2.
    pose proof (Faithful_onToolCalls calls _ _ _ _ H2 Hn) as H3.
    destruct (onToolCalls sa calls) as [sb toolEvents]. cbn [fst snd] in *.
    apply Faithful_meta. rewrite <- !app_assoc in H3. exact H3.
  - cbn [fst snd fold_left]. rewrite !app_nil_r.
    now apply Faithful_meta.
Qed.

Lemma toolDeltas_cons (line : SseLine) (rest : list SseLine) :
  toolDeltas (line :: rest)
  = (default [] (d_tool_calls (lineDelta line)) ++ toolDeltas rest)%list.
Proof. reflexivity. Qed.

Lemma Faithful_onLines lines st events named consumed :
  Faithful st events named consumed ->
  namedFirst named (toolDeltas lines) = true ->
  Faithful (fst (onLines st lines)) (events ++ snd (onLines st lines))
    (fold_left namedAfter (toolDeltas lines) named)
    (consumed ++ toolDeltas lines).
Proof.
  revert st events named consumed.
  induction lines as [|line rest IH]; intros st events named consumed Hf Hn.
  - cbn. now rewrite !app_nil_r.
  - rewrite toolDeltas_cons, namedFirst_app in Hn.
    apply andb_prop in Hn as [Hline Hrest].
    pose proof (Faithful_onLine _ _ _ _ line Hf Hline) as H1.
    cbn [onLines]. destruct (onLine st line) as [st1 events1]. cbn [fst snd] in H1.
    specialize (IH _ _ _ _ H1 Hrest).
    destruct (onLines st1 rest) as [st2 events2]. cbn [fst snd] in *.
    rewrite toolDeltas_cons, fold_left_app.
    rewrite <- !app_assoc in IH. exact IH.
Qed.

Lemma jsonAt_onEnd (i : nat) (st : StreamState) : jsonAt i (onEnd st) = "".
Proof.
  rewrite onEnd_parts, !jsonAt_app.
  assert (Hstops : forall l, jsonAt i (map content_block_stop l) = "").
  { induction l; [reflexivity | assumption]. }
  rewrite Hstops. unfold synthesizedAtEnd.
  destruct (negb (textBlockStarted st) && _); reflexivity.
Qed.

(** X21. When every fragment of arguments arrives with the name of its
    tool call or after it, as Chat Completions streams them, the native
    relay loses none of it: for every tool call k, the input_json deltas
    the client is sent for block number base + k, put together, are the
    argument fragments the backend streamed for call k, put together, and
    so is the text the relay accumulates for that call.  base is the
    relay's block counter: the number of text blocks closed before the
    first tool block opened. *)
Theorem relay_arguments_faithful (msgId model errorBody : string)
    (lines : list SseLine) (ended : bool) (k : nat) :
  namedFirst [] (toolDeltas lines) = true ->
  let st := fst (onLines initialState lines) in
  jsonAt (currentBlockIndex st + k)
    (handleStreaming msgId model (StreamResponse 200 errorBody lines ended))
  = argumentsFor k (toolDeltas lines)
  /\ argsOf (toolCalls st !! k) = argumentsFor k (toolDeltas lines).
Proof.
  intros Hn st.
  pose proof (Faithful_onLines lines _ _ _ _ Faithful_initial Hn)
    as [_ Hrelayed Hkept _].
  fold st in Hrelayed, Hkept. cbn [app] in Hrelayed, Hkept.
  split; [| apply Hkept].
  unfold handleStreaming. cbn [Nat.eqb negb jsonAt].
  subst st. destruct (onLines initialState lines) as [st events].
  cbn [fst snd] in *.
  destruct ended; [| apply Hrelayed].
  now rewrite jsonAt_app, jsonAt_onEnd, append_empty.
Qed.

Lemma relay_arguments_faithful_witness :
  namedFirst [] (toolDeltas Sample.parallelTools) = true
  /\ jsonAt
       (currentBlockIndex (fst (onLines initialState Sample.parallelTools)) + 1)
       (handleStreaming "msg_1" "claude-sonnet-4"
          (StreamResponse 200 "" Sample.parallelTools true))
     = argumentsFor 1 (toolDeltas Sample.parallelTools)
  /\ argsOf (toolCalls (fst (onLines initialState Sample.parallelTools)) !! 1)
     = argumentsFor 1 (toolDeltas Sample.parallelTools).
Proof.
  split; [reflexivity |].
  apply (relay_arguments_faithful "msg_1" "claude-sonnet-4" ""
           Sample.parallelTools true 1).
  reflexivity.
Defined.

(** ** The line reader: chunks and lines *)

Lemma splitLines_nonempty (s : string) : splitLines s <> [].
Proof.
  induction s as [|c s IH]; [discriminate |]. cbn [splitLines].
  destruct (Ascii.eqb c _); [discriminate |].
  destruct (splitLines s); discriminate.
Qed.

Lemma removelast_keep {A : Type} (x : A) (l : list A) :
  l <> [] -> removelast (x :: l) = x :: removelast l.
Proof. destruct l; [congruence | reflexivity]. Qed.

Lemma last_skip {A : Type} (x d : A) (l : list A) :
  l <> [] -> List.last (x :: l) d = List.last l d.
Proof. destruct l; [congruence | reflexivity]. Qed.

Lemma removelast_continued {A : Type} (a b : list A) :
  b <> [] -> removelast (a ++ b) = (a ++ removelast b)%list.
Proof. intros Hb. now apply removelast_app. Qed.

(** Splitting a text that continues: the complete lines of the first part
    stay, its last piece is continued by the second part. *)
Lemma splitLines_app (a b : string) :
  splitLines (a ++ b)
  = (removelast (splitLines a) ++ splitLines (List.last (splitLines a) "" ++ b))%list.
Proof.
  induction a as [|c a IH]; [reflexivity |].
  rewrite append_cons. cbn [splitLines].
  destruct (Ascii.eqb c (ascii_of_nat 10)) eqn:Ec.
  - rewrite removelast_keep, last_skip by apply splitLines_nonempty.
    cbn [app]. now rewrite IH.
  - rewrite IH. pose proof (splitLines_nonempty a) as Hne.
    destruct (splitLines a) as [|x [|y l]]; [congruence | |].
    + cbn [removelast List.last app]. rewrite append_cons. cbn [splitLines].
      now rewrite Ec.
    + cbn [removelast List.last app]. reflexivity.
Qed.

(** The piece kept in the buffer holds no line feed. *)
Lemma last_single (s : string) :
  splitLines (List.last (splitLines s) "") = [List.last (splitLines s) ""].
Proof.
  induction s as [|c s IH]; [reflexivity |]. cbn [splitLines].
  destruct (Ascii.eqb c (ascii_of_nat 10)) eqn:Ec.
  - now rewrite last_skip by apply splitLines_nonempty.
  - pose proof (splitLines_nonempty s) as Hne.
    destruct (splitLines s) as [|x [|y l]]; [congruence | |].
    + cbn [List.last] in *. cbn [splitLines]. now rewrite Ec, IH.
    + exact IH.
Qed.

Lemma splitLines_single (s : string) :
  hasLineFeed s = false -> splitLines s = [s].
Proof.
  induction s as [|c s IH]; [reflexivity |].
  cbn [splitLines hasLineFeed].
  destruct (Ascii.eqb c (ascii_of_nat 10)); [discriminate |].
  cbn [orb]. intros H. now rewrite IH.
Qed.

Lemma splitLines_join (x y : string) :
  splitLines x = [x] -> splitLines y = [y] -> splitLines (x ++ y) = [(x ++ y)%string].
Proof.
  intros Hx Hy. induction x as [|c x IH]; [exact Hy |].
  rewrite append_cons. cbn [splitLines] in *.
  destruct (Ascii.eqb c (ascii_of_nat 10)) eqn:Ec; [discriminate |].
  pose proof (splitLines_nonempty x) as Hne.
  destruct (splitLines x) as [|first [|second others]]; [congruence | | discriminate].
  injection Hx as ->. now rewrite IH.
Qed.

Lemma onLines_app (a b : list SseLine) (st : StreamState) :
  onLines st (a ++ b)
  = let '(st1, events1) := onLines st a in
    let '(st2, events2) := onLines st1 b in
    (st2, (events1 ++ events2)%list).
Proof.
  revert st. induction a as [|line a IH]; intros st.
  - cbn. now destruct (onLines st b).
  - cbn [app onLines]. destruct (onLine st line) as [s1 e1].
    rewrite IH. destruct (onLines s1 a) as [s2 e2].
    destruct (onLines s2 b) as [s3 e3]. now rewrite app_assoc.
Qed.

Section Reader.

Context {rt : Builtins}.

Variable parseChunk : string -> option Chunk.

Lemma onDataChunks_text (chunks : list Buffer) (buffer : string) (st : StreamState) :
  splitLines buffer = [buffer] ->
  onDataChunks parseChunk buffer st chunks
  = onLines st
      (map (readLine parseChunk) (completeLines (buffer ++ textOfChunks chunks))).
Proof.
  revert buffer st. induction chunks as [|chunk rest IH]; intros buffer st Hbuf.
  - cbn [onDataChunks textOfChunks fold_right]. unfold completeLines.
    now rewrite append_empty, Hbuf.
  - cbn [onDataChunks textOfChunks fold_right]. fold (textOfChunks rest).
    unfold onData. unfold completeLines.
    rewrite <- append_assoc, (splitLines_app (buffer ++ toString chunk)).
    rewrite removelast_continued by apply splitLines_nonempty.
    rewrite map_app, onLines_app.
    destruct (onLines st (map (readLine parseChunk)
                            (removelast (splitLines (buffer ++ toString chunk)))))
      as [st1 events1].
    rewrite IH by apply last_single. reflexivity.
Qed.

(** X22. Every chunk is decoded on its own and the unfinished line is
    carried over in the buffer: reading the chunks one by one relays the
    lines, each ended by a line feed, of the text that the decoded chunks
    make together, in order.  So the cut into chunks makes no difference
    whenever the response decoded as a whole is that same text, which is
    when no chunk ends inside a character. *)
Theorem chunking_irrelevant (chunks : list Buffer) (whole : Buffer)
    (st : StreamState) :
  onDataChunks parseChunk "" st chunks
  = onLines st (map (readLine parseChunk) (completeLines (textOfChunks chunks)))
  /\ (toString whole = textOfChunks chunks ->
        onDataChunks parseChunk "" st chunks
        = onDataChunks parseChunk "" st [whole]).
Proof.
  assert (H : forall cs, onDataChunks parseChunk "" st cs
                         = onLines st (map (readLine parseChunk)
                                         (completeLines (textOfChunks cs)))).
  { intros cs. now rewrite onDataChunks_text. }
  split; [apply H |]. intros Hwhole.
  rewrite !H. cbn [textOfChunks fold_right]. now rewrite append_empty, Hwhole.
Qed.

(** X23. A last line that no line feed ends is never read: text without
    a line feed, added at the end of a response, changes neither the lines
    read nor what is relayed. *)
Theorem unterminated_line_dropped (text tail : Buffer) (st : StreamState) :
  hasLineFeed (toString tail) = false ->
  completeLines (toString text ++ toString tail) = completeLines (toString text)
  /\ onDataChunks parseChunk "" st [text; tail]
     = onDataChunks parseChunk "" st [text].
Proof.
  intros Htail.
  assert (Hlines : completeLines (toString text ++ toString tail)
                   = completeLines (toString text)).
  { unfold completeLines. rewrite splitLines_app.
    rewrite (splitLines_join _ _ (last_single (toString text))
               (splitLines_single _ Htail)).
    rewrite removelast_continued by discriminate.
    cbn [removelast]. apply app_nil_r. }
  split; [exact Hlines |].
  rewrite !onDataChunks_text by reflexivity.
  cbn [textOfChunks fold_right]. rewrite !append_nil, !append_empty.
  now rewrite Hlines.
Qed.

End Reader.

(** The chunks of a response cut inside a line, and the response whole. *)
Example chunks_of_a_line :
  let chunks : list (Buffer (Builtins := Sample.node)) :=
    ["data: {}"; Js.newline ++ "da"; "ta: [DONE]" ++ Js.newline] in
  let whole : Buffer (Builtins := Sample.node) :=
    "data: {}" ++ Js.newline ++ "data: [DONE]" ++ Js.newline in
  toString whole = textOfChunks chunks
  /\ completeLines (textOfChunks chunks) = ["data: {}"; "data: [DONE]"]
  /\ onDataChunks (rt := Sample.node) Scenario.noChunk "" initialState chunks
     = onDataChunks (rt := Sample.node) Scenario.noChunk "" initialState [whole].
Proof. cbv zeta. repeat split. Qed.

Lemma unterminated_line_dropped_witness :
  hasLineFeed Scenario.cut = false
  /\ completeLines (Scenario.received ++ Scenario.cut)
     = completeLines Scenario.received
  /\ onDataChunks (rt := Sample.node) Scenario.noChunk "" initialState
       [Scenario.received; Scenario.cut]
     = onDataChunks (rt := Sample.node) Scenario.noChunk "" initialState
         [Scenario.received].
Proof.
  split; [reflexivity |].
  apply (unterminated_line_dropped (rt := Sample.node) Scenario.noChunk
           Scenario.received Scenario.cut initialState).
  reflexivity.
Defined.

(** ** The request router *)

Lemma includes_middle (pre needle post : string) :
  Js.includes (pre ++ needle ++ post) needle = true.
Proof. apply includes_spec. eauto. Qed.

Lemma includes_not_health (u needle : string) :
  Js.includes "/health" needle = false ->
  Js.includes u needle = true -> String.eqb u "/health" = false.
Proof.
  intros Hh Hu. destruct (String.eqb_spec u "/health") as [-> |]; congruence.
Qed.

(** The requests that reach the translation. *)
Lemma route_messages (method : string) (url : option string) :
  route method url = Messages
  <-> method = "POST"
      /\ urlIncludes url "/messages" = true
      /\ urlIncludes url "auth" = false
      /\ urlIncludes url "token" = false
      /\ urlIncludes url "telemetry" = false
      /\ urlIncludes url "event_logging" = false.
Proof.
  unfold route. split.
  - destruct (String.eqb method "OPTIONS"); [discriminate |].
    destruct (match url with Some u => String.eqb u "/health" | None => false end);
      [discriminate |].
    destruct (urlIncludes url "auth"), (urlIncludes url "token"),
      (urlIncludes url "telemetry"), (urlIncludes url "event_logging");
      try discriminate.
    cbn [orb].
    destruct (String.eqb_spec method "POST"); [| discriminate].
    destruct (urlIncludes url "/messages"); [| discriminate].
    intros _. repeat split; assumption.
  - intros (-> & Hm & -> & -> & -> & ->). cbn [String.eqb Ascii.eqb Bool.eqb orb negb].
    rewrite Hm. cbn [negb orb].
    destruct url as [u|]; [| discriminate].
    now rewrite (includes_not_health u "/messages" eq_refl Hm).
Qed.

Section Routing.

Context {rt : Builtins}.

Variable JSON_stringify : json -> string.
Variable JSON_parse : string -> option json.
Variable parseResponse : string -> Parsed.
Variable parseRequest : string -> ParsedRequest.
Variable requestJson : RequestOptions -> Payload -> Outcome.
Variable requestStream : RequestOptions -> Payload -> StreamOutcome.

(** X24. The proxy calls the backend only for a POST whose URL contains
    /messages and none of auth, token, telemetry and event_logging, and
    whose body parses: for such a request it does what the translation of
    the parsed request does, and for every other request it answers by
    itself, without any backend call. *)
Theorem gateway_routing (now : string) (azure : AzureConfig)
    (method : string) (url : option string) (body : string) :
  let served :=
    createProxy JSON_stringify JSON_parse parseResponse parseRequest requestJson
      requestStream now azure method url body in
  (fst served = []
   /\ exists status content,
        snd served = JsonReply {| reply_status := status; reply_body := content |}
        /\ (status = 204 \/ status = 200 \/ status = 404 \/ status = 500))
  \/ (method = "POST"
      /\ urlIncludes url "/messages" = true
      /\ urlIncludes url "auth" = false
      /\ urlIncludes url "token" = false
      /\ urlIncludes url "telemetry" = false
      /\ urlIncludes url "event_logging" = false
      /\ exists claudeReq,
           parseRequest body = GoodRequest claudeReq
           /\ served
              = serve JSON_stringify JSON_parse parseResponse requestJson
                  requestStream now azure claudeReq).
Proof.
  intros served. subst served. unfold createProxy.
  destruct (route method url) eqn:Er;
    try (left; split; [reflexivity |]; eexists _, _; split; [reflexivity |]; auto).
  destruct (parseRequest body) as [message | claudeReq] eqn:Ep.
  - left. split; [reflexivity |]. eexists _, _. split; [reflexivity |]. auto.
  - right. apply route_messages in Er as (Hm & H1 & H2 & H3 & H4 & H5).
    repeat (split; [assumption |]). exists claudeReq. auto.
Qed.

(** X25. A POST whose URL contains token is acknowledged with status 200
    and the body [{status: ok}], whatever else the URL contains; the
    backend is not called.  The token-counting endpoint of the Messages
    API, /v1/messages/count_tokens, is such a URL. *)
Theorem mentioned_token_acknowledged (now : string) (azure : AzureConfig)
    (pre post body : string) :
  let url := Some (pre ++ "token" ++ post) in
  route "POST" url = Acknowledged
  /\ createProxy JSON_stringify JSON_parse parseResponse parseRequest requestJson
       requestStream now azure "POST" url body
     = ([], jsonReply JSON_stringify 200 (JObj [("status", JStr "ok")]))
  /\ route "POST" (Some "/v1/messages/count_tokens") = Acknowledged.
Proof.
  intros url.
  assert (Hroute : route "POST" url = Acknowledged).
  { subst url. unfold route. cbn [String.eqb Ascii.eqb Bool.eqb].
    rewrite (includes_not_health _ "token" eq_refl (includes_middle pre "token" post)).
    unfold urlIncludes. rewrite (includes_middle pre "token" post).
    now rewrite orb_true_r. }
  split; [exact Hroute |]. split; [| reflexivity].
  unfold createProxy. now rewrite Hroute.
Qed.

End Routing.

(** ** The wire form of the stream *)

Lemma hasLineFeed_app (a b : string) :
  hasLineFeed (a ++ b) = hasLineFeed a || hasLineFeed b.
Proof.
  induction a as [|c a IH]; [reflexivity |].
  rewrite append_cons. cbn [hasLineFeed]. now rewrite IH, orb_assoc.
Qed.

(** A line that a line feed ends is the first piece of the split. *)
Lemma splitLines_line (line rest : string) :
  hasLineFeed line = false ->
  splitLines (line ++ Js.newline ++ rest) = line :: splitLines rest.
Proof.
  induction line as [|c line IH]; intros Hline.
  - reflexivity.
  - cbn [hasLineFeed] in Hline. apply orb_false_elim in Hline as [Hc Hline].
    rewrite append_cons. cbn [splitLines]. now rewrite Hc, IH.
Qed.

Lemma eventName_line (e : Event) : hasLineFeed ("event: " ++ eventName e) = false.
Proof. destruct e; reflexivity. Qed.

Lemma splitLines_written (JSON_stringify : json -> string) (events : list Event) :
  forallb (fun e => negb (hasLineFeed (JSON_stringify (eventData e)))) events = true ->
  splitLines (written JSON_stringify events)
  = (flat_map (frameLines JSON_stringify) events ++ [""])%list.
Proof.
  induction events as [|e rest IH]; [reflexivity |].
  cbn [forallb]. intros H. apply andb_prop in H as [He Hrest].
  apply negb_true_iff in He.
  cbn [written fold_right flat_map frameLines]. fold (written JSON_stringify rest).
  unfold sseEvent.
  replace (("event: " ++ eventName e ++ Js.newline ++ "data: "
            ++ JSON_stringify (eventData e) ++ Js.newline ++ Js.newline)
           ++ written JSON_stringify rest)%string
    with (("event: " ++ eventName e) ++ Js.newline
          ++ ("data: " ++ JSON_stringify (eventData e)) ++ Js.newline
          ++ "" ++ Js.newline ++ written JSON_stringify rest)%string.
  2: { rewrite !append_assoc. reflexivity. }
  rewrite splitLines_line by apply eventName_line.
  rewrite splitLines_line by (rewrite hasLineFeed_app; now rewrite He).
  rewrite splitLines_line by reflexivity.
  rewrite IH by assumption. reflexivity.
Qed.

(** X26. As long as the JSON text of an event holds no line feed, which
    [JSON.stringify] without indentation guarantees, the text written for
    a stream splits at line feeds into three lines per event, in the order
    of the events: the event line with the event's name, the data line
    with the event's JSON text, and an empty line; so no event runs into
    the next one. *)
Theorem written_frames (JSON_stringify : json -> string) (events : list Event) :
  forallb (fun e => negb (hasLineFeed (JSON_stringify (eventData e)))) events = true ->
  completeLines (written JSON_stringify events)
  = flat_map (frameLines JSON_stringify) events.
Proof.
  intros H. unfold completeLines. rewrite splitLines_written by assumption.
  rewrite removelast_continued by discriminate. apply app_nil_r.
Qed.

Lemma written_frames_witness :
  forallb (fun e => negb (hasLineFeed (JsonText.stringify (eventData e))))
    Scenario.refused = true
  /\ completeLines (written JsonText.stringify Scenario.refused)
     = flat_map (frameLines JsonText.stringify) Scenario.refused.
Proof.
  split; [reflexivity |].
  apply (written_frames JsonText.stringify Scenario.refused).
  reflexivity.
Defined.

(** The reference codec writes no line feed: it escapes the ones inside
    strings. *)
Lemma escapeChar_line (c : ascii) : hasLineFeed (JsonText.escapeChar c) = false.
Proof. destruct c as [[] [] [] [] [] [] [] []]; reflexivity. Qed.

Lemma escape_line (s : string) : hasLineFeed (JsonText.escape s) = false.
Proof.
  induction s as [|c s IH]; [reflexivity |].
  cbn [JsonText.escape]. now rewrite hasLineFeed_app, escapeChar_line, IH.
Qed.

Lemma quote_line (s : string) : hasLineFeed (JsonText.quote s) = false.
Proof.
  unfold JsonText.quote. cbn [hasLineFeed].
  rewrite hasLineFeed_app, escape_line. reflexivity.
Qed.

Lemma uint_line (d : Decimal.uint) : hasLineFeed (NilEmpty.string_of_uint d) = false.
Proof. induction d; cbn [NilEmpty.string_of_uint hasLineFeed]; auto. Qed.

Lemma printZ_line (n : Z) : hasLineFeed (JsonText.printZ n) = false.
Proof.
  unfold JsonText.printZ, NilZero.string_of_int, NilZero.string_of_uint.
  destruct (Z.to_int n) as [d | d].
  - destruct d; try apply uint_line. reflexivity.
  - cbn [hasLineFeed]. destruct d; try apply uint_line. reflexivity.
Qed.

Lemma stringify_line (v : json) : hasLineFeed (JsonText.stringify v) = false.
Proof.
  induction v as [| b | n | s | items IH | fields IH] using json_nested_ind.
  - reflexivity.
  - destruct b; reflexivity.
  - apply printZ_line.
  - apply quote_line.
  - rewrite stringify_arr, !hasLineFeed_app.
    assert (H : hasLineFeed (JsonText.elemsText items) = false).
    { induction IH as [|x rest Hx _ IHrest]; [reflexivity |].
      destruct rest as [|y rest']; [exact Hx |].
      rewrite elemsText_cons by discriminate.
      now rewrite !hasLineFeed_app, Hx, IHrest. }
    now rewrite H.
  - rewrite stringify_obj, !hasLineFeed_app.
    assert (H : hasLineFeed (JsonText.membersText fields) = false).
    { induction IH as [|[k x] rest Hx _ IHrest]; [reflexivity |].
      cbn [snd] in Hx.
      destruct rest as [|y rest'].
      - cbn [JsonText.membersText]. now rewrite !hasLineFeed_app, quote_line, Hx.
      - rewrite membersText_cons by discriminate.
        now rewrite !hasLineFeed_app, quote_line, Hx, IHrest. }
    now rewrite H.
Qed.

(** With the reference codec as the runtime's JSON, every stream is
    framed so, and every data line reads back as the event's object. *)
Corollary reference_frames (events : list Event) :
  completeLines (written JsonText.stringify events)
  = flat_map (frameLines JsonText.stringify) events
  /\ Forall (fun e => JsonText.parse (JsonText.stringify (eventData e))
                      = Some (eventData e)) events.
Proof.
  split.
  - unfold completeLines. rewrite splitLines_written.
    + rewrite removelast_continued by discriminate. apply app_nil_r.
    + apply forallb_forall. intros e _. now rewrite stringify_line.
  - apply List.Forall_forall. intros e _. apply parse_stringify.
Qed.
